(** * Finance tracker (Telegram Mini App): client helpers and database schema

    A shallow embedding of the parts of the repository that its specification
    talks about, followed by the properties proved about them:

    - [webapp/js/app.js]: [FinanceApp.calculateStats],
      [FinanceApp.updateExpenseChart], [API.formatDate],
      [API.validateTransaction] and [API.retryRequest];
    - [webapp/js/telegram.js]: [TelegramWebApp.showAlert] and
      [TelegramWebApp.showConfirm];
    - [database/schema.sql]: the tables, indexes and triggers, with the
      semantics PostgreSQL gives to the declared constraints.

    Beyond these, the development covers the seed migration
    [database/migrations/002_seed_categories.sql], [DELETE] with the
    declared [ON DELETE] actions, the start-up and the guarded calls of the
    Telegram adapter, and of the client [API.get], [API.handleError],
    [API.getAuthHeaders], [FinanceApp.saveTransaction] and
    [FinanceApp.deleteTransaction]. *)

From Stdlib Require Import ZArith List String Ascii Lia Bool Permutation Sorted.
From Corelib Require PrimFloat.
From stdpp Require Import base gmap strings list.
Import ListNotations.

Local Open Scope string_scope.

(* ===================================================================== *)
(** * JavaScript values used by the client code                          *)
(* ===================================================================== *)

Module JS.

(** JavaScript numbers.  The client code only adds, subtracts, divides and
    compares the amounts it reads, so the embedding is stated over any number
    type with these operations.  [ltb a b] is [a < b], [leb a b] is
    [a <= b], [truthy a] is the boolean a number converts to, and [of_nat]
    injects an array length. *)
Class Number := {
  num : Type;
  zero : num;
  add : num -> num -> num;
  sub : num -> num -> num;
  div : num -> num -> num;
  of_nat : nat -> num;
  ltb : num -> num -> bool;
  leb : num -> num -> bool;
  truthy : num -> bool
}.

(** The facts about numbers that the proofs below rely on.  They hold of the
    finite IEEE doubles once [-0] is identified with [0]; they exclude [NaN]
    (the only other falsy number), which [parseFloat] yields for an amount
    that is not numeric. No associativity or commutativity is assumed. *)
Class NumberLaws (N : Number) : Prop := {
  ltb_irrefl : forall a, ltb a a = false;
  ltb_trans : forall a b c, ltb a b = true -> ltb b c = true -> ltb a c = true;
  ltb_negtrans :
    forall a b c, ltb a b = false -> ltb b c = false -> ltb a c = false;
  falsy_zero : forall a, truthy a = false -> a = zero;
  leb_zero : forall a, truthy a = true -> leb a zero = negb (ltb zero a);
  sub_positive : forall a b, ltb zero (sub b a) = ltb a b
}.

(** Integers are one such number type. *)
#[export] Instance Z_Number : Number := {|
  num := Z;
  zero := 0%Z;
  add := Z.add;
  sub := Z.sub;
  div := Z.div;
  of_nat := Z.of_nat;
  ltb := Z.ltb;
  leb := Z.leb;
  truthy := fun z => negb (Z.eqb z 0)
|}.

(** The numbers of JavaScript themselves, IEEE doubles.  NaN keeps them
    from the laws above; they serve to run the code on amounts that are
    not numbers. *)
Definition Double : Number := {|
  num := PrimFloat.float;
  zero := PrimFloat.zero;
  add := PrimFloat.add;
  sub := PrimFloat.sub;
  div := PrimFloat.div;
  of_nat := fun n => Nat.iter n (fun x => PrimFloat.add x PrimFloat.one)
                              PrimFloat.zero;
  ltb := PrimFloat.ltb;
  leb := PrimFloat.leb;
  truthy := fun x => PrimFloat.eqb x x && negb (PrimFloat.eqb x PrimFloat.zero)
|}.

Definition NaN : @num Double := PrimFloat.nan.

Definition isNaN (x : @num Double) : bool := negb (PrimFloat.eqb x x).

(** [x || 0] for a property read [x] that is a number or [undefined]. *)
Definition or_zero `{Number} (x : option num) : num :=
  match x with
  | Some v => if truthy v then v else zero
  | None => zero
  end.

(** [s || d] for a string or missing property [s]: the empty string is
    falsy. *)
Definition or_string (s : option string) (d : string) : string :=
  match s with
  | Some EmptyString => d
  | Some v => v
  | None => d
  end.

(** ** Plain objects used as dictionaries

    An object literal [{}] that only receives string-keyed data properties:
    the own properties in creation order.  [get] reads an own property and
    [set] defines one; a read [o[k]] that finds no own property goes on to
    [Object.prototype], whose members are listed below. *)
Definition object (V : Type) := list (string * V).

(** The property names of [Object.prototype]. *)
Definition Object_prototype : list string :=
  ["constructor"; "__defineGetter__"; "__defineSetter__"; "hasOwnProperty";
   "__lookupGetter__"; "__lookupSetter__"; "isPrototypeOf";
   "propertyIsEnumerable"; "toString"; "valueOf"; "__proto__";
   "toLocaleString"].

Definition inherited (k : string) : bool :=
  existsb (String.eqb k) Object_prototype.

Fixpoint get {V} (o : object V) (k : string) : option V :=
  match o with
  | [] => None
  | (k', v) :: o' => if String.eqb k' k then Some v else get o' k
  end.

(** [o[k] = v]: an existing property keeps its place, a new one is created
    last. *)
Fixpoint set {V} (o : object V) (k : string) (v : V) : object V :=
  match o with
  | [] => [(k, v)]
  | (k', v') :: o' =>
      if String.eqb k' k then (k', v) :: o' else (k', v') :: set o' k v
  end.

(** Array indices: the canonical decimal numerals of the integers
    [0 .. 2^32 - 2].  Property enumeration lists them first. *)
Definition digit (a : ascii) : option N :=
  let n := N_of_ascii a in
  if ((48 <=? n) && (n <=? 57))%N then Some (n - 48)%N else None.

Fixpoint numeral (s : string) (acc : N) : option N :=
  match s with
  | EmptyString => Some acc
  | String a s' =>
      match digit a with
      | Some d => numeral s' (10 * acc + d)%N
      | None => None
      end
  end.

Definition array_index (s : string) : option N :=
  match s with
  | EmptyString => None
  | String a s' =>
      match digit a, s' with
      | Some 0%N, EmptyString => Some 0%N
      | Some 0%N, _ => None
      | _, _ =>
          match numeral s 0 with
          | Some n => if (n <? 2 ^ 32 - 1)%N then Some n else None
          | None => None
          end
      end
  end.

Definition is_index (s : string) : bool :=
  match array_index s with Some _ => true | None => false end.

(** Insertion of an indexed property into a list ordered by index. *)
Fixpoint insert_by_index {V} (n : N) (e : string * V)
    (l : list (N * (string * V))) : list (N * (string * V)) :=
  match l with
  | [] => [(n, e)]
  | (m, e') :: l' =>
      if (n <? m)%N then (n, e) :: l
      else (m, e') :: insert_by_index n e l'
  end.

Fixpoint indexed {V} (o : object V) : list (N * (string * V)) :=
  match o with
  | [] => []
  | (k, v) :: o' =>
      match array_index k with
      | Some n => insert_by_index n (k, v) (indexed o')
      | None => indexed o'
      end
  end.

(** [Object.entries(o)]: array-index keys in ascending numeric order, then
    the other keys in creation order. *)
Definition entries {V} (o : object V) : list (string * V) :=
  map snd (indexed o) ++ List.filter (fun e => negb (is_index (fst e))) o.

(** [Object.keys(o)]. *)
Definition keys {V} (o : object V) : list string := map fst (entries o).

(** ** [Array.prototype.sort]

    The result of a comparator is a number or NaN, here [None].  The sort
    is stable: with comparator [cmp], [a] stays before [b] unless
    [cmp a b > 0], which NaN is not.  This is the order of every engine for
    a comparator that is consistent; for one that is not, the order is left
    to the engine. *)
Definition positive `{Number} (c : option num) : bool :=
  match c with
  | Some v => ltb zero v
  | None => false
  end.

Fixpoint sort_insert `{Number} {A} (cmp : A -> A -> option num) (x : A)
    (l : list A) : list A :=
  match l with
  | [] => [x]
  | y :: l' =>
      if positive (cmp x y) then y :: sort_insert cmp x l' else x :: l
  end.

Definition sort `{Number} {A} (cmp : A -> A -> option num) (l : list A)
    : list A :=
  fold_right (sort_insert cmp) [] l.

(** A list in which no element stands before one that belongs [above]
    it. *)
Definition ordered {A} (above : A -> A -> bool) : list A -> Prop :=
  StronglySorted (fun a b => above b a = false).

End JS.

(* ===================================================================== *)
(** * [FinanceApp] (webapp/js/app.js)                                     *)
(* ===================================================================== *)

Module FinanceApp.
Import JS.

Section App.
Context `{N : Number}.

(** A transaction as the statistics code reads it: [amount] is the value
    [parseFloat(transaction.amount)], [category_name] may be missing. *)
Record transaction := {
  type : string;
  amount : num;
  category_name : option string
}.

Record stats := {
  totalIncome : num;
  totalExpense : num;
  balance : num;
  count : nat;
  avgExpense : num;
  topCategory : string
}.

Definition is_income (t : transaction) : bool := String.eqb (type t) "income".
Definition is_expense (t : transaction) : bool := String.eqb (type t) "expense".

(** [transaction.category_name || 'Прочее'] *)
Definition categoryName (t : transaction) : string :=
  or_string (category_name t) "Прочее".

(** What a property of the totals object holds: a number, or text.  Text
    comes from a category named like a member of [Object.prototype]: the
    first read finds the member, a function, and [+] turns it and the
    amount into a string that begins with the source of the function.  Such
    a string does not read as a number: compared with a number it gives
    false, and subtracted it gives NaN. *)
Inductive total :=
  | Amount (n : num)
  | Text.

(** [totals[c]] for any name [c]: the own property, else the member of
    [Object.prototype] of that name, which [+] turns to text. *)
Definition read (totals : object total) (c : string) : option total :=
  match get totals c with
  | Some v => Some v
  | None => if inherited c then Some Text else None
  end.

(** [(v || 0) + amount] *)
Definition plus (v : option total) (a : num) : total :=
  match v with
  | Some (Amount n) => Amount (add (or_zero (Some n)) a)
  | Some Text => Text
  | None => Amount (add (or_zero None) a)
  end.

(** [totals[c] = (totals[c] || 0) + amount].  Assigning to ['__proto__']
    calls the setter of [Object.prototype], which ignores a string: no
    property is created. *)
Definition accumulate (totals : object total) (t : transaction)
    : object total :=
  let c := categoryName t in
  let v := plus (read totals c) (amount t) in
  if String.eqb c "__proto__" then totals else set totals c v.

(** The body of the [forEach] in [calculateStats], on the triple
    (totalIncome, totalExpense, categoryTotals). *)
Definition scan (acc : num * num * object total) (t : transaction)
    : num * num * object total :=
  let '(income, expense, categoryTotals) := acc in
  if is_income t then (add income (amount t), expense, categoryTotals)
  else (income, add expense (amount t), accumulate categoryTotals t).

(** The body of the search for the top category, on the pair
    (maxAmount, topCategory): [categoryTotals[category] > maxAmount]. *)
Definition pick (categoryTotals : object total) (acc : num * string)
    (category : string) : num * string :=
  match get categoryTotals category with
  | Some (Amount v) => if ltb (fst acc) v then (v, category) else acc
  | Some Text => acc
  | None => acc
  end.

Definition calculateStats (transactions : list transaction) : stats :=
  let '(income, expense, categoryTotals) :=
    fold_left scan transactions (zero, zero, ([] : object total)) in
  let expenseCount := length (List.filter is_expense transactions) in
  let top := fold_left (pick categoryTotals) (keys categoryTotals) (zero, "—") in
  {| totalIncome := income;
     totalExpense := expense;
     balance := sub income expense;
     count := length transactions;
     avgExpense :=
       if (0 <? expenseCount)%nat then div expense (of_nat expenseCount)
       else zero;
     topCategory := snd top |}.

(** The expense chart: the labels and the first dataset that
    [updateExpenseChart] assigns, and the number of [update()] calls. *)
Record chart := {
  labels : list string;
  data : list total;
  updates : nat
}.

(** [(a, b) => b[1] - a[1]]; with text on either side the difference is
    NaN. *)
Definition by_total_desc (a b : string * total) : option num :=
  match snd b, snd a with
  | Amount y, Amount x => Some (sub y x)
  | _, _ => None
  end.

(** [charts] holds the expense chart once it is initialised; without it
    the method warns and returns. *)
Definition updateExpenseChart (expense : option chart)
    (transactions : list transaction) : option chart :=
  match expense with
  | None => None
  | Some c =>
      let categoryData :=
        fold_left accumulate (List.filter is_expense transactions) [] in
      let sorted := firstn 8 (sort by_total_desc (entries categoryData)) in
      Some {| labels := map fst sorted;
              data := map snd sorted;
              updates := S (updates c) |}
  end.

End App.

Arguments transaction {N}.
Arguments stats {N}.
Arguments total {N}.
Arguments chart {N}.

End FinanceApp.

(* ===================================================================== *)
(** * The statistics in the words of the specification                   *)
(* ===================================================================== *)

(** Sums and groups as the specification speaks of them, written without
    the functions of the code. *)
Module Specification.
Import JS FinanceApp.

Section Stats.
Context `{N : Number}.

Definition income (t : transaction) : bool := String.eqb (type t) "income".

Definition expense (t : transaction) : bool := String.eqb (type t) "expense".

(** The transactions that are not of type 'income'. *)
Definition other (t : transaction) : bool := negb (income t).

(** The category a transaction counts under: its category name, and
    'Прочее' when it has none or an empty one. *)
Definition category (t : transaction) : string :=
  match category_name t with
  | Some (String a s) => String a s
  | Some EmptyString | None => "Прочее"
  end.

(** The amounts added in list order, starting from 0. *)
Definition sum (l : list num) : num := fold_left add l zero.

Definition amounts (p : transaction -> bool) (l : list transaction) : list num :=
  map amount (List.filter p l).

(** Among the transactions selected by [p]: the categories that occur,
    and the summed amount of one category. *)
Definition categories_of (p : transaction -> bool) (l : list transaction)
    : list string :=
  map category (List.filter p l).

Definition total_of (p : transaction -> bool) (c : string)
    (l : list transaction) : num :=
  sum (amounts (fun t => p t && String.eqb (category t) c) l).

(** The names that every object has from [Object.prototype]. *)
Definition members : list string :=
  ["constructor"; "__defineGetter__"; "__defineSetter__"; "hasOwnProperty";
   "__lookupGetter__"; "__lookupSetter__"; "isPrototypeOf";
   "propertyIsEnumerable"; "toString"; "valueOf"; "__proto__";
   "toLocaleString"].

(** A category that is not named like one of them. *)
Definition plain (c : string) : bool :=
  negb (existsb (String.eqb c) members).

End Stats.

End Specification.

(* ===================================================================== *)
(** * [API] helper methods (webapp/js/app.js)                            *)
(* ===================================================================== *)

Module API.
Import JS.

(** ** [formatDate] *)

(** A [Date] object as [formatDate] reads it: the local calendar fields
    returned by [getFullYear()], [getMonth()] and [getDate()].  The getters
    of an invalid date return [NaN]. *)
Inductive Date :=
  | InvalidDate
  | LocalDate (fullYear month date : Z).

Definition getFullYear (d : Date) : option Z :=
  match d with LocalDate y _ _ => Some y | InvalidDate => None end.
Definition getMonth (d : Date) : option Z :=
  match d with LocalDate _ m _ => Some m | InvalidDate => None end.
Definition getDate (d : Date) : option Z :=
  match d with LocalDate _ _ n => Some n | InvalidDate => None end.

(** The argument of [formatDate]: a string, a [Date], or any other value. *)
Inductive date_like :=
  | Str (s : string)
  | DateObj (d : Date)
  | Other.

Definition digit_char (d : N) : ascii := ascii_of_N (48 + d).

Fixpoint decimal (fuel : nat) (n : N) (acc : string) : string :=
  match fuel with
  | O => acc
  | S fuel' =>
      let acc' := String (digit_char (n mod 10)) acc in
      if (n <? 10)%N then acc' else decimal fuel' (n / 10) acc'
  end.

(** [String(x)] for an integer [x] (in magnitude below 10^21, where the
    decimal notation is used) or [NaN], written [None]. *)
Definition String_of_N (n : N) : string :=
  decimal (S (N.to_nat (N.log2 n))) n EmptyString.

Definition String_of (x : option Z) : string :=
  match x with
  | None => "NaN"
  | Some Z0 => "0"
  | Some (Zpos p) => String_of_N (Npos p)
  | Some (Zneg p) => String "-" (String_of_N (Npos p))
  end.

Fixpoint repeat_char (c : ascii) (n : nat) : string :=
  match n with
  | O => EmptyString
  | S n' => String c (repeat_char c n')
  end.

(** [s.padStart(targetLength, c)] for a one-character filler. *)
Definition padStart (s : string) (targetLength : nat) (c : ascii) : string :=
  String.append (repeat_char c (targetLength - String.length s)) s.

(** [`${year}-${month}-${day}`] from the local fields of [d]. *)
Definition year_month_day (d : Date) : string :=
  let year := String_of (getFullYear d) in
  let month := padStart (String_of (option_map (Z.add 1) (getMonth d))) 2 "0" in
  let day := padStart (String_of (getDate d)) 2 "0" in
  String.append year
    (String.append "-" (String.append month (String.append "-" day))).

(** [now] is the value of [new Date()] at the call. *)
Definition formatDate (now : Date) (date : date_like) : string :=
  match date with
  | Str s => s
  | DateObj d => year_month_day d
  | Other => year_month_day now
  end.

(** Reading back a string of the form YYYY-MM-DD: four digits, a dash, two
    digits, a dash, two digits. *)
Definition two_digits (a b : ascii) : option Z :=
  match digit a, digit b with
  | Some x, Some y => Some (Z.of_N (10 * x + y))
  | _, _ => None
  end.

Definition parse_ymd (s : string) : option (Z * Z * Z) :=
  match s with
  | String y1 (String y2 (String y3 (String y4 (String "-"
      (String m1 (String m2 (String "-"
        (String d1 (String d2 EmptyString))))))))) =>
      match two_digits y1 y2, two_digits y3 y4, two_digits m1 m2,
            two_digits d1 d2 with
      | Some a, Some b, Some m, Some d => Some ((100 * a + b)%Z, m, d)
      | _, _, _, _ => None
      end
  | _ => None
  end.

(** Checks that are run over a range of numbers. *)
Definition opt_Z_eqb (a : option Z) (b : Z) : bool :=
  match a with Some x => Z.eqb x b | None => false end.

(** A four-digit year prints as its four digits. *)
Definition year_prints (y : Z) : bool :=
  match String_of (Some y) with
  | String a (String b (String c (String d EmptyString))) =>
      opt_Z_eqb (two_digits a b) (y / 100)
      && opt_Z_eqb (two_digits c d) (y mod 100)
  | _ => false
  end.

(** A number below 100 pads to its two digits. *)
Definition pads (n : Z) : bool :=
  match padStart (String_of (Some n)) 2 "0" with
  | String a (String b EmptyString) => opt_Z_eqb (two_digits a b) n
  | _ => false
  end.

(** ** [validateTransaction] *)

Section Validation.
Context `{N : Number}.

(** The form data as [saveTransaction] builds it: strings for the type and
    the date, numbers for the amount and the category; [None] is a missing
    field. *)
Record transaction_data := {
  type : option string;
  amount : option num;
  category_id : option num;
  date : option string
}.

Record validation := {
  valid : bool;
  errors : list string
}.

(** The boolean a field converts to. *)
Definition string_truthy (s : option string) : bool :=
  match s with
  | Some (String _ _) => true
  | _ => false
  end.

Definition number_truthy (x : option num) : bool :=
  match x with
  | Some v => truthy v
  | None => false
  end.

(** [list.includes(x)] *)
Definition includes (l : list string) (x : option string) : bool :=
  match x with
  | Some s => existsb (String.eqb s) l
  | None => false
  end.

(** [x <= 0]: false when [x] is [undefined]. *)
Definition le_zero (x : option num) : bool :=
  match x with
  | Some v => leb v zero
  | None => false
  end.

(** [if (c) errors.push(message)] *)
Definition push_if (c : bool) (message : string) (errors : list string)
    : list string :=
  if c then errors ++ [message] else errors.

Definition validateTransaction (data : transaction_data) : validation :=
  let errors := [] in
  let errors :=
    push_if (negb (string_truthy (type data))
             || negb (includes ["income"; "expense"] (type data)))
            "Неверный тип транзакции" errors in
  let errors :=
    push_if (negb (number_truthy (amount data)) || le_zero (amount data))
            "Сумма должна быть больше нуля" errors in
  let errors :=
    push_if (negb (number_truthy (category_id data)))
            "Выберите категорию" errors in
  let errors :=
    push_if (negb (string_truthy (date data))) "Укажите дату" errors in
  {| valid := (length errors =? 0)%nat; errors := errors |}.

End Validation.

Arguments transaction_data {N}.

(** ** [retryRequest] *)

Section Retry.
(** [W] is the state of the world the request acts on, [A] the type of
    results and [E] the type of errors.  A call of [requestFn] either fails
    with an error or yields a result. *)
Context {W A E : Type}.

Inductive outcome :=
  | Returned (a : A)
  | Thrown (e : E)
  | ReturnedUndefined.

(** What can be observed of a run: the calls of [requestFn] and the
    timeouts awaited, with their delay in milliseconds. *)
Inductive event :=
  | Invoked
  | Waited (delay : Z).

(** The [for] loop from index [i] on; [fuel] bounds the iterations left. *)
Fixpoint retry_from (fuel : nat) (requestFn : W -> (E + A) * W)
    (maxRetries i delay : Z) (w : W) : outcome * list event * W :=
  match fuel with
  | O => (ReturnedUndefined, [], w)
  | S fuel' =>
      if (i <? maxRetries)%Z then
        let '(r, w1) := requestFn w in
        match r with
        | inr a => (Returned a, [Invoked], w1)
        | inl e =>
            if (i =? maxRetries - 1)%Z then (Thrown e, [Invoked], w1)
            else
              let '(o, trace, w2) :=
                retry_from fuel' requestFn maxRetries (i + 1) (delay * 2) w1 in
              (o, Invoked :: Waited delay :: trace, w2)
        end
      else (ReturnedUndefined, [], w)
  end.

Definition retryRequest (requestFn : W -> (E + A) * W)
    (maxRetries delay : Z) (w : W) : outcome * list event * W :=
  retry_from (Z.to_nat maxRetries) requestFn maxRetries 0 delay w.

(** The first [n] calls of [requestFn] in a row: their results, and the
    state they leave. *)
Fixpoint calls (requestFn : W -> (E + A) * W) (n : nat) (w : W)
    : list (E + A) * W :=
  match n with
  | O => ([], w)
  | S n' =>
      let '(r, w1) := requestFn w in
      let '(rs, w2) := calls requestFn n' w1 in
      (r :: rs, w2)
  end.

Definition failed (r : E + A) : bool :=
  match r with inl _ => true | inr _ => false end.

(** [k] attempts under exponential backoff: after attempt [j], for
    [j = 1 .. k - 1], a wait of [delay * 2^(j-1)] milliseconds. *)
Definition backoff (delay : Z) (k : nat) : list event :=
  flat_map (fun j => [Invoked; Waited (delay * 2 ^ Z.of_nat j)]) (seq 0 (k - 1))
  ++ [Invoked].

(** The number of calls of [requestFn] in a trace. *)
Definition invocations (trace : list event) : nat :=
  length (List.filter (fun e => match e with Invoked => true | _ => false end)
                      trace).

End Retry.

Arguments outcome : clear implicits.

End API.

(* ===================================================================== *)
(** * [TelegramWebApp] (webapp/js/telegram.js)                           *)
(* ===================================================================== *)

Module TelegramWebApp.

(** How a call ends. *)
Inductive completion :=
  | Normal
  | Throws.

Section Adapter.
(** The functions that callers pass as callbacks. *)
Variable callback : Type.

(** The host bridge [window.Telegram.WebApp]: for each method it provides,
    how a call with the given message ends. *)
Record WebApp := {
  tg_showAlert : option (string -> completion);
  tg_showConfirm : option (string -> completion)
}.

(** What the adapter does, in order. *)
Inductive event :=
  | BridgeShowAlert (message : string) (cb : option callback)
  | BridgeShowConfirm (message : string) (cb : option callback)
  | BrowserAlert (message : string)
  | BrowserConfirm (message : string)
  | Called (cb : callback) (argument : option bool)
  | ConsoleError.

(** The environment: how a call of a callback ends, and what the user
    answers to the browser's [confirm]. *)
Variable invoke : callback -> option bool -> completion.
Variable confirm : string -> bool.

(** A block of statements: the events up to its end or to the exception
    that leaves it. *)
Definition block := (list event * completion)%type.

Definition skip : block := ([], Normal).
Definition emit (e : event) : block := ([e], Normal).

Definition andThen (b1 b2 : block) : block :=
  match b1 with
  | (t1, Normal) => ((t1 ++ fst b2)%list, snd b2)
  | (t1, Throws) => (t1, Throws)
  end.

(** [try { b } catch (error) { handler }] *)
Definition tryCatch (b handler : block) : block :=
  match b with
  | (t, Normal) => (t, Normal)
  | (t, Throws) => ((t ++ fst handler)%list, snd handler)
  end.

(** [if (callback) callback(argument)] *)
Definition callIf (cb : option callback) (argument : option bool) : block :=
  match cb with
  | Some f => ([Called f argument], invoke f argument)
  | None => skip
  end.

(** [this.tg?.method] *)
Definition method {M} (tg : option WebApp) (m : WebApp -> option M) : option M :=
  match tg with
  | Some bridge => m bridge
  | None => None
  end.

Definition alertFallback (message : string) (cb : option callback) : block :=
  andThen (emit (BrowserAlert message)) (callIf cb None).

Definition showAlert (tg : option WebApp) (message : string)
    (cb : option callback) : block :=
  tryCatch
    (match method tg tg_showAlert with
     | Some f => ([BridgeShowAlert message cb], f message)
     | None => alertFallback message cb
     end)
    (andThen (emit ConsoleError) (alertFallback message cb)).

Definition confirmFallback (message : string) (cb : option callback) : block :=
  andThen (emit (BrowserConfirm message)) (callIf cb (Some (confirm message))).

Definition showConfirm (tg : option WebApp) (message : string)
    (cb : option callback) : block :=
  tryCatch
    (match method tg tg_showConfirm with
     | Some f => ([BridgeShowConfirm message cb], f message)
     | None => confirmFallback message cb
     end)
    (andThen (emit ConsoleError) (confirmFallback message cb)).

End Adapter.

Arguments BridgeShowAlert {callback}.
Arguments BridgeShowConfirm {callback}.
Arguments BrowserAlert {callback}.
Arguments BrowserConfirm {callback}.
Arguments Called {callback}.
Arguments ConsoleError {callback}.
Arguments skip {callback}.
Arguments emit {callback}.
Arguments andThen {callback}.
Arguments tryCatch {callback}.
Arguments callIf {callback}.
Arguments alertFallback {callback}.
Arguments confirmFallback {callback}.
Arguments showAlert {callback}.
Arguments showConfirm {callback}.

End TelegramWebApp.

(* ===================================================================== *)
(** * The database schema (database/schema.sql)                          *)
(* ===================================================================== *)

Module Schema.

(** ** Data definition statements *)

Inductive sqltype :=
  | SERIAL
  | BIGINT
  | INTEGER
  | VARCHAR (n : nat)
  | TEXT
  | BOOLEAN
  | DECIMAL (precision scale : nat)
  | DATE
  | TIMESTAMP.

(** The expressions that occur as defaults and in the trigger function. *)
Inductive expr :=
  | NOW
  | TRUE.

(** [CHECK (column IN (...))] and [CHECK (column > bound)]. *)
Inductive check_expr :=
  | IN (values : list string)
  | GT (bound : Z).

Inductive action :=
  | CASCADE
  | SET_NULL.

Record reference := {
  ref_table : string;
  ref_column : string;
  on_delete : action
}.

Record column := {
  col_name : string;
  col_type : sqltype;
  col_primary_key : bool;
  col_unique : bool;
  col_not_null : bool;
  col_default : option expr;
  col_check : option check_expr;
  col_references : option reference
}.

Record table := {
  tbl_name : string;
  tbl_columns : list column
}.

Inductive direction :=
  | ASC
  | DESC.

Record index := {
  idx_name : string;
  idx_table : string;
  idx_columns : list (string * direction)
}.

(** A trigger function whose body assigns to fields of [NEW] and returns
    [NEW]. *)
Record function := {
  fn_name : string;
  fn_assigns : list (string * expr)
}.

(** [CREATE TRIGGER name BEFORE UPDATE ON table FOR EACH ROW
     EXECUTE FUNCTION f()]. *)
Record trigger := {
  trg_name : string;
  trg_table : string;
  trg_function : string
}.

Record schema := {
  tables : list table;
  indexes : list index;
  functions : list function;
  triggers : list trigger
}.

(** Column definitions are written as in SQL: a name and a type, followed
    by the constraints. *)
Definition col (name : string) (type : sqltype) : column :=
  {| col_name := name; col_type := type; col_primary_key := false;
     col_unique := false; col_not_null := false; col_default := None;
     col_check := None; col_references := None |}.

Definition PRIMARY_KEY (c : column) : column :=
  {| col_name := col_name c; col_type := col_type c; col_primary_key := true;
     col_unique := col_unique c; col_not_null := col_not_null c;
     col_default := col_default c; col_check := col_check c;
     col_references := col_references c |}.

Definition UNIQUE (c : column) : column :=
  {| col_name := col_name c; col_type := col_type c;
     col_primary_key := col_primary_key c; col_unique := true;
     col_not_null := col_not_null c; col_default := col_default c;
     col_check := col_check c; col_references := col_references c |}.

Definition NOT_NULL (c : column) : column :=
  {| col_name := col_name c; col_type := col_type c;
     col_primary_key := col_primary_key c; col_unique := col_unique c;
     col_not_null := true; col_default := col_default c;
     col_check := col_check c; col_references := col_references c |}.

Definition DEFAULT (e : expr) (c : column) : column :=
  {| col_name := col_name c; col_type := col_type c;
     col_primary_key := col_primary_key c; col_unique := col_unique c;
     col_not_null := col_not_null c; col_default := Some e;
     col_check := col_check c; col_references := col_references c |}.

Definition CHECK (k : check_expr) (c : column) : column :=
  {| col_name := col_name c; col_type := col_type c;
     col_primary_key := col_primary_key c; col_unique := col_unique c;
     col_not_null := col_not_null c; col_default := col_default c;
     col_check := Some k; col_references := col_references c |}.

Definition REFERENCES (t c' : string) (a : action) (c : column) : column :=
  {| col_name := col_name c; col_type := col_type c;
     col_primary_key := col_primary_key c; col_unique := col_unique c;
     col_not_null := col_not_null c; col_default := col_default c;
     col_check := col_check c;
     col_references :=
       Some {| ref_table := t; ref_column := c'; on_delete := a |} |}.

(** ** The schema of the repository *)

Definition users : table :=
  {| tbl_name := "users";
     tbl_columns :=
       [ PRIMARY_KEY (col "id" SERIAL);
         NOT_NULL (UNIQUE (col "telegram_user_id" BIGINT));
         col "username" (VARCHAR 255);
         col "first_name" (VARCHAR 255);
         col "last_name" (VARCHAR 255);
         DEFAULT NOW (col "created_at" TIMESTAMP);
         DEFAULT NOW (col "updated_at" TIMESTAMP) ] |}.

Definition categories : table :=
  {| tbl_name := "categories";
     tbl_columns :=
       [ PRIMARY_KEY (col "id" SERIAL);
         UNIQUE (NOT_NULL (col "name" (VARCHAR 100)));
         NOT_NULL (col "icon" (VARCHAR 10));
         CHECK (IN ["income"; "expense"]) (NOT_NULL (col "type" (VARCHAR 20)));
         DEFAULT TRUE (col "is_active" BOOLEAN) ] |}.

Definition transactions : table :=
  {| tbl_name := "transactions";
     tbl_columns :=
       [ PRIMARY_KEY (col "id" SERIAL);
         REFERENCES "users" "id" CASCADE (NOT_NULL (col "user_id" INTEGER));
         CHECK (IN ["income"; "expense"]) (NOT_NULL (col "type" (VARCHAR 20)));
         CHECK (GT 0) (NOT_NULL (col "amount" (DECIMAL 12 2)));
         REFERENCES "categories" "id" SET_NULL (col "category_id" INTEGER);
         col "description" TEXT;
         NOT_NULL (col "transaction_date" DATE);
         DEFAULT NOW (col "created_at" TIMESTAMP);
         DEFAULT NOW (col "updated_at" TIMESTAMP) ] |}.

Definition on (t : string) (name : string) (columns : list (string * direction))
    : index :=
  {| idx_name := name; idx_table := t; idx_columns := columns |}.

Definition update_updated_at_column : function :=
  {| fn_name := "update_updated_at_column";
     fn_assigns := [("updated_at", NOW)] |}.

Definition finance : schema :=
  {| tables := [users; categories; transactions];
     indexes :=
       [ on "users" "idx_users_telegram_id" [("telegram_user_id", ASC)];
         on "users" "idx_users_created_at" [("created_at", ASC)];
         on "categories" "idx_categories_type" [("type", ASC)];
         on "categories" "idx_categories_active" [("is_active", ASC)];
         on "transactions" "idx_transactions_user_id" [("user_id", ASC)];
         on "transactions" "idx_transactions_user_date"
            [("user_id", ASC); ("transaction_date", DESC)];
         on "transactions" "idx_transactions_user_category"
            [("user_id", ASC); ("category_id", ASC)];
         on "transactions" "idx_transactions_type" [("type", ASC)];
         on "transactions" "idx_transactions_date" [("transaction_date", ASC)];
         on "transactions" "idx_transactions_created_at" [("created_at", ASC)];
         on "transactions" "idx_transactions_user_type_date"
            [("user_id", ASC); ("type", ASC); ("transaction_date", DESC)] ];
     functions := [update_updated_at_column];
     triggers :=
       [ {| trg_name := "update_users_updated_at"; trg_table := "users";
            trg_function := "update_updated_at_column" |};
         {| trg_name := "update_transactions_updated_at";
            trg_table := "transactions";
            trg_function := "update_updated_at_column" |} ] |}.

(** What the claims about the shape of the schema read off it. *)
Definition is_serial (t : sqltype) : bool :=
  match t with SERIAL => true | _ => false end.

Definition generated_key (c : column) : bool :=
  String.eqb (col_name c) "id" && is_serial (col_type c) && col_primary_key c.

Definition primary_keys (t : table) : list column :=
  List.filter col_primary_key (tbl_columns t).

Definition indexes_on (s : schema) (t : table) : list index :=
  List.filter (fun i => String.eqb (idx_table i) (tbl_name t)) (indexes s).

Definition find_table (s : schema) (name : string) : option table :=
  List.find (fun t => String.eqb (tbl_name t) name) (tables s).

End Schema.

(* ===================================================================== *)
(** * Rows, constraints and statements                                   *)
(* ===================================================================== *)

(** The meaning PostgreSQL gives to the declarations of a schema: which
    rows a table accepts, and what [INSERT] and [UPDATE] do.  [DELETE] is
    treated apart, in [Deletion]. *)
Module Database.
Import Schema.

(** A [Decimal] holds the number scaled by ten to the column's scale, a
    [Date] a day number, a [Timestamp] an instant. *)
Inductive value :=
  | NULL
  | Int (z : Z)
  | Text (s : string)
  | Bool (b : bool)
  | Decimal (units : Z)
  | Date (day : Z)
  | Timestamp (at_ : Z).

Definition value_eqb (a b : value) : bool :=
  match a, b with
  | NULL, NULL => true
  | Int x, Int y => Z.eqb x y
  | Text x, Text y => String.eqb x y
  | Bool x, Bool y => Bool.eqb x y
  | Decimal x, Decimal y => Z.eqb x y
  | Date x, Date y => Z.eqb x y
  | Timestamp x, Timestamp y => Z.eqb x y
  | _, _ => false
  end.

Definition is_null (v : value) : bool :=
  match v with NULL => true | _ => false end.

(** A row maps column names to values. *)
Abbreviation row := (gmap string value).

Definition cell (r : row) (c : string) : value := default NULL (r !! c).

(** The contents of the tables, and the last value of each sequence. *)
Record db := {
  rows : gmap string (list row);
  sequences : gmap string Z
}.

Definition empty : db := {| rows := ∅; sequences := ∅ |}.

Definition table_rows (d : db) (t : string) : list row :=
  default [] (rows d !! t).

Definition set_rows (d : db) (t : string) (l : list row) : db :=
  {| rows := <[t := l]> (rows d); sequences := sequences d |}.

(** ** Constraints *)

(** The number of characters of a string held as UTF-8 bytes. *)
Fixpoint characters (s : string) : nat :=
  match s with
  | EmptyString => 0
  | String a s' =>
      if (N.land (N_of_ascii a) 192 =? 128)%N then characters s'
      else S (characters s')
  end.

Definition within (lo hi z : Z) : bool := (lo <=? z)%Z && (z <? hi)%Z.

(** The values a column of a type holds; [NULL] is of every type. *)
Definition has_type (t : sqltype) (v : value) : bool :=
  match v, t with
  | NULL, _ => true
  | Int z, (SERIAL | INTEGER) => within (- 2 ^ 31) (2 ^ 31) z
  | Int z, BIGINT => within (- 2 ^ 63) (2 ^ 63) z
  | Text s, VARCHAR n => (characters s <=? n)%nat
  | Text _, TEXT => true
  | Bool _, BOOLEAN => true
  | Decimal u, DECIMAL p _ => within (- 10 ^ Z.of_nat p + 1) (10 ^ Z.of_nat p) u
  | Date _, DATE => true
  | Timestamp _, TIMESTAMP => true
  | _, _ => false
  end.

(** [NOT NULL], which [PRIMARY KEY] and [SERIAL] imply. *)
Definition required (c : column) : bool :=
  col_not_null c || col_primary_key c || is_serial (col_type c).

Definition scale_of (t : sqltype) : nat :=
  match t with DECIMAL _ s => s | _ => 0 end.

(** A [CHECK] constraint is satisfied when its condition is true or
    unknown, as it is for [NULL]. *)
Definition check_holds (c : column) (v : value) : bool :=
  match col_check c, v with
  | None, _ => true
  | Some _, NULL => true
  | Some (IN l), Text s => existsb (String.eqb s) l
  | Some (GT b), Int z => (b <? z)%Z
  | Some (GT b), Decimal u => (b * 10 ^ Z.of_nat (scale_of (col_type c)) <? u)%Z
  | Some _, _ => false
  end.

(** A foreign key is [NULL] or the key of a row of the referenced table. *)
Definition referenced (d : db) (ref : reference) (v : value) : bool :=
  is_null v
  || existsb (fun r => value_eqb (cell r (ref_column ref)) v)
             (table_rows d (ref_table ref)).

Definition reference_holds (d : db) (c : column) (v : value) : bool :=
  match col_references c with
  | Some ref => referenced d ref v
  | None => true
  end.

Definition column_holds (d : db) (c : column) (v : value) : bool :=
  has_type (col_type c) v
  && negb (required c && is_null v)
  && check_holds c v
  && reference_holds d c v.

Definition row_holds (d : db) (t : table) (r : row) : bool :=
  forallb (fun c => column_holds d c (cell r (col_name c))) (tbl_columns t).

(** [UNIQUE] and [PRIMARY KEY]: no two rows with the same value, [NULL]
    apart. *)
Fixpoint distinct (l : list value) : bool :=
  match l with
  | [] => true
  | v :: l' => (is_null v || negb (existsb (value_eqb v) l')) && distinct l'
  end.

Definition unique_holds (t : table) (l : list row) : bool :=
  forallb (fun c =>
             negb (col_unique c || col_primary_key c)
             || distinct (map (fun r => cell r (col_name c)) l))
          (tbl_columns t).

(** The foreign keys that point at table [t] still find their rows. *)
Definition references_to (s : schema) (d : db) (t : string) : bool :=
  forallb (fun t' =>
     forallb (fun c =>
        match col_references c with
        | Some ref =>
            negb (String.eqb (ref_table ref) t)
            || forallb (fun r => referenced d ref (cell r (col_name c)))
                       (table_rows d (tbl_name t'))
        | None => true
        end) (tbl_columns t')) (tables s).

Definition has_column (t : table) (c : string) : bool :=
  existsb (fun c' => String.eqb (col_name c') c) (tbl_columns t).

(** ** Statements *)

Definition eval (now : Z) (e : expr) : value :=
  match e with
  | NOW => Timestamp now
  | TRUE => Bool true
  end.

Definition sequence_name (t c : string) : string :=
  String.append t (String.append "_" (String.append c "_seq")).

(** The row an [INSERT] builds: the values given, and for each other
    column its default.  A [SERIAL] column draws the next value of its
    sequence. *)
Definition fill (now : Z) (t : string) (given : row)
    (acc : row * gmap string Z) (c : column) : row * gmap string Z :=
  let '(r, seqs) := acc in
  match given !! col_name c with
  | Some v => (<[col_name c := v]> r, seqs)
  | None =>
      if is_serial (col_type c) then
        let name := sequence_name t (col_name c) in
        let next := (default 0 (seqs !! name) + 1)%Z in
        (<[col_name c := Int next]> r, <[name := next]> seqs)
      else
        match col_default c with
        | Some e => (<[col_name c := eval now e]> r, seqs)
        | None => (<[col_name c := NULL]> r, seqs)
        end
  end.

(** The [SET] clause, every expression read on the old row. *)
Definition assign (set : list (string * (row -> value))) (old : row) : row :=
  fold_left (fun r '(c, e) => <[c := e old]> r) set old.

(** The [BEFORE UPDATE] triggers of a table, applied to [NEW]. *)
Definition call (s : schema) (now : Z) (f : string) (new : row) : row :=
  match List.find (fun fn => String.eqb (fn_name fn) f) (functions s) with
  | Some fn => fold_left (fun r '(c, e) => <[c := eval now e]> r)
                         (fn_assigns fn) new
  | None => new
  end.

Definition before_update (s : schema) (now : Z) (t : string) (new : row) : row :=
  fold_left (fun r trg =>
               if String.eqb (trg_table trg) t
               then call s now (trg_function trg) r else r)
            (triggers s) new.

Inductive statement :=
  | INSERT (t : string) (given : row)
  | UPDATE (t : string) (set : list (string * (row -> value)))
           (where_ : row -> bool).

(** The row that [UPDATE] stores in place of [old]. *)
Definition updated (s : schema) (now : Z) (t : string)
    (set : list (string * (row -> value))) (old : row) : row :=
  before_update s now t (assign set old).

(** A statement is carried out as a whole or rejected; a rejected statement
    leaves the rows as they were.  [now] is the time of the statement. *)
Definition exec (s : schema) (now : Z) (st : statement) (d : db) : bool * db :=
  match st with
  | INSERT t given =>
      match find_table s t with
      | None => (false, d)
      | Some tbl =>
          if forallb (has_column tbl) (map fst (map_to_list given)) then
            let '(r, seqs) :=
              fold_left (fill now t given) (tbl_columns tbl) (∅, sequences d) in
            let drawn := {| rows := rows d; sequences := seqs |} in
            let l := (table_rows d t ++ [r])%list in
            let d' := set_rows drawn t l in
            if row_holds d' tbl r && unique_holds tbl l then (true, d')
            else (false, drawn)
          else (false, d)
      end
  | UPDATE t set where_ =>
      match find_table s t with
      | None => (false, d)
      | Some tbl =>
          if forallb (has_column tbl) (map fst set) then
            let old := table_rows d t in
            let l := map (fun r => if where_ r then updated s now t set r
                                   else r) old in
            let d' := set_rows d t l in
            if forallb (fun r => row_holds d' tbl (updated s now t set r))
                       (List.filter where_ old)
               && unique_holds tbl l
               && references_to s d' t
            then (true, d')
            else (false, d)
          else (false, d)
      end
  end.

(** A sequence of statements, each with its time, from left to right;
    rejected statements are skipped. *)
Definition run (s : schema) (l : list (Z * statement)) (d : db) : db :=
  fold_left (fun d '(now, st) => snd (exec s now st d)) l d.

(** The rows of every table satisfy the column constraints of the table. *)
Definition consistent (s : schema) (d : db) : Prop :=
  forall t r, In t (tables s) -> In r (table_rows d (tbl_name t)) ->
              row_holds d t r = true.

End Database.

(* ===================================================================== *)
(** * Sample inputs                                                      *)
(* ===================================================================== *)

Module Examples.
Import JS FinanceApp.

Definition tx (type : string) (amount : Z) (category_name : option string)
    : @transaction Z_Number :=
  {| type := type; amount := amount; category_name := category_name |}.

(** A month of transactions, amounts in whole rubles. *)
Definition march : list (@transaction Z_Number) :=
  [ tx "income" 90000 (Some "Зарплата");
    tx "expense" 1200 (Some "Продукты");
    tx "expense" 450 None;
    tx "expense" 800 (Some "Транспорт");
    tx "expense" 2300 (Some "Продукты");
    tx "income" 5000 (Some "Фриланс/Подработка") ].

(** An expense of amount zero, and a transaction that is neither an income
    nor an expense. *)
Definition free_lunch : list (@transaction Z_Number) :=
  [ tx "expense" 0 (Some "Продукты") ].

Definition transfer : list (@transaction Z_Number) :=
  [ tx "transfer" 500 (Some "Вклад") ].

Definition empty_chart : @chart Z_Number :=
  {| labels := []; data := []; updates := 0 |}.

(** Expenses in categories named like members of [Object.prototype]. *)
Definition proto : list (@transaction Z_Number) :=
  [ tx "expense" 5 (Some "__proto__") ].

Definition member : list (@transaction Z_Number) :=
  [ tx "expense" 5 (Some "toString") ].

(** Two expenses, the first with an amount that [parseFloat] does not
    read. *)
Definition stray : list (@transaction Double) :=
  [ {| type := "expense"; amount := NaN; category_name := Some "Еда" |};
    {| type := "expense"; amount := @of_nat Double 5;
       category_name := Some "Еда" |} ].

(** A bridge that provides [showAlert] and no [showConfirm]. *)
Definition alert_only : TelegramWebApp.WebApp :=
  {| TelegramWebApp.tg_showAlert := Some (fun _ => TelegramWebApp.Normal);
     TelegramWebApp.tg_showConfirm := None |}.

(** A request that times out twice and then succeeds; the state counts
    the calls made. *)
Definition flaky (calls_made : nat) : (string + string) * nat :=
  (if (calls_made <? 2)%nat then inl "timeout" else inr "ok", S calls_made).

(** A complete form, with the amount in kopecks. *)
Definition lunch : @API.transaction_data Z_Number :=
  {| API.type := Some "expense";
     API.amount := Some 45000%Z;
     API.category_id := Some 1%Z;
     API.date := Some "2025-03-14" |}.

Definition pi_day : API.Date := API.LocalDate 2025 2 14.

(** A user and one of her expenses, 450.00 rubles, as [INSERT]s give
    them. *)
Definition anna : gmap string Database.value :=
  list_to_map [("telegram_user_id", Database.Int 4242);
               ("username", Database.Text "anna")].

Definition expense_of (user_id units : Z) : gmap string Database.value :=
  list_to_map [("user_id", Database.Int user_id);
               ("type", Database.Text "expense");
               ("amount", Database.Decimal units);
               ("transaction_date", Database.Date 20161)].

Definition ledger : Database.db :=
  Database.run Schema.finance
    [(100%Z, Database.INSERT "users" anna);
     (101%Z, Database.INSERT "transactions" (expense_of 1 45000))]
    Database.empty.

(** [UPDATE transactions SET description = 'обед'] *)
Definition describe : Database.statement :=
  Database.UPDATE "transactions"
    [("description", fun _ => Database.Text "обед")] (fun _ => true).

(** [UPDATE transactions SET amount = - amount] *)
Definition negate : Database.statement :=
  Database.UPDATE "transactions"
    [("amount", fun old => match Database.cell old "amount" with
                           | Database.Decimal u => Database.Decimal (- u)
                           | v => v
                           end)]
    (fun _ => true).

End Examples.

(* ===================================================================== *)
(** * The seed migration (database/migrations/002_seed_categories.sql)   *)
(* ===================================================================== *)

Module Migrations.
Import Schema Database.

(** The row an [INSERT] builds and the sequences after it has drawn its
    defaults, as in [exec]. *)
Definition built (s : schema) (now : Z) (t : string) (given : row) (d : db)
    : option (row * gmap string Z) :=
  match find_table s t with
  | Some tbl =>
      Some (fold_left (fill now t given) (tbl_columns tbl) (∅, sequences d))
  | None => None
  end.

(** The value an [INSERT] stores in column [c]: the one given, or the next
    value of the sequence of a SERIAL column, or the default. *)
Definition filled (now : Z) (t : string) (given : row) (seqs : gmap string Z)
    (c : column) : value :=
  match given !! col_name c with
  | Some v => v
  | None =>
      if is_serial (col_type c)
      then Int (default 0 (seqs !! sequence_name t (col_name c)) + 1)%Z
      else match col_default c with
           | Some e => eval now e
           | None => NULL
           end
  end.

(** The constraints of a row that do not look at other rows. *)
Definition column_local (c : column) (v : value) : bool :=
  has_type (col_type c) v
  && negb (required c && is_null v)
  && check_holds c v.

Definition row_local (t : table) (r : row) : bool :=
  forallb (fun c => column_local c (cell r (col_name c))) (tbl_columns t).

(** A row of [t] already holds the value [v] in column [c]. *)
Definition conflicts (d : db) (t c : string) (v : value) : bool :=
  negb (is_null v)
  && existsb (fun r => value_eqb (cell r c) v) (table_rows d t).

(** One row of [INSERT INTO t ... ON CONFLICT (c) DO NOTHING]: the row is
    built, drawing its defaults, and checked by itself; it is skipped when
    its value of [c] is taken, and inserted otherwise.  [None] is the
    statement aborted by an error. *)
Definition insert_do_nothing (s : schema) (now : Z) (t c : string)
    (acc : option db) (given : row) : option db :=
  match acc with
  | None => None
  | Some d =>
      match find_table s t, built s now t given d with
      | Some tbl, Some (r, seqs) =>
          if forallb (has_column tbl) (map fst (map_to_list given))
             && row_local tbl r
          then
            if conflicts d t c (cell r c)
            then Some {| rows := rows d; sequences := seqs |}
            else
              match exec s now (INSERT t given) d with
              | (true, d') => Some d'
              | (false, _) => None
              end
          else None
      | _, _ => None
      end
  end.

Definition insert_all_do_nothing (s : schema) (now : Z) (t c : string)
    (values : list row) (d : db) : option db :=
  fold_left (insert_do_nothing s now t c) values (Some d).

(** [INSERT INTO categories (name, icon, type) VALUES ...] *)
Definition seed (name icon type : string) : row :=
  list_to_map [("name", Text name); ("icon", Text icon); ("type", Text type)].

Definition expense_categories : list row :=
  [ seed "Продукты" "🍔" "expense";
    seed "Рестораны и кафе" "🍕" "expense";
    seed "Транспорт" "🚗" "expense";
    seed "Топливо" "⛽" "expense";
    seed "Жилье" "🏠" "expense";
    seed "Покупки" "🛒" "expense";
    seed "Здоровье и аптека" "💊" "expense";
    seed "Образование" "🎓" "expense";
    seed "Развлечения" "🎮" "expense";
    seed "Связь и интернет" "📱" "expense";
    seed "Спорт и фитнес" "🏋️" "expense";
    seed "Путешествия" "✈️" "expense";
    seed "Подарки" "🎁" "expense";
    seed "Красота и уход" "💇" "expense";
    seed "Прочее" "❓" "expense" ].

Definition income_categories : list row :=
  [ seed "Зарплата" "💰" "income";
    seed "Фриланс/Подработка" "💼" "income";
    seed "Подарки/Возвраты" "🎁" "income";
    seed "Инвестиции" "📈" "income";
    seed "Другие доходы" "❓" "income" ].

(** The two statements of the migration, in order. *)
Definition seed_categories (now : Z) (d : db) : option db :=
  match insert_all_do_nothing finance now "categories" "name"
          expense_categories d with
  | Some d1 =>
      insert_all_do_nothing finance now "categories" "name"
        income_categories d1
  | None => None
  end.

(** The last value drawn for the ids of categories. *)
Definition categories_id_seq (d : db) : Z :=
  default 0%Z (sequences d !! sequence_name "categories" "id").

(** A row of values that the columns name, icon and type accept. *)
Definition seed_fits (name icon type : string) : bool :=
  (characters name <=? 100)%nat && (characters icon <=? 10)%nat
  && (characters type <=? 20)%nat
  && existsb (String.eqb type) ["income"; "expense"].

Definition seedlike (g : row) : Prop :=
  exists name icon type,
    g = seed name icon type /\ seed_fits name icon type = true.

(** [FinanceApp.getFallbackCategories] (webapp/js/app.js): the categories
    the client uses when it cannot load them. *)
Record category := {
  id : Z;
  name : string;
  icon : string;
  type : string
}.

Definition getFallbackCategories : list category :=
  [ {| id := 1; name := "Продукты"; icon := "🍔"; type := "expense" |};
    {| id := 2; name := "Рестораны и кафе"; icon := "🍕"; type := "expense" |};
    {| id := 3; name := "Транспорт"; icon := "🚗"; type := "expense" |};
    {| id := 4; name := "Топливо"; icon := "⛽"; type := "expense" |};
    {| id := 5; name := "Жилье"; icon := "🏠"; type := "expense" |};
    {| id := 6; name := "Покупки"; icon := "🛒"; type := "expense" |};
    {| id := 7; name := "Здоровье и аптека"; icon := "💊"; type := "expense" |};
    {| id := 8; name := "Образование"; icon := "🎓"; type := "expense" |};
    {| id := 9; name := "Развлечения"; icon := "🎮"; type := "expense" |};
    {| id := 10; name := "Связь и интернет"; icon := "📱"; type := "expense" |};
    {| id := 11; name := "Спорт и фитнес"; icon := "🏋️"; type := "expense" |};
    {| id := 12; name := "Путешествия"; icon := "✈️"; type := "expense" |};
    {| id := 13; name := "Подарки"; icon := "🎁"; type := "expense" |};
    {| id := 14; name := "Красота и уход"; icon := "💇"; type := "expense" |};
    {| id := 15; name := "Прочее"; icon := "❓"; type := "expense" |};
    {| id := 16; name := "Зарплата"; icon := "💰"; type := "income" |};
    {| id := 17; name := "Фриланс/Подработка"; icon := "💼"; type := "income" |};
    {| id := 18; name := "Подарки/Возвраты"; icon := "🎁"; type := "income" |};
    {| id := 19; name := "Инвестиции"; icon := "📈"; type := "income" |};
    {| id := 20; name := "Другие доходы"; icon := "❓"; type := "income" |} ].

(** A row of categories as the client reads it. *)
Definition as_category (r : row) : option category :=
  match cell r "id", cell r "name", cell r "icon", cell r "type" with
  | Int i, Text n, Text ic, Text ty =>
      Some {| id := i; name := n; icon := ic; type := ty |}
  | _, _, _, _ => None
  end.

(** In every table, primary keys and unique columns hold distinct
    values. *)
Definition keys_distinct (s : schema) (d : db) : Prop :=
  forall t, In t (tables s) ->
            unique_holds t (table_rows d (tbl_name t)) = true.

(** Two users join, and the first records an expense. *)
Definition user (telegram_user_id : Z) (username : string) : row :=
  list_to_map [("telegram_user_id", Int telegram_user_id);
               ("username", Text username)].

Definition two_users : list (Z * statement) :=
  [ (100%Z, INSERT "users" (user 4242 "anna"));
    (105%Z, INSERT "users" (user 4343 "boris"));
    (110%Z, INSERT "transactions"
              (list_to_map [("user_id", Int 1); ("type", Text "expense");
                            ("amount", Decimal 45000);
                            ("transaction_date", Date 20161)])) ].

End Migrations.

(* ===================================================================== *)
(** * More of the [API] client (webapp/js/app.js)                        *)
(* ===================================================================== *)

Module APIClient.
Import JS API.

(** ** Waiting in [retryRequest] *)

(** The time spent in timeouts along a trace, in milliseconds. *)
Definition waited (trace : list event) : Z :=
  fold_right (fun e acc => match e with
                           | Waited delay => (delay + acc)%Z
                           | Invoked => acc
                           end) 0%Z trace.

(** ** [handleError] *)

(** The body of an error response as [response.json()] gives it: not JSON
    at all (the promise rejects), [null], an object whose [message] and
    [error] fields are strings or missing, or another JSON value, on which
    both fields read as [undefined]. *)
Inductive body :=
  | NotJSON
  | JSONNull
  | JSONObject (message error : option string)
  | JSONOther.

Record response := {
  status : Z;
  statusText : string;
  json : body
}.

(** An [Error] with the [status] that [handleError] adds. *)
Record error := {
  error_message : string;
  error_status : Z
}.

Definition defaultMessage : string :=
  "Произошла ошибка при выполнении запроса".

(** [a || b] on strings, [None] being [undefined]. *)
Definition or_else (a : option string) (b : string) : string :=
  or_string a b.

Definition handleError (r : response) : error :=
  let errorMessage :=
    match json r with
    | JSONObject message error =>
        (* errorData.message || errorData.error || errorMessage *)
        or_else message (or_else error defaultMessage)
    | JSONOther => defaultMessage
    | JSONNull | NotJSON =>
        (* reading a field of null throws like a failed parse *)
        or_else (Some (statusText r)) defaultMessage
    end in
  {| error_message := errorMessage; error_status := status r |}.

(** ** [get]: the query string *)

(** [list.join(separator)] *)
Fixpoint join (separator : string) (l : list string) : string :=
  match l with
  | [] => EmptyString
  | [x] => x
  | x :: l' => String.append x (String.append separator (join separator l'))
  end.

Definition newline : string := String (ascii_of_nat 10) EmptyString.

(** The bytes that the form-urlencoded serialisation leaves as they are:
    letters, digits and [*-._]. *)
Definition unreserved (n : N) : bool :=
  ((n =? 42) || (n =? 45) || (n =? 46) || (n =? 95)
   || ((48 <=? n) && (n <=? 57)) || ((65 <=? n) && (n <=? 90))
   || ((97 <=? n) && (n <=? 122)))%N.

Definition hex_digit (d : N) : ascii :=
  ascii_of_N (if (d <? 10)%N then 48 + d else 55 + d).

(** Strings are held as their UTF-8 bytes; a space becomes [+], any other
    byte outside the set above [%XX]. *)
Fixpoint urlencode (s : string) : string :=
  match s with
  | EmptyString => EmptyString
  | String a s' =>
      let n := N_of_ascii a in
      if (n =? 32)%N then String "+" (urlencode s')
      else if unreserved n then String a (urlencode s')
      else String "%" (String (hex_digit (n / 16))
                              (String (hex_digit (n mod 16)) (urlencode s')))
  end.

(** A name and its value in the query string. *)
Definition encoded_pair (p : string * string) : string :=
  String.append (urlencode (fst p)) (String.append "=" (urlencode (snd p))).

(** [new URLSearchParams(pairs).toString()] *)
Definition serialize (pairs : list (string * string)) : string :=
  join "&" (map encoded_pair pairs).

(** The values of the parameters that the client passes: strings and
    integers. *)
Inductive param :=
  | PString (s : string)
  | PNumber (z : Z).

Definition param_string (p : param) : string :=
  match p with
  | PString s => s
  | PNumber z => String_of (Some z)
  end.

(** The pairs that [URLSearchParams] reads off a parameter object. *)
Definition pairs_of (params : object param) : list (string * string) :=
  map (fun e => (fst e, param_string (snd e))) (entries params).

(** The URL that [get(endpoint, params)] requests. *)
Definition get_url (endpoint : string) (params : object param) : string :=
  match serialize (pairs_of params) with
  | EmptyString => endpoint
  | queryString => String.append endpoint (String.append "?" queryString)
  end.

(** Reading a URL back, as the form-urlencoded parser does. *)
Fixpoint split_on (separator : ascii) (s : string) : list string :=
  match s with
  | EmptyString => [EmptyString]
  | String a s' =>
      if Ascii.eqb a separator then EmptyString :: split_on separator s'
      else match split_on separator s' with
           | [] => [String a EmptyString]
           | piece :: pieces => String a piece :: pieces
           end
  end.

(** The parts before and after the first occurrence of a character. *)
Fixpoint cut (separator : ascii) (s : string) : string * string :=
  match s with
  | EmptyString => (EmptyString, EmptyString)
  | String a s' =>
      if Ascii.eqb a separator then (EmptyString, s')
      else let '(before, after) := cut separator s' in (String a before, after)
  end.

Definition hex_value (a : ascii) : option N :=
  let n := N_of_ascii a in
  if ((48 <=? n) && (n <=? 57))%N then Some (n - 48)%N
  else if ((65 <=? n) && (n <=? 70))%N then Some (n - 55)%N
  else if ((97 <=? n) && (n <=? 102))%N then Some (n - 87)%N
  else None.

Fixpoint urldecode (s : string) : string :=
  match s with
  | EmptyString => EmptyString
  | String a s' =>
      if Ascii.eqb a "+" then String " " (urldecode s')
      else if Ascii.eqb a "%" then
        match s' with
        | String h (String l s'') =>
            match hex_value h, hex_value l with
            | Some x, Some y => String (ascii_of_N (16 * x + y)) (urldecode s'')
            | _, _ => String a (urldecode s')
            end
        | _ => String a (urldecode s')
        end
      else String a (urldecode s')
  end.

Definition parse_query (query : string) : list (string * string) :=
  map (fun piece => let '(name, value) := cut "=" piece in
                    (urldecode name, urldecode value))
      (List.filter (fun piece => negb (String.eqb piece EmptyString))
                   (split_on "&" query)).

Fixpoint contains (c : ascii) (s : string) : bool :=
  match s with
  | EmptyString => false
  | String a s' => Ascii.eqb a c || contains c s'
  end.

(** The transactions of a day, at most a hundred. *)
Definition day_filter : object param :=
  [("start_date", PString "2025-03-14"); ("end_date", PString "2025-03-14");
   ("limit", PNumber 100)].

End APIClient.

(* ===================================================================== *)
(** * Saving a transaction ([FinanceApp.saveTransaction], app.js)        *)
(* ===================================================================== *)

Module AppFlows.
Import JS APIClient.

Section Save.
Context `{N : Number}.

(** The fields of the transaction form as [saveTransaction] reads them: the
    amount and the category after [parseFloat] and [parseInt], where [None]
    is [NaN]; the description trimmed; the id of the transaction being
    edited, empty for a new one. *)
Record form := {
  transactionType : string;
  amount : option num;
  categoryId : option num;
  description : string;
  transactionDate : string;
  transactionId : string
}.

(** The part of [formData] that [validateTransaction] looks at. *)
Definition formData (f : form) : API.transaction_data :=
  {| API.type := Some (transactionType f);
     API.amount := amount f;
     API.category_id := categoryId f;
     API.date := Some (transactionDate f) |}.

(** The calls that [saveTransaction] makes, in order. *)
Inductive event :=
  | HapticImpact (style : string)
  | HapticNotification (type : string)
  | ShowError (message : string)
  | ShowSuccess (message : string)
  | CreateTransaction (data : form)
  | UpdateTransaction (id : string) (data : form)
  | CloseModal
  | RefreshCurrentSection.

Definition is_request (e : event) : bool :=
  match e with
  | CreateTransaction _ | UpdateTransaction _ _ => true
  | _ => false
  end.

(** [if (window.telegramApp) ...] *)
Definition when (telegramApp : bool) (e : event) : list event :=
  if telegramApp then [e] else [].

(** [telegramApp] tells whether [window.telegramApp] is set; [send] is the
    outcome of a request: [None] when it resolves, [Some message] when it
    rejects with an [Error] of that message. *)
Definition saveTransaction (telegramApp : bool) (send : event -> option string)
    (f : form) : list event :=
  (when telegramApp (HapticImpact "medium") ++
   let validation := API.validateTransaction (formData f) in
   if negb (API.valid validation) then
     [ShowError (join newline (API.errors validation))]
   else
     let request :=
       match transactionId f with
       | EmptyString => CreateTransaction f
       | id => UpdateTransaction id f
       end in
     match send request with
     | None =>
         [request;
          ShowSuccess (match transactionId f with
                       | EmptyString => "Транзакция создана"
                       | _ => "Транзакция обновлена"
                       end);
          CloseModal; RefreshCurrentSection]
         ++ when telegramApp (HapticNotification "success")
     | Some message =>
         [request;
          ShowError (or_string (Some message)
                               "Ошибка при сохранении транзакции")]
         ++ when telegramApp (HapticNotification "error")
     end)%list.

End Save.

(** A new expense of 450.00 rubles, in kopecks. *)
Definition new_expense : @form Z_Number :=
  {| transactionType := "expense";
     amount := Some 45000%Z;
     categoryId := Some 1%Z;
     description := "обед";
     transactionDate := "2025-03-14";
     transactionId := EmptyString |}.

Arguments form {N}.
Arguments event {N}.

End AppFlows.

(* ===================================================================== *)
(** * Start-up of the Telegram adapter (webapp/js/telegram.js)           *)
(* ===================================================================== *)

Module TelegramInit.
Import JS TelegramWebApp.

(** A Telegram user as the adapter reads it; a property that is missing
    is [None]. *)
Record telegram_user := {
  id : option Z;
  first_name : option string;
  last_name : option string;
  username : option string;
  language_code : option string;
  is_premium : option bool
}.

(** What a call of the SDK throws, as far as [init] can tell: [null] or
    [undefined], or any other value. *)
Inductive thrown :=
  | Nullish
  | Value.

(** How a call of the SDK ends. *)
Inductive outcome :=
  | Done
  | Raised (error : thrown).

(** The SDK object [window.Telegram.WebApp]: how the calls that [init]
    makes end, the properties it reads, and the dialogs it provides. *)
Module SDK.
Record t := {
  expand : outcome;
  enableClosingConfirmation : outcome;
  initDataUnsafe_user : option telegram_user;
  initData : option string;
  ready : outcome;
  dialogs : WebApp
}.
End SDK.

Record window := {
  Telegram_WebApp : option SDK.t;
  hostname : string
}.

(** The fields of a [TelegramWebApp] instance. *)
Record adapter := {
  tg : option SDK.t;
  user : option telegram_user;
  initData : option string;
  isReady : bool
}.

(** The fields as the constructor sets them before it calls [init]. *)
Definition constructed : adapter :=
  {| tg := None; user := None; initData := None; isReady := false |}.

Definition isDevelopment (w : window) : bool :=
  String.eqb (hostname w) "localhost" || String.eqb (hostname w) "127.0.0.1".

Definition mock_user : telegram_user :=
  {| id := Some 123456789%Z;
     first_name := Some "Test";
     last_name := Some "User";
     username := Some "testuser";
     language_code := Some "ru";
     is_premium := Some false |}.

Definition initDevelopmentMode (a : adapter) : adapter :=
  {| tg := tg a;
     user := Some mock_user;
     initData := Some "mock_init_data_for_development";
     isReady := true |}.

(** [user && user.id] as a condition. *)
Definition has_id (u : option telegram_user) : bool :=
  match u with
  | Some u' => match id u' with
               | Some n => negb (n =? 0)%Z
               | None => false
               end
  | None => false
  end.

(** [init] passes no callback to [showAlert]. *)
Definition no_callback (f : Empty_set) (argument : option bool) : completion :=
  match f with end.

(** The [catch] block of [init].  It logs [error.stack] first: reading a
    property of [null] or [undefined] throws, and then [init] throws too;
    [None] stands for that. *)
Definition recover (w : window) (error : thrown) (a : adapter)
    : option adapter :=
  match error with
  | Nullish => None
  | Value =>
      Some (if isDevelopment w then initDevelopmentMode a
            else initDevelopmentMode a)
  end.

(** [init]: the fields afterwards and the dialogs shown, or [None] when
    [init] throws.  [applyTheme], [setupMainButton] and [setupBackButton]
    catch their own errors and touch none of the fields; [showAlert]
    throws nothing of its own, and what a dialog of the browser throws is
    an [Error]. *)
Definition init (w : window) (a : adapter)
    : option (adapter * list (event Empty_set)) :=
  match Telegram_WebApp w with
  | None =>
      Some (if isDevelopment w then initDevelopmentMode a
            else initDevelopmentMode a, [])
  | Some sdk =>
      let a :=
        {| tg := Some sdk; user := user a; initData := initData a;
           isReady := isReady a |} in
      match SDK.expand sdk with
      | Raised error => option_map (fun a => (a, [])) (recover w error a)
      | Done =>
          match SDK.enableClosingConfirmation sdk with
          | Raised error => option_map (fun a => (a, [])) (recover w error a)
          | Done =>
              let a :=
                {| tg := tg a;
                   user := SDK.initDataUnsafe_user sdk;
                   initData := Some (or_string (SDK.initData sdk) EmptyString);
                   isReady := isReady a |} in
              if negb (has_id (user a)) then
                if isDevelopment w then Some (initDevelopmentMode a, [])
                else
                  let a := initDevelopmentMode a in
                  let '(shown, c) :=
                    showAlert no_callback (Some (SDK.dialogs sdk))
                      "Ошибка: откройте приложение через бота Telegram"
                      None in
                  match c with
                  | Normal => Some (a, shown)
                  | Throws =>
                      option_map (fun a => (a, shown)) (recover w Value a)
                  end
              else
                let a :=
                  {| tg := tg a; user := user a; initData := initData a;
                     isReady := true |} in
                match SDK.ready sdk with
                | Done => Some (a, [])
                | Raised error =>
                    option_map (fun a => (a, [])) (recover w error a)
                end
          end
      end
  end.

(** [new TelegramWebApp()]: the instance, or [None] when the constructor
    throws, as it does when [init] throws; then [window.telegramApp] is
    never set. *)
Definition new_TelegramWebApp (w : window) : option adapter :=
  option_map fst (init w constructed).

(** [this.user?.id || null] *)
Definition getUserId (a : adapter) : option Z :=
  match user a with
  | Some u => match id u with
              | Some n => if (n =? 0)%Z then None else Some n
              | None => None
              end
  | None => None
  end.

Definition getInitData (a : adapter) : option string := initData a.

(** [isReady && user && user.id] as a condition. *)
Definition isAppReady (a : adapter) : bool := isReady a && has_id (user a).

(** The session is Telegram's own: the SDK is loaded, its calls end
    normally and it names a user. *)
Definition in_session (w : window) : bool :=
  match Telegram_WebApp w with
  | Some sdk =>
      match SDK.expand sdk, SDK.enableClosingConfirmation sdk, SDK.ready sdk with
      | Done, Done, Done => has_id (SDK.initDataUnsafe_user sdk)
      | _, _, _ => false
      end
  | None => false
  end.

(** The first call of the SDK that does not return throws [null] or
    [undefined]; [ready] is called only for a user with an id. *)
Definition fails (w : window) : bool :=
  match Telegram_WebApp w with
  | Some sdk =>
      match SDK.expand sdk with
      | Raised Nullish => true
      | Raised Value => false
      | Done =>
          match SDK.enableClosingConfirmation sdk with
          | Raised Nullish => true
          | Raised Value => false
          | Done =>
              has_id (SDK.initDataUnsafe_user sdk)
              && match SDK.ready sdk with
                 | Raised Nullish => true
                 | _ => false
                 end
          end
      end
  | None => false
  end.

(** The events that are calls of the callback. *)
Definition is_call {callback} (e : event callback) : bool :=
  match e with
  | Called _ _ => true
  | _ => false
  end.

(** A browser tab on the production host, without the SDK. *)
Definition browser_tab : window :=
  {| Telegram_WebApp := None; hostname := "finance.example.org" |}.

(** A session of user 42, and a client whose [expand] throws [null]. *)
Definition guest : telegram_user :=
  {| id := Some 42%Z; first_name := Some "Anna"; last_name := None;
     username := Some "anna"; language_code := Some "ru";
     is_premium := None |}.

Definition session (expand : outcome) : window :=
  {| Telegram_WebApp :=
       Some {| SDK.expand := expand;
               SDK.enableClosingConfirmation := Done;
               SDK.initDataUnsafe_user := Some guest;
               SDK.initData := Some "query_id=1";
               SDK.ready := Done;
               SDK.dialogs := {| tg_showAlert := None;
                                 tg_showConfirm := None |} |};
     hostname := "finance.example.org" |}.

End TelegramInit.

(* ===================================================================== *)
(** * Request headers ([API.getAuthHeaders], [API.request], app.js)      *)
(* ===================================================================== *)

Module APIHeaders.
Import JS API TelegramInit.

(** [{...source}] written over [target]: the own properties of [source]
    are set in enumeration order. *)
Definition spread {V} (source target : object V) : object V :=
  fold_left (fun o e => set o (fst e) (snd e)) (entries source) target.

(** [this.headers] as the constructor sets it. *)
Definition headers : object string := [("Content-Type", "application/json")].

(** [telegramApp] is [window.telegramApp], [None] when it is not set. *)
Definition getAuthHeaders (headers : object string)
    (telegramApp : option adapter) : object string :=
  let headers := spread headers [] in
  let headers :=
    match telegramApp with
    | Some a =>
        match getInitData a with
        | Some (String c s) => set headers "X-Telegram-Init-Data" (String c s)
        | _ => headers
        end
    | None => headers
    end in
  match telegramApp with
  | Some a =>
      match getUserId a with
      | Some userId => set headers "X-Telegram-User-Id" (String_of (Some userId))
      | None => headers
      end
  | None => headers
  end.

(** The headers of the request that [request(endpoint, options)] sends;
    [options_headers] is [options.headers], which [get], [post], [put] and
    [delete] leave unset. *)
Definition request_headers (headers : object string)
    (telegramApp : option adapter) (options_headers : option (object string))
    : object string :=
  spread (match options_headers with Some o => o | None => [] end)
         (spread (getAuthHeaders headers telegramApp) []).

End APIHeaders.

(* ===================================================================== *)
(** * Deleting a transaction ([FinanceApp.deleteTransaction], app.js)    *)
(* ===================================================================== *)

Module DeleteFlows.
Import JS.

(** The calls that the two delete methods make, in order. *)
Inductive event :=
  | ShowConfirm (message : string)
  | HapticImpact (style : string)
  | DeleteTransaction (id : string)
  | ShowSuccess (message : string)
  | ShowError (message : string)
  | CloseModal
  | RefreshCurrentSection
  | HapticNotification (type : string).

Definition is_request (e : event) : bool :=
  match e with
  | DeleteTransaction _ => true
  | _ => false
  end.

Definition is_confirmation (e : event) : bool :=
  match e with
  | ShowConfirm _ => true
  | _ => false
  end.

(** [if (window.telegramApp) ...] *)
Definition when (telegramApp : bool) (e : event) : list event :=
  if telegramApp then [e] else [].

Section Delete.
(** [telegramApp] tells whether [window.telegramApp] is set; [answer] is
    what the confirmation resolves to, [None] when it never does; [send] is
    the outcome of the request: [None] when it resolves, [Some message]
    when it rejects. *)
Variables (telegramApp : bool) (answer : option bool)
          (send : string -> option string).

(** What follows the confirmation in both methods. *)
Definition delete_and_report (transactionId : string) (closes : bool)
    : list event :=
  (when telegramApp (HapticImpact "heavy") ++
   DeleteTransaction transactionId ::
   match send transactionId with
   | None =>
       ShowSuccess "Транзакция удалена" ::
       (if closes then [CloseModal] else []) ++
       RefreshCurrentSection :: when telegramApp (HapticNotification "success")
   | Some _ =>
       ShowError "Ошибка при удалении транзакции" ::
       when telegramApp (HapticNotification "error")
   end)%list.

(** [transactionId] is the value of the form field. *)
Definition deleteTransaction (transactionId : string) : list event :=
  match transactionId with
  | EmptyString => []
  | _ =>
      ShowConfirm "Удалить транзакцию?" ::
      match answer with
      | Some true => delete_and_report transactionId true
      | Some false | None => []
      end
  end.

(** Called from a swipe, with the id of the row. *)
Definition deleteTransactionById (transactionId : string) : list event :=
  delete_and_report transactionId false.

End Delete.

End DeleteFlows.

(* ===================================================================== *)
(** * [DELETE] and the [ON DELETE] actions of the schema                 *)
(* ===================================================================== *)

(** [DELETE FROM t WHERE ...] with the actions that the foreign keys
    declare.  The actions reach one table deep: a schema in which a table
    emptied by [CASCADE] is itself referred to is outside the model, and a
    [DELETE] on it is rejected. *)
Module Deletion.
Import Schema Database.

(** The foreign keys that refer to table [t], each with its table and
    column. *)
Definition referrers (s : schema) (t : string)
    : list (table * column * reference) :=
  flat_map (fun t' =>
    flat_map (fun c =>
      match col_references c with
      | Some ref =>
          if String.eqb (ref_table ref) t then [(t', c, ref)] else []
      | None => []
      end) (tbl_columns t')) (tables s).

(** A row refers to one of the deleted rows: its foreign key is not [NULL]
    and is the key of one of them. *)
Definition refers (ref : reference) (c : column) (deleted : list row)
    (r : row) : bool :=
  negb (is_null (cell r (col_name c)))
  && existsb (fun old => value_eqb (cell old (ref_column ref))
                                   (cell r (col_name c))) deleted.

(** [ON DELETE SET NULL] updates the referring row, and the
    [BEFORE UPDATE] triggers of its table run. *)
Definition set_null (s : schema) (now : Z) (t' : table) (c : column)
    (r : row) : row :=
  before_update s now (tbl_name t') (<[col_name c := NULL]> r).

(** The action of one foreign key; [None] when the statement fails. *)
Definition act (s : schema) (now : Z) (deleted : list row)
    (acc : option db) (referrer : table * column * reference) : option db :=
  let '(t', c, ref) := referrer in
  match acc with
  | None => None
  | Some d =>
      let old := table_rows d (tbl_name t') in
      match on_delete ref with
      | CASCADE =>
          match referrers s (tbl_name t') with
          | [] =>
              Some (set_rows d (tbl_name t')
                      (List.filter (fun r => negb (refers ref c deleted r)) old))
          | _ :: _ => None
          end
      | SET_NULL =>
          let l := map (fun r => if refers ref c deleted r
                                 then set_null s now t' c r else r) old in
          let d' := set_rows d (tbl_name t') l in
          if forallb (fun r => row_holds d' t' (set_null s now t' c r))
                     (List.filter (refers ref c deleted) old)
             && unique_holds t' l
          then Some d' else None
      end
  end.

(** [DELETE FROM t WHERE where_]: carried out as a whole or rejected. *)
Definition delete (s : schema) (now : Z) (t : string) (where_ : row -> bool)
    (d : db) : bool * db :=
  match find_table s t with
  | None => (false, d)
  | Some _ =>
      let deleted := List.filter where_ (table_rows d t) in
      let kept := List.filter (fun r => negb (where_ r)) (table_rows d t) in
      match fold_left (act s now deleted) (referrers s t)
                      (Some (set_rows d t kept)) with
      | Some d' => (true, d')
      | None => (false, d)
      end
  end.

(** The two foreign keys of transactions. *)
Definition user_id : column :=
  REFERENCES "users" "id" CASCADE (NOT_NULL (col "user_id" INTEGER)).

Definition category_id : column :=
  REFERENCES "categories" "id" SET_NULL (col "category_id" INTEGER).

Definition to_users : reference :=
  {| ref_table := "users"; ref_column := "id"; on_delete := CASCADE |}.

Definition to_categories : reference :=
  {| ref_table := "categories"; ref_column := "id"; on_delete := SET_NULL |}.

End Deletion.

(* ===================================================================== *)
(** * Calls through the Telegram adapter (webapp/js/telegram.js)         *)
(* ===================================================================== *)

Module TelegramCalls.
Import TelegramWebApp.

(** The methods of [window.Telegram.WebApp] that the adapter forwards to,
    [HapticFeedback] included: for each one the bridge provides, how a
    call ends. *)
Record Bridge := {
  tg_impactOccurred : option (string -> completion);
  tg_notificationOccurred : option (string -> completion);
  tg_selectionChanged : option completion;
  tg_sendData : option (string -> completion);
  tg_requestWriteAccess : option completion;
  tg_requestContact : option completion
}.

Section Calls.
Variable callback : Type.

(** How a call of a callback with [false] ends. *)
Variable refuse : callback -> completion.

Inductive call :=
  | Forwarded (method : string) (argument : option string)
              (cb : option callback)
  | ConsoleWarn
  | ConsoleError
  | Refused (cb : callback).

Definition block := (list call * completion)%type.

Definition andThen (b1 b2 : block) : block :=
  match b1 with
  | (t1, Normal) => ((t1 ++ fst b2)%list, snd b2)
  | (t1, Throws) => (t1, Throws)
  end.

(** [try { b } catch (error) { handler }] *)
Definition tryCatch (b handler : block) : block :=
  match b with
  | (t, Normal) => (t, Normal)
  | (t, Throws) => ((t ++ fst handler)%list, snd handler)
  end.

Definition nothing : block := ([], Normal).

(** [if (callback) callback(false)] *)
Definition refuseIf (cb : option callback) : block :=
  match cb with
  | Some f => ([Refused f], refuse f)
  | None => nothing
  end.

(** [this.tg?.method] *)
Definition method {M} (tg : option Bridge) (m : Bridge -> option M) : option M :=
  match tg with
  | Some bridge => m bridge
  | None => None
  end.

Definition hapticImpact (tg : option Bridge) (style : string) : block :=
  tryCatch
    (match method tg tg_impactOccurred with
     | Some f => ([Forwarded "impactOccurred" (Some style) None], f style)
     | None => nothing
     end)
    nothing.

Definition hapticNotification (tg : option Bridge) (type : string) : block :=
  tryCatch
    (match method tg tg_notificationOccurred with
     | Some f => ([Forwarded "notificationOccurred" (Some type) None], f type)
     | None => nothing
     end)
    nothing.

Definition hapticSelection (tg : option Bridge) : block :=
  tryCatch
    (match method tg tg_selectionChanged with
     | Some c => ([Forwarded "selectionChanged" None None], c)
     | None => nothing
     end)
    nothing.

(** [jsonData] is the string built from the data; building it is part of
    the guarded block and may throw, as for a cyclic object. *)
Definition sendData (tg : option Bridge) (jsonData : option string) : block :=
  tryCatch
    (match method tg tg_sendData with
     | Some f =>
         match jsonData with
         | Some json => ([Forwarded "sendData" (Some json) None], f json)
         | None => ([], Throws)
         end
     | None => ([ConsoleWarn], Normal)
     end)
    ([ConsoleError], Normal).

Definition requestWriteAccess (tg : option Bridge) (cb : option callback)
    : block :=
  tryCatch
    (match method tg tg_requestWriteAccess with
     | Some c => ([Forwarded "requestWriteAccess" None cb], c)
     | None => andThen ([ConsoleWarn], Normal) (refuseIf cb)
     end)
    (andThen ([ConsoleError], Normal) (refuseIf cb)).

Definition requestContact (tg : option Bridge) (cb : option callback)
    : block :=
  tryCatch
    (match method tg tg_requestContact with
     | Some c => ([Forwarded "requestContact" None cb], c)
     | None => andThen ([ConsoleWarn], Normal) (refuseIf cb)
     end)
    (andThen ([ConsoleError], Normal) (refuseIf cb)).

Definition is_refusal (e : call) : bool :=
  match e with
  | Refused _ => true
  | _ => false
  end.

Definition is_forwarded (e : call) : bool :=
  match e with
  | Forwarded _ _ _ => true
  | _ => false
  end.

End Calls.

Arguments Forwarded {callback}.
Arguments ConsoleWarn {callback}.
Arguments ConsoleError {callback}.
Arguments Refused {callback}.
Arguments is_refusal {callback}.
Arguments is_forwarded {callback}.

(** A bridge of an old client: no haptics, and a write-access request
    that throws. *)
Definition old_client : Bridge :=
  {| tg_impactOccurred := None;
     tg_notificationOccurred := None;
     tg_selectionChanged := None;
     tg_sendData := Some (fun _ => Normal);
     tg_requestWriteAccess := Some Throws;
     tg_requestContact := None |}.

End TelegramCalls.

(* ===================================================================== *)
(** * Facts about objects, enumeration order and sorting                 *)
(* ===================================================================== *)

Module JSFacts.
Import JS.

(** Integers satisfy the laws asked of numbers. *)
#[export] Instance Z_NumberLaws : NumberLaws Z_Number.
Proof.
  split; simpl; intros.
  - apply Z.ltb_irrefl.
  - rewrite Z.ltb_lt in *. lia.
  - rewrite Z.ltb_ge in *. lia.
  - destruct (Z.eqb_spec a 0); [assumption | discriminate].
  - destruct (Z.leb_spec a 0), (Z.ltb_spec 0 a); simpl; auto; lia.
  - destruct (Z.ltb_spec 0 (b - a)), (Z.ltb_spec a b); auto; lia.
Qed.

Section Objects.
Context {V : Type}.
Implicit Types (o : object V) (k : string) (v : V).

Lemma get_set_eq o k v : get (set o k v) k = Some v.
Proof.
  induction o as [|[k' v'] o IH]; simpl.
  - now rewrite String.eqb_refl.
  - destruct (String.eqb k' k) eqn:E; simpl; rewrite E; auto.
Qed.

Lemma get_set_ne o k k' v : k <> k' -> get (set o k v) k' = get o k'.
Proof.
  intros Hne. induction o as [|[k0 v0] o IH]; simpl.
  - destruct (String.eqb_spec k k'); congruence.
  - destruct (String.eqb_spec k0 k) as [->|Hk]; simpl.
    + destruct (String.eqb_spec k k'); congruence.
    + now rewrite IH.
Qed.

Lemma get_Some_In o k v : get o k = Some v -> In (k, v) o.
Proof.
  induction o as [|[k' v'] o IH]; simpl; [discriminate|].
  destruct (String.eqb_spec k' k) as [->|Hk]; intros H.
  - left. congruence.
  - right. auto.
Qed.

Lemma get_None_not_In o k : get o k = None -> ~ In k (map fst o).
Proof.
  induction o as [|[k' v'] o IH]; simpl; [tauto|].
  destruct (String.eqb_spec k' k) as [->|Hk]; [discriminate|].
  intros H [Heq|Hin]; [congruence|]. now apply IH.
Qed.

Lemma In_get o k v : List.NoDup (map fst o) -> In (k, v) o -> get o k = Some v.
Proof.
  induction o as [|[k' v'] o IH]; simpl; [tauto|].
  intros Hnd [Heq|Hin].
  - injection Heq as -> ->. now rewrite String.eqb_refl.
  - inversion Hnd as [|? ? Hnot Hnd']; subst.
    destruct (String.eqb_spec k' k) as [->|Hk]; [|auto].
    exfalso. apply Hnot. apply (in_map fst) in Hin. exact Hin.
Qed.

Lemma In_keys_set o k k' v :
  In k' (map fst (set o k v)) <-> k' = k \/ In k' (map fst o).
Proof.
  induction o as [|[k0 v0] o IH]; simpl.
  - intuition.
  - destruct (String.eqb_spec k0 k) as [->|Hk]; simpl.
    + intuition.
    + rewrite IH. intuition.
Qed.

Lemma NoDup_set o k v : List.NoDup (map fst o) -> List.NoDup (map fst (set o k v)).
Proof.
  induction o as [|[k0 v0] o IH]; simpl; intros Hnd.
  - constructor; [simpl; tauto | constructor].
  - inversion Hnd as [|? ? Hnot Hnd']; subst.
    destruct (String.eqb_spec k0 k) as [->|Hk]; simpl.
    + now constructor.
    + constructor; [|auto].
      rewrite In_keys_set. intros [->|Hin]; [congruence | contradiction].
Qed.

(** Enumeration reorders the properties and loses none. *)
Lemma insert_by_index_perm n (e : string * V) l :
  Permutation (map snd (insert_by_index n e l)) (e :: map snd l).
Proof.
  induction l as [|[m e'] l IH]; simpl; [reflexivity|].
  destruct (n <? m)%N; simpl; [reflexivity|].
  rewrite IH. apply perm_swap.
Qed.

Lemma entries_perm o : Permutation (entries o) o.
Proof.
  unfold entries, is_index. induction o as [|[k v] o IH]; simpl; [reflexivity|].
  destruct (array_index k) as [n|]; simpl.
  - rewrite insert_by_index_perm. simpl. now apply perm_skip.
  - rewrite <- Permutation_middle. now apply perm_skip.
Qed.

Lemma In_entries o e : In e (entries o) <-> In e o.
Proof.
  split; apply Permutation_in; [|symmetry]; apply entries_perm.
Qed.

Lemma In_keys o k : In k (keys o) <-> In k (map fst o).
Proof.
  unfold keys.
  split; apply Permutation_in; [|symmetry]; apply Permutation_map, entries_perm.
Qed.

Lemma NoDup_keys o : List.NoDup (map fst o) -> List.NoDup (keys o).
Proof.
  unfold keys. apply Permutation.Permutation_NoDup. symmetry.
  apply Permutation_map, entries_perm.
Qed.

Lemma length_entries o : length (entries o) = length o.
Proof. apply Permutation_length, entries_perm. Qed.

End Objects.

Section Sorting.
Context `{N : Number} {A : Type}.
Variable cmp : A -> A -> option num.

Lemma sort_insert_perm x (l : list A) :
  Permutation (sort_insert cmp x l) (x :: l).
Proof.
  induction l as [|y l IH]; simpl; [reflexivity|].
  destruct (positive (cmp x y)); [|reflexivity].
  rewrite IH. apply perm_swap.
Qed.

Lemma sort_perm (l : list A) : Permutation (sort cmp l) l.
Proof.
  unfold sort. induction l as [|x l IH]; simpl; [reflexivity|].
  rewrite sort_insert_perm. now apply perm_skip.
Qed.

(** When "[cmp a b > 0]" is the test of a relation [above b a] whose
    complement is transitive on the elements at hand, the result is
    ordered: no element stands before one that belongs above it. *)
Variable above : A -> A -> bool.
Variable known : A -> Prop.
Hypothesis cmp_above : forall a b, positive (cmp a b) = above b a.
Hypothesis above_asym :
  forall a b, known a -> known b -> above a b = true -> above b a = false.
Hypothesis above_negtrans :
  forall a b c, known a -> known b -> known c ->
    above a b = false -> above b c = false -> above a c = false.

Lemma sort_insert_ordered x l :
  known x -> Forall known l ->
  ordered above l -> ordered above (sort_insert cmp x l).
Proof.
  unfold ordered. intros Hx Hl. induction 1 as [|y l Hsorted IH Hy]; simpl.
  - constructor; constructor.
  - apply List.Forall_cons_iff in Hl as [Hky Hl].
    rewrite cmp_above. destruct (above y x) eqn:E.
    + constructor; [now apply IH|].
      rewrite List.Forall_forall in *. intros z Hz.
      apply (Permutation_in _ (sort_insert_perm x l)) in Hz.
      destruct Hz as [<-|Hz]; [now apply above_asym | auto].
    + constructor; [now constructor|].
      constructor; [exact E|].
      rewrite List.Forall_forall in *. intros z Hz.
      apply above_negtrans with y; auto.
Qed.

Lemma sort_ordered l : Forall known l -> ordered above (sort cmp l).
Proof.
  unfold sort. induction l as [|x l IH]; simpl; intros Hl.
  - constructor.
  - apply List.Forall_cons_iff in Hl as [Hx Hl].
    apply sort_insert_ordered; auto.
    rewrite List.Forall_forall in *. intros z Hz. apply Hl.
    now apply (Permutation_in _ (sort_perm l)).
Qed.

End Sorting.

End JSFacts.

(* ===================================================================== *)
(** * Statistics and the expense chart                                   *)
(* ===================================================================== *)

Module FinanceAppProofs.
Import JS JSFacts FinanceApp Specification.

Section Scans.
Context `{N : Number}.

(** The name the code groups a transaction under is the category of the
    specification. *)
Lemma categoryName_category (t : transaction) : categoryName t = category t.
Proof.
  unfold categoryName, category, or_string.
  destruct (category_name t) as [[|a s]|]; reflexivity.
Qed.

Lemma is_income_income (t : transaction) : is_income t = income t.
Proof. reflexivity. Qed.

Lemma is_expense_expense (l : list transaction) :
  List.filter is_expense l = List.filter expense l.
Proof. reflexivity. Qed.

(** The single pass of [calculateStats] computes the same as three
    separate passes. *)
Lemma scan_fold (txs : list transaction) : forall earned spent totals,
  fold_left scan txs (earned, spent, totals) =
  (fold_left add (amounts income txs) earned,
   fold_left add (amounts other txs) spent,
   fold_left accumulate (List.filter other txs) totals).
Proof.
  unfold amounts, other.
  induction txs as [|t txs IH]; intros; simpl; [reflexivity|].
  rewrite is_income_income. destruct (income t); simpl; apply IH.
Qed.

Lemma amounts_filter (p q : transaction -> bool) l :
  amounts q (List.filter p l) = amounts (fun t => p t && q t) l.
Proof.
  unfold amounts. induction l as [|t l IH]; simpl; [reflexivity|].
  destruct (p t); simpl; [|exact IH].
  destruct (q t); simpl; now rewrite IH.
Qed.

Lemma inherited_proto : inherited "__proto__" = true.
Proof. reflexivity. Qed.

(** The grouping pass creates a property for every category but
    ['__proto__']. *)
Lemma accumulate_keys l : forall (o : object total) c,
  In c (map fst (fold_left accumulate l o)) <->
  In c (map fst o) \/ (In c (map category l) /\ c <> "__proto__").
Proof.
  induction l as [|t l IH]; intros o c; cbn [fold_left map In]; [tauto|].
  rewrite IH. unfold accumulate. cbn zeta. rewrite !categoryName_category.
  destruct (String.eqb_spec (category t) "__proto__") as [Heq|Hne].
  - intuition congruence.
  - rewrite In_keys_set. intuition congruence.
Qed.

Lemma accumulate_NoDup l : forall (o : object total),
  List.NoDup (map fst o) -> List.NoDup (map fst (fold_left accumulate l o)).
Proof.
  induction l as [|t l IH]; intros o Ho; cbn [fold_left]; [exact Ho|].
  apply IH. unfold accumulate. cbn zeta.
  destruct (String.eqb _ "__proto__"); [exact Ho | now apply NoDup_set].
Qed.

(** A number is held only under a name that is not inherited. *)
Lemma accumulate_amounts l : forall (o : object total),
  (forall k n, get o k = Some (Amount n) -> inherited k = false) ->
  forall k n, get (fold_left accumulate l o) k = Some (Amount n) ->
              inherited k = false.
Proof.
  induction l as [|t l IH]; intros o Ho; cbn [fold_left]; [exact Ho|].
  apply IH. intros k n. unfold accumulate. cbn zeta.
  destruct (String.eqb _ "__proto__"); [apply Ho|].
  destruct (String.eqb_spec (categoryName t) k) as [<-|Hne].
  - rewrite get_set_eq. unfold read, plus.
    destruct (get o (categoryName t)) as [[m|]|] eqn:Hheld.
    + intros _. now apply (Ho _ m).
    + discriminate.
    + destruct (inherited (categoryName t)); [discriminate | reflexivity].
  - rewrite get_set_ne by exact Hne. apply Ho.
Qed.

Context {L : NumberLaws N}.

Local Arguments or_zero : simpl never.

Lemma or_zero_Some v : or_zero (Some v) = v.
Proof.
  unfold or_zero. destruct (truthy v) eqn:E; [reflexivity|].
  symmetry. now apply falsy_zero.
Qed.

(** The number that [(v || 0)] gives for what a name holds. *)
Local Abbreviation held v :=
  (match v with
   | Some (Amount n) => n
   | Some Text | None => zero
   end).

(** What the grouping pass leaves under a name that is not inherited: the
    amounts of that category added, in order, to what the name held
    before. *)
Lemma accumulate_get l : forall (o : object total) c,
  inherited c = false -> get o c <> Some Text ->
  get (fold_left accumulate l o) c =
  match amounts (fun t => String.eqb (category t) c) l with
  | [] => get o c
  | a :: r => Some (Amount (fold_left add (a :: r) (held (get o c))))
  end.
Proof.
  unfold amounts.
  induction l as [|t l IH]; intros o c Hc Ho;
    cbn [fold_left map List.filter]; [reflexivity|].
  destruct (String.eqb_spec (category t) c) as [Heq|Hne].
  - assert (Hstep : accumulate o t
                    = set o c (Amount (add (held (get o c)) (amount t)))).
    { unfold accumulate. cbn zeta. rewrite categoryName_category, Heq.
      destruct (String.eqb_spec c "__proto__") as [->|_];
        [rewrite inherited_proto in Hc; discriminate|].
      f_equal. unfold read, plus. rewrite Hc.
      destruct (get o c) as [[n|]|]; [|congruence|reflexivity].
      now rewrite or_zero_Some. }
    rewrite Hstep, IH; [|exact Hc | rewrite get_set_eq; discriminate].
    rewrite get_set_eq. cbn [map fold_left].
    destruct (map amount (List.filter _ l)) as [|a r]; reflexivity.
  - assert (Hstep : get (accumulate o t) c = get o c).
    { unfold accumulate. cbn zeta. rewrite categoryName_category.
      destruct (String.eqb (category t) "__proto__"); [reflexivity|].
      now rewrite get_set_ne. }
    rewrite IH by (rewrite ?Hstep; assumption). now rewrite Hstep.
Qed.

Lemma grouped_get (p : transaction -> bool) txs c :
  In c (categories_of p txs) -> plain c = true ->
  get (fold_left accumulate (List.filter p txs) []) c
  = Some (Amount (total_of p c txs)).
Proof.
  unfold categories_of, total_of, sum, plain. intros Hin Hc.
  apply negb_true_iff in Hc.
  rewrite accumulate_get, <- amounts_filter by (exact Hc || discriminate).
  destruct (amounts _ (List.filter p txs)) as [|a r] eqn:E; [|reflexivity].
  exfalso. apply in_map_iff in Hin as (t & Ht & Hp).
  assert (Hin : In (amount t)
                   (amounts (fun t => String.eqb (category t) c)
                            (List.filter p txs))).
  { unfold amounts. apply in_map, filter_In. split; [exact Hp|].
    rewrite Ht. apply String.eqb_refl. }
  rewrite E in Hin. destruct Hin.
Qed.

Lemma grouped_keys (p : transaction -> bool) txs c :
  In c (map fst (fold_left accumulate (List.filter p txs) [])) <->
  In c (categories_of p txs) /\ c <> "__proto__".
Proof. rewrite accumulate_keys. simpl. unfold categories_of. tauto. Qed.

Lemma grouped_amounts (p : transaction -> bool) txs k n :
  get (fold_left accumulate (List.filter p txs) []) k = Some (Amount n) ->
  plain k = true.
Proof.
  intros H. unfold plain. apply negb_true_iff.
  revert H. apply accumulate_amounts. discriminate.
Qed.

Lemma plain_named c : plain c = true -> c <> "__proto__".
Proof. intros H ->. discriminate H. Qed.

(** The search for the top category keeps a strict maximum of the numbers
    and passes over text. *)
Lemma pick_fold (o : object total) ks : forall acc,
  let r := fold_left (pick o) ks acc in
  (r = acc /\
   forall k v, In k ks -> get o k = Some (Amount v) ->
               ltb (fst acc) v = false) \/
  (In (snd r) ks /\ get o (snd r) = Some (Amount (fst r)) /\
   ltb (fst acc) (fst r) = true /\
   forall k v, In k ks -> get o k = Some (Amount v) ->
               ltb (fst r) v = false).
Proof.
  induction ks as [|k ks IH]; intros acc; simpl.
  - left. split; [reflexivity | tauto].
  - specialize (IH (pick o acc k)). simpl in IH.
    set (r := fold_left (pick o) ks (pick o acc k)) in *.
    unfold pick in IH at 1 2 3.
    destruct (get o k) as [[total|]|] eqn:Hk.
    + destruct (ltb (fst acc) total) eqn:Hlt; simpl in IH.
      * right. destruct IH as [[Hr Hall]|(Hin & Hget & Hgt & Hall)].
        -- rewrite Hr. simpl. repeat split; auto.
           intros k' v [<-|Hin] Hv; [|eauto].
           assert (v = total) as -> by congruence. apply ltb_irrefl.
        -- repeat split; auto.
           ++ eapply ltb_trans; eauto.
           ++ intros k' v [<-|Hin'] Hv; [|eauto].
              assert (v = total) as -> by congruence.
              destruct (ltb (fst r) total) eqn:E; [|reflexivity].
              rewrite <- (ltb_irrefl total). symmetry. eapply ltb_trans; eauto.
      * destruct IH as [[Hr Hall]|(Hin & Hget & Hgt & Hall)].
        -- left. split; [exact Hr|].
           intros k' v [<-|Hin] Hv; [congruence | eauto].
        -- right. repeat split; auto.
           intros k' v [<-|Hin'] Hv; [|eauto].
           assert (v = total) as -> by congruence.
           destruct (ltb (fst r) total) eqn:E; [|reflexivity].
           rewrite <- Hlt. symmetry. eapply ltb_trans; eauto.
    + destruct IH as [[Hr Hall]|(Hin & Hget & Hgt & Hall)].
      * left. split; [exact Hr|].
        intros k' v [<-|Hin] Hv; [congruence | eauto].
      * right. repeat split; auto.
        intros k' v [<-|Hin'] Hv; [congruence | eauto].
    + destruct IH as [[Hr Hall]|(Hin & Hget & Hgt & Hall)].
      * left. split; [exact Hr|].
        intros k' v [<-|Hin] Hv; [congruence | eauto].
      * right. repeat split; auto.
        intros k' v [<-|Hin'] Hv; [congruence | eauto].
Qed.

End Scans.

Section Lists.
Context {A B : Type}.

Lemma combine_fst_snd (l : list (A * B)) :
  combine (map fst l) (map snd l) = l.
Proof.
  induction l as [|[a b] l IH]; simpl; [reflexivity | now rewrite IH].
Qed.

Lemma StronglySorted_app (R : A -> A -> Prop) (l1 l2 : list A) :
  StronglySorted R (l1 ++ l2) ->
  StronglySorted R l1 /\ forall x y, In x l1 -> In y l2 -> R x y.
Proof.
  induction l1 as [|a l1 IH]; simpl; intros H.
  - split; [constructor | tauto].
  - apply StronglySorted_inv in H as [H Ha]. apply IH in H as [H1 H2].
    rewrite List.Forall_forall in Ha. split.
    + constructor; [exact H1|]. rewrite List.Forall_forall.
      intros x Hx. apply Ha, in_or_app. now left.
    + intros x y [<-|Hx] Hy; [|auto]. apply Ha, in_or_app. now right.
Qed.

Lemma StronglySorted_map (R : B -> B -> Prop) (f : A -> B) (l : list A) :
  StronglySorted (fun a b => R (f a) (f b)) l -> StronglySorted R (map f l).
Proof.
  induction 1 as [|a l Hl IH Ha]; simpl; constructor; [exact IH|].
  rewrite List.Forall_forall in *. intros y Hy.
  apply in_map_iff in Hy as (x & <- & Hx). auto.
Qed.

Lemma StronglySorted_among (R R' : A -> A -> Prop) (l : list A) :
  (forall a b, In a l -> In b l -> R a b -> R' a b) ->
  StronglySorted R l -> StronglySorted R' l.
Proof.
  intros Himp H. induction H as [|a l Hl IH Ha]; constructor.
  - apply IH. intros x y Hx Hy. apply Himp; now right.
  - rewrite List.Forall_forall in *. intros y Hy.
    apply Himp; [now left | now right | auto].
Qed.

Lemma in_combine_map {C} (f : A -> B) (g : A -> C) (l : list A) a b :
  In (a, b) (combine (map f l) (map g l)) ->
  exists e, In e l /\ a = f e /\ b = g e.
Proof.
  induction l as [|e l IH]; simpl; [tauto|].
  intros [[= <- <-]|Hin]; [exists e; auto|].
  destruct (IH Hin) as (e' & He' & Heq). exists e'. auto.
Qed.

End Lists.

Section Claims.
Context `{N : Number}.

(** C2. After [calculateStats], the balance is the total income minus the
    total expense, and the count is the length of the transaction list. *)
Theorem calculateStats_identities (transactions : list transaction) :
  let s := calculateStats transactions in
  balance s = sub (totalIncome s) (totalExpense s) /\
  count s = length transactions.
Proof.
  unfold calculateStats.
  destruct (fold_left scan transactions _) as [[income expense] totals].
  simpl. split; reflexivity.
Qed.

Context {L : NumberLaws N}.



End Claims.


(** Why the amounts are asked to be numbers.  On doubles, an amount that
    is NaN stays in the sums but [|| 0] drops it from the total of its
    category: the top category is then one whose sum is NaN. *)
Example calculateStats_NaN :
  topCategory (calculateStats Examples.stray) = "Еда" /\
  isNaN (totalExpense (calculateStats Examples.stray)) = true /\
  isNaN (total_of other "Еда" Examples.stray) = true.
Proof. vm_compute. repeat split. Qed.




End FinanceAppProofs.

(* ===================================================================== *)
(** * The API helpers                                                    *)
(* ===================================================================== *)

Module APIProofs.
Import JS JSFacts API.

(** ** Dates *)

Lemma range_check (f : Z -> bool) (lo len : Z) :
  forallb f (map (fun i => lo + Z.of_nat i)%Z (seq 0 (Z.to_nat len))) = true ->
  forall z, (lo <= z < lo + len)%Z -> f z = true.
Proof.
  intros Hall z Hz. rewrite forallb_forall in Hall. apply Hall.
  apply in_map_iff. exists (Z.to_nat (z - lo)). split; [lia|].
  apply in_seq. lia.
Qed.

Lemma year_prints_ok y : (1000 <= y <= 9999)%Z -> year_prints y = true.
Proof.
  intros Hy. apply (range_check year_prints 1000 9000); [|lia].
  vm_compute. reflexivity.
Qed.

Lemma pads_ok n : (0 <= n <= 99)%Z -> pads n = true.
Proof.
  intros Hn. apply (range_check pads 0 100); [|lia].
  vm_compute. reflexivity.
Qed.

Lemma opt_Z_eqb_eq a b : opt_Z_eqb a b = true -> a = Some b.
Proof.
  destruct a as [x|]; simpl; [|discriminate].
  intros H. apply Z.eqb_eq in H. now subst.
Qed.

Lemma year_month_day_parses y m d :
  (1000 <= y <= 9999)%Z -> (0 <= m <= 11)%Z -> (1 <= d <= 31)%Z ->
  parse_ymd (year_month_day (LocalDate y m d)) = Some (y, (m + 1)%Z, d).
Proof.
  intros Hy Hm Hd. unfold year_month_day.
  cbn [getFullYear getMonth getDate option_map].
  pose proof (year_prints_ok y Hy) as Hyear.
  pose proof (pads_ok (1 + m) ltac:(lia)) as Hmonth.
  pose proof (pads_ok d ltac:(lia)) as Hday.
  unfold year_prints in Hyear. unfold pads in Hmonth, Hday.
  destruct (String_of (Some y)) as [|y1 [|y2 [|y3 [|y4 [|? ?]]]]];
    try discriminate Hyear.
  destruct (padStart (String_of (Some (1 + m)%Z)) 2 "0") as [|m1 [|m2 [|? ?]]];
    try discriminate Hmonth.
  destruct (padStart (String_of (Some d)) 2 "0") as [|d1 [|d2 [|? ?]]];
    try discriminate Hday.
  apply andb_prop in Hyear as [Hhi Hlo].
  apply opt_Z_eqb_eq in Hhi, Hlo, Hmonth, Hday.
  cbv [String.append parse_ymd]. rewrite Hhi, Hlo, Hmonth, Hday.
  f_equal. f_equal. f_equal; [|lia].
  pose proof (Z.div_mod y 100). lia.
Qed.

(** C10, as amended. [formatDate] returns a string unchanged, hence is
    idempotent; for a valid [Date] whose local year has four digits it
    returns the local calendar date as YYYY-MM-DD with zero-padded month
    and day; for an input that is neither a string nor a [Date] it returns
    what it returns for the current date. *)
Theorem formatDate_spec (now : Date) :
  (forall s, formatDate now (Str s) = s) /\
  (forall now' x, formatDate now' (Str (formatDate now x)) = formatDate now x) /\
  (forall y m d,
      (1000 <= y <= 9999)%Z -> (0 <= m <= 11)%Z -> (1 <= d <= 31)%Z ->
      parse_ymd (formatDate now (DateObj (LocalDate y m d)))
      = Some (y, (m + 1)%Z, d)) /\
  formatDate now Other = formatDate now (DateObj now).
Proof.
  repeat split.
  intros y m d. apply year_month_day_parses.
Qed.

Lemma formatDate_spec_witness :
  parse_ymd (formatDate InvalidDate (DateObj Examples.pi_day))
  = Some (2025, 3, 14)%Z.
Proof.
  apply (proj1 (proj2 (proj2 (formatDate_spec InvalidDate))) 2025 2 14)%Z;
    lia.
Defined.

(** C10 as stated fails: a [Date] of the year 999 and an invalid [Date]
    yield strings that are not of the form YYYY-MM-DD. *)
Lemma formatDate_counterexample :
  (formatDate Examples.pi_day (DateObj (LocalDate 999 0 1)) = "999-01-01" /\
   parse_ymd "999-01-01" = None) /\
  (formatDate Examples.pi_day (DateObj InvalidDate) = "NaN-NaN-NaN" /\
   parse_ymd "NaN-NaN-NaN" = None).
Proof. vm_compute. repeat split. Qed.

(** ** Validation *)

Section Validation.
Context `{N : Number} {L : NumberLaws N}.

Lemma string_truthy_iff (s : option string) :
  string_truthy s = true <-> exists v, s = Some v /\ v <> EmptyString.
Proof.
  destruct s as [[|a r]|]; simpl; split; try discriminate; try reflexivity.
  - intros (v & [= <-] & Hv). congruence.
  - intros _. eexists. split; [reflexivity | discriminate].
  - intros (v & Hv & _). discriminate.
Qed.

Lemma type_accepted (s : option string) :
  negb (string_truthy s) || negb (includes ["income"; "expense"] s) = false
  <-> s = Some "income" \/ s = Some "expense".
Proof.
  destruct s as [v|]; simpl.
  - destruct (String.eqb_spec v "income") as [->|Hi]; simpl;
      [split; auto|].
    destruct (String.eqb_spec v "expense") as [->|He]; simpl;
      [split; auto|].
    rewrite orb_true_r. split; [discriminate|].
    intros [[= ->]|[= ->]]; congruence.
  - split; [discriminate | intros [H|H]; discriminate].
Qed.

Lemma amount_accepted (x : option num) :
  negb (number_truthy x) || le_zero x = false
  <-> exists a, x = Some a /\ truthy a = true /\ ltb zero a = true.
Proof.
  destruct x as [a|]; simpl.
  - destruct (truthy a) eqn:Ht; simpl.
    + rewrite (leb_zero a Ht). destruct (ltb zero a) eqn:Hlt; simpl; split.
      * intros _. exists a. auto.
      * reflexivity.
      * discriminate.
      * intros (a' & [= <-] & _ & H). congruence.
    + split; [discriminate|]. intros (a' & [= <-] & H & _). congruence.
  - split; [discriminate|]. intros (a & H & _). discriminate.
Qed.

Lemma category_accepted (x : option num) :
  negb (number_truthy x) = false <-> exists c, x = Some c /\ truthy c = true.
Proof.
  destruct x as [c|]; simpl.
  - destruct (truthy c) eqn:Ht; simpl; split.
    + intros _. exists c. auto.
    + reflexivity.
    + discriminate.
    + intros (c' & [= <-] & H). congruence.
  - split; [discriminate|]. intros (c & H & _). discriminate.
Qed.

Lemma pushes (b1 b2 b3 b4 : bool) (m1 m2 m3 m4 : string) :
  let errors := push_if b4 m4 (push_if b3 m3 (push_if b2 m2 (push_if b1 m1 []))) in
  ((length errors =? 0)%nat = true <->
   b1 = false /\ b2 = false /\ b3 = false /\ b4 = false) /\
  ((length errors =? 0)%nat = true <-> errors = []).
Proof.
  destruct b1, b2, b3, b4; simpl; split; split; intros H;
    try discriminate; try reflexivity; intuition discriminate.
Qed.

(** C8. [validateTransaction] answers valid exactly when the type is
    'income' or 'expense', the amount is present, truthy and strictly
    positive, the category id is present and truthy, and the date is present
    and truthy; and it answers valid exactly when it reports no error. *)
Theorem validateTransaction_spec (data : transaction_data) :
  let v := validateTransaction data in
  (valid v = true <->
   (type data = Some "income" \/ type data = Some "expense") /\
   (exists a, amount data = Some a /\ truthy a = true /\ ltb zero a = true) /\
   (exists c, category_id data = Some c /\ truthy c = true) /\
   (exists d, date data = Some d /\ d <> EmptyString)) /\
  (valid v = true <-> errors v = []).
Proof.
  unfold validateTransaction. cbn zeta. cbn [valid errors].
  match goal with
  | |- context [push_if ?b4 ?m4 (push_if ?b3 ?m3 (push_if ?b2 ?m2
                  (push_if ?b1 ?m1 []))) ] =>
      destruct (pushes b1 b2 b3 b4 m1 m2 m3 m4) as [Hvalid Hnone]
  end.
  split; [|exact Hnone].
  rewrite Hvalid, type_accepted, amount_accepted, category_accepted.
  rewrite <- string_truthy_iff.
  destruct (string_truthy (date data)); simpl; intuition congruence.
Qed.

End Validation.

Lemma validateTransaction_spec_witness :
  NumberLaws Z_Number /\
  (valid (validateTransaction Examples.lunch) = true <->
   errors (validateTransaction Examples.lunch) = []).
Proof.
  split; [exact Z_NumberLaws|].
  exact (proj2 (validateTransaction_spec Examples.lunch)).
Defined.

(** ** Retrying *)

Section Retry.
Context {W A E : Type}.
Variable requestFn : W -> (E + A) * W.

Lemma backoff_one delay : backoff delay 1 = [Invoked].
Proof. reflexivity. Qed.

Lemma backoff_next delay k :
  backoff delay (S (S k)) = Invoked :: Waited delay :: backoff (delay * 2) (S k).
Proof.
  unfold backoff. cbn [Nat.sub]. rewrite Nat.sub_0_r.
  cbn [seq flat_map app]. rewrite Z.pow_0_r, Z.mul_1_r.
  do 2 f_equal. f_equal.
  rewrite <- seq_shift, flat_map_concat_map, map_map, <- flat_map_concat_map.
  apply flat_map_ext. intros j.
  rewrite Nat2Z.inj_succ, Z.pow_succ_r by lia.
  now rewrite Z.mul_assoc.
Qed.

Lemma invocations_backoff delay k :
  (1 <= k)%nat -> invocations (backoff delay k) = k.
Proof.
  intros Hk. destruct k as [|k]; [lia|]. clear Hk. revert delay.
  induction k as [|k IH]; intros delay; [reflexivity|].
  rewrite backoff_next. unfold invocations in *. simpl. now rewrite IH.
Qed.

(** The loop from index [i], with as much fuel as iterations are left. *)
Lemma retry_from_spec maxRetries fuel : forall i delay w,
  (1 <= fuel)%nat -> (i + Z.of_nat fuel = maxRetries)%Z ->
  exists k fs r w',
    (1 <= k <= fuel)%nat /\
    calls requestFn k w = ((fs ++ [r])%list, w') /\
    forallb failed fs = true /\
    match r with
    | inr a =>
        retry_from fuel requestFn maxRetries i delay w
        = (Returned a, backoff delay k, w')
    | inl e =>
        k = fuel /\
        retry_from fuel requestFn maxRetries i delay w
        = (Thrown e, backoff delay k, w')
    end.
Proof.
  induction fuel as [|fuel IH]; intros i delay w Hfuel Hi; [lia|].
  cbn [retry_from]. destruct (Z.ltb_spec i maxRetries) as [_|Hge]; [|lia].
  destruct (requestFn w) as [[e|a] w1] eqn:Hcall.
  - destruct (Z.eqb_spec i (maxRetries - 1)) as [Hlast|Hmore].
    + exists 1%nat, [], (inl e), w1. cbn [calls]. rewrite Hcall.
      repeat split; lia.
    + destruct (IH (i + 1)%Z (delay * 2)%Z w1 ltac:(lia) ltac:(lia))
        as (k & fs & r & w' & Hk & Hcalls & Hfs & Hr).
      exists (S k), (inl e :: fs), r, w'. cbn [calls]. rewrite Hcall, Hcalls.
      split; [lia|]. split; [reflexivity|]. split; [exact Hfs|].
      destruct k as [|k]; [lia|]. rewrite backoff_next.
      destruct r as [e'|a'].
      * destruct Hr as [<- Hr]. rewrite Hr. split; reflexivity.
      * rewrite Hr. reflexivity.
  - exists 1%nat, [], (inr a), w1. cbn [calls]. rewrite Hcall.
    repeat split; lia.
Qed.

(** C4. For [maxRetries >= 1], [retryRequest] calls [requestFn] some
    [k <= maxRetries] times in a row: the first [k - 1] calls fail, and
    after the [j]-th of them it waits [delay * 2^(j-1)]; when the [k]-th
    call succeeds its result is returned and nothing more is done; when it
    fails, [k = maxRetries] and its error is thrown. *)
Theorem retryRequest_spec (maxRetries delay : Z) (w : W) :
  (1 <= maxRetries)%Z ->
  exists k fs r w',
    (1 <= k <= Z.to_nat maxRetries)%nat /\
    calls requestFn k w = ((fs ++ [r])%list, w') /\
    forallb failed fs = true /\
    invocations (backoff delay k) = k /\
    match r with
    | inr a =>
        retryRequest requestFn maxRetries delay w
        = (Returned a, backoff delay k, w')
    | inl e =>
        k = Z.to_nat maxRetries /\
        retryRequest requestFn maxRetries delay w
        = (Thrown e, backoff delay k, w')
    end.
Proof.
  intros Hmax. unfold retryRequest.
  destruct (retry_from_spec maxRetries (Z.to_nat maxRetries) 0 delay w
              ltac:(lia) ltac:(lia))
    as (k & fs & r & w' & Hk & Hcalls & Hfs & Hr).
  exists k, fs, r, w'. repeat split; try tauto; try lia.
  apply invocations_backoff. lia.
Qed.

End Retry.

Lemma retryRequest_spec_witness :
  (1 <= 3)%Z /\
  exists k fs r w',
    (1 <= k <= 3)%nat /\
    calls Examples.flaky k 0%nat = ((fs ++ [r])%list, w') /\
    forallb failed fs = true /\
    invocations (backoff 1000 k) = k /\
    match r with
    | inr a =>
        retryRequest Examples.flaky 3 1000 0%nat
        = (Returned a, backoff 1000 k, w')
    | inl e =>
        k = 3%nat /\
        retryRequest Examples.flaky 3 1000 0%nat
        = (Thrown e, backoff 1000 k, w')
    end.
Proof.
  split; [lia|].
  apply (retryRequest_spec Examples.flaky 3 1000 0%nat). lia.
Defined.

End APIProofs.

(* ===================================================================== *)
(** * The Telegram adapter                                               *)
(* ===================================================================== *)

Module TelegramWebAppProofs.
Import TelegramWebApp.

Section Adapter.
Context {callback : Type}.
Variable invoke : callback -> option bool -> completion.
Variable confirm : string -> bool.

(** A fallback that ends normally is not repeated; one whose callback
    throws is caught, logged, and run once more. *)
Lemma tryCatch_fallback (shown : event callback) (cb : callback)
    (argument : option bool) :
  let fallback := andThen (emit shown) (callIf invoke (Some cb) argument) in
  tryCatch fallback (andThen (emit ConsoleError) fallback)
  = match invoke cb argument with
    | Normal => ([shown; Called cb argument], Normal)
    | Throws =>
        ([shown; Called cb argument; ConsoleError; shown; Called cb argument],
         Throws)
    end.
Proof.
  unfold tryCatch, andThen, emit, callIf. simpl.
  destruct (invoke cb argument); reflexivity.
Qed.

(** C7. [showAlert] hands the message and the callback to the bridge's
    [showAlert] when the bridge provides one; without a bridge, or with a
    bridge that has none, it shows the browser alert and then calls the
    callback.  [showConfirm] does the same with the bridge's [showConfirm]
    and the browser confirm, whose answer it passes to the callback.  The
    callback is called as well when the bridge method throws. *)
Theorem adapter_forwards_or_falls_back (bridge : WebApp)
    (message : string) (cb : callback) :
  (forall f, tg_showAlert bridge = Some f ->
     showAlert invoke (Some bridge) message (Some cb)
     = match f message with
       | Normal => ([BridgeShowAlert message (Some cb)], Normal)
       | Throws =>
           ([BridgeShowAlert message (Some cb); ConsoleError;
             BrowserAlert message; Called cb None],
            invoke cb None)
       end) /\
  (forall tg,
     tg = None \/ (tg = Some bridge /\ tg_showAlert bridge = None) ->
     exists rest c,
       showAlert invoke tg message (Some cb)
       = (BrowserAlert message :: Called cb None :: rest, c)) /\
  (forall f, tg_showConfirm bridge = Some f ->
     showConfirm invoke confirm (Some bridge) message (Some cb)
     = match f message with
       | Normal => ([BridgeShowConfirm message (Some cb)], Normal)
       | Throws =>
           ([BridgeShowConfirm message (Some cb); ConsoleError;
             BrowserConfirm message; Called cb (Some (confirm message))],
            invoke cb (Some (confirm message)))
       end) /\
  (forall tg,
     tg = None \/ (tg = Some bridge /\ tg_showConfirm bridge = None) ->
     exists rest c,
       showConfirm invoke confirm tg message (Some cb)
       = (BrowserConfirm message
            :: Called cb (Some (confirm message)) :: rest, c)).
Proof.
  split; [|split; [|split]].
  - intros f Hf. unfold showAlert, method. rewrite Hf.
    destruct (f message); reflexivity.
  - intros tg Htg.
    assert (Hnone : method tg tg_showAlert = None)
      by (destruct Htg as [->|[-> H]]; [reflexivity | exact H]).
    unfold showAlert, alertFallback. rewrite Hnone, tryCatch_fallback.
    destruct (invoke cb None); eexists _, _; reflexivity.
  - intros f Hf. unfold showConfirm, method. rewrite Hf.
    destruct (f message); reflexivity.
  - intros tg Htg.
    assert (Hnone : method tg tg_showConfirm = None)
      by (destruct Htg as [->|[-> H]]; [reflexivity | exact H]).
    unfold showConfirm, confirmFallback. rewrite Hnone, tryCatch_fallback.
    destruct (invoke cb (Some (confirm message))); eexists _, _; reflexivity.
Qed.

End Adapter.

(** On a bridge that provides [showAlert] and no [showConfirm]: the alert
    is forwarded and nothing else happens; the confirmation is the
    browser's, and its answer goes to the callback. *)
Lemma adapter_forwards_or_falls_back_witness :
  showAlert (fun (_ : unit) _ => Normal) (Some Examples.alert_only)
    "Сохранено" (Some tt)
  = ([BridgeShowAlert "Сохранено" (Some tt)], Normal) /\
  exists rest c,
    showConfirm (fun (_ : unit) _ => Normal) (fun _ => true)
      (Some Examples.alert_only) "Удалить?" (Some tt)
    = (BrowserConfirm "Удалить?" :: Called tt (Some true) :: rest, c).
Proof.
  split.
  - exact (proj1 (adapter_forwards_or_falls_back (fun (_ : unit) _ => Normal)
                    (fun _ => true) Examples.alert_only "Сохранено" tt)
                 (fun _ => Normal) eq_refl).
  - exact (proj2 (proj2 (proj2
             (adapter_forwards_or_falls_back (fun (_ : unit) _ => Normal)
                (fun _ => true) Examples.alert_only "Удалить?" tt)))
             (Some Examples.alert_only) (or_intror (conj eq_refl eq_refl))).
Defined.

End TelegramWebAppProofs.

(* ===================================================================== *)
(** * The schema and its constraints                                     *)
(* ===================================================================== *)

Module SchemaProofs.
Import Schema Database.

(** C5. The schema defines exactly the tables users, categories and
    transactions; the primary key of each is its column id, of type SERIAL;
    each table has indexes besides, every index is on one of the three
    tables, and none is on the primary key alone. *)
Theorem three_tables_with_generated_keys :
  map tbl_name (tables finance) = ["users"; "categories"; "transactions"] /\
  Forall (fun t => exists c, primary_keys t = [c] /\ generated_key c = true)
         (tables finance) /\
  Forall (fun t => (2 <= length (indexes_on finance t))%nat) (tables finance) /\
  Forall (fun i => In (idx_table i) (map tbl_name (tables finance)) /\
                   map fst (idx_columns i) <> ["id"])
         (indexes finance).
Proof.
  split; [reflexivity|]. split; [|split].
  - repeat apply List.Forall_cons; try apply List.Forall_nil;
      eexists; split; reflexivity.
  - repeat apply List.Forall_cons; try apply List.Forall_nil; simpl; lia.
  - repeat apply List.Forall_cons; try apply List.Forall_nil;
      (split; [simpl; tauto | discriminate]).
Qed.

(** ** Updates and the timestamp trigger *)

Lemma table_rows_set_rows_eq d t l : table_rows (set_rows d t l) t = l.
Proof. unfold table_rows, set_rows. simpl. now rewrite lookup_insert_eq. Qed.

Lemma table_rows_set_rows_ne d t t' l :
  t <> t' -> table_rows (set_rows d t l) t' = table_rows d t'.
Proof.
  intros Hne. unfold table_rows, set_rows. simpl.
  now rewrite lookup_insert_ne.
Qed.

(** On users and on transactions the one trigger runs the one function. *)
Lemma updated_stamps now t set old :
  t = "users" \/ t = "transactions" ->
  updated finance now t set old
  = <["updated_at" := Timestamp now]> (assign set old).
Proof. intros [->| ->]; reflexivity. Qed.

Lemma exec_update_accepted s now t set where_ d d' :
  exec s now (UPDATE t set where_) d = (true, d') ->
  table_rows d' t
  = map (fun r => if where_ r then updated s now t set r else r)
        (table_rows d t).
Proof.
  unfold exec. destruct (find_table s t) as [tbl|]; [|discriminate].
  destruct (forallb _ (map fst set)); [|discriminate].
  match goal with |- (if ?c then _ else _) = _ -> _ => destruct c end;
    [|discriminate].
  intros [= <-]. apply table_rows_set_rows_eq.
Qed.

(** C6. An UPDATE that is carried out on users or on transactions stores,
    for every row it applies to, the row the statement assigns with
    updated_at set to the time of the statement and every other column as
    assigned; rows it does not apply to stay as they are.  The trigger
    function itself changes no column other than updated_at. *)
Theorem update_sets_updated_at now t set where_ d d' :
  t = "users" \/ t = "transactions" ->
  exec finance now (UPDATE t set where_) d = (true, d') ->
  Forall2 (fun old new =>
             if where_ old then
               new !! "updated_at" = Some (Timestamp now) /\
               forall c, c <> "updated_at" -> new !! c = assign set old !! c
             else new = old)
          (table_rows d t) (table_rows d' t) /\
  forall (new : row) c,
    c <> "updated_at" ->
    call finance now "update_updated_at_column" new !! c = new !! c.
Proof.
  intros Ht Hexec. split.
  - rewrite (exec_update_accepted _ _ _ _ _ _ _ Hexec).
    induction (table_rows d t) as [|old l IH]; simpl; constructor; [|exact IH].
    destruct (where_ old); [|reflexivity].
    rewrite (updated_stamps _ _ _ _ Ht). split.
    + apply lookup_insert_eq.
    + intros c Hc. now apply lookup_insert_ne.
  - intros new c Hc. unfold call. simpl. now apply lookup_insert_ne.
Qed.

(** ** Constraints are kept by every statement *)

Section Statements.
Variable s : schema.
Hypothesis names_distinct : List.NoDup (map tbl_name (tables s)).

Lemma find_table_In name t :
  find_table s name = Some t -> In t (tables s) /\ tbl_name t = name.
Proof.
  intros H. apply find_some in H as [Hin Hname].
  split; [exact Hin|]. now apply String.eqb_eq.
Qed.

Lemma find_table_named t t' :
  In t (tables s) -> find_table s (tbl_name t) = Some t' -> t' = t.
Proof.
  unfold find_table. revert names_distinct.
  induction (tables s) as [|t0 l IH]; simpl; [tauto|].
  intros Hnd Hin. apply List.NoDup_cons_iff in Hnd as [Hnot Hnd].
  destruct (String.eqb_spec (tbl_name t0) (tbl_name t)) as [Heq|Hne].
  - intros [= <-]. destruct Hin as [Hin|Hin]; [congruence|].
    exfalso. apply Hnot. rewrite Heq. now apply in_map.
  - destruct Hin as [Hin|Hin]; [congruence | auto].
Qed.

Lemma referenced_mono d d' ref v :
  (forall r, In r (table_rows d (ref_table ref)) ->
             In r (table_rows d' (ref_table ref))) ->
  referenced d ref v = true -> referenced d' ref v = true.
Proof.
  unfold referenced. intros Hsub H.
  apply orb_true_iff in H as [H|H]; apply orb_true_iff; [now left|right].
  apply existsb_exists in H as (r & Hr & Hv).
  apply existsb_exists. exists r. auto.
Qed.

Lemma column_holds_reference d c v :
  column_holds d c v = true -> reference_holds d c v = true.
Proof.
  unfold column_holds. intros H. now apply andb_prop in H as [_ H].
Qed.

Lemma column_holds_transfer d d' c v :
  column_holds d c v = true -> reference_holds d' c v = true ->
  column_holds d' c v = true.
Proof.
  unfold column_holds. intros H H'.
  apply andb_prop in H as [H _]. now rewrite H, H'.
Qed.

Lemma row_holds_column d t r c :
  row_holds d t r = true -> In c (tbl_columns t) ->
  column_holds d c (cell r (col_name c)) = true.
Proof.
  unfold row_holds. rewrite forallb_forall. auto.
Qed.

(** A state is consistent when each of its rows either was checked in it,
    or comes from a consistent state and still finds the rows it refers
    to. *)
Lemma consistent_step d d' :
  consistent s d ->
  (forall t r, In t (tables s) -> In r (table_rows d' (tbl_name t)) ->
     row_holds d' t r = true \/
     (In r (table_rows d (tbl_name t)) /\
      forall c, In c (tbl_columns t) ->
        column_holds d c (cell r (col_name c)) = true ->
        reference_holds d' c (cell r (col_name c)) = true)) ->
  consistent s d'.
Proof.
  intros Hd Hstep t r Ht Hr.
  destruct (Hstep t r Ht Hr) as [H|[Hold Href]]; [exact H|].
  unfold row_holds. apply forallb_forall. intros c Hc.
  pose proof (row_holds_column _ _ _ _ (Hd t r Ht Hold) Hc) as Hcol.
  apply column_holds_transfer with d; auto.
Qed.

Lemma exec_insert_rows now t given d :
  fst (exec s now (INSERT t given) d) = true ->
  exists tbl r,
    find_table s t = Some tbl /\
    row_holds (snd (exec s now (INSERT t given) d)) tbl r = true /\
    forall t',
      table_rows (snd (exec s now (INSERT t given) d)) t'
      = if String.eqb t t' then (table_rows d t ++ [r])%list
        else table_rows d t'.
Proof.
  unfold exec. destruct (find_table s t) as [tbl|]; [|discriminate].
  destruct (forallb _ (map fst (map_to_list given))); [|discriminate].
  destruct (fold_left _ _ _) as [r seqs].
  destruct (row_holds _ tbl r) eqn:Hrow; [|discriminate].
  destruct (unique_holds _ _); [|discriminate].
  cbn [snd andb]. intros _. exists tbl, r.
  split; [reflexivity|]. split; [exact Hrow|].
  intros t'. cbn [snd andb].
  destruct (String.eqb_spec t t') as [<-|Hne].
  - apply table_rows_set_rows_eq.
  - now rewrite table_rows_set_rows_ne.
Qed.

Lemma exec_rejected now st d :
  fst (exec s now st d) = false -> rows (snd (exec s now st d)) = rows d.
Proof.
  destruct st as [t given|t set where_]; unfold exec.
  - destruct (find_table s t) as [tbl|]; [|reflexivity].
    destruct (forallb _ (map fst (map_to_list given))); [|reflexivity].
    destruct (fold_left _ _ _) as [r seqs].
    destruct (_ && _); [discriminate | reflexivity].
  - destruct (find_table s t) as [tbl|]; [|reflexivity].
    destruct (forallb _ (map fst set)); [|reflexivity].
    destruct (_ && _); [discriminate | reflexivity].
Qed.

Lemma consistent_rows d d' :
  rows d' = rows d -> consistent s d -> consistent s d'.
Proof.
  intros Hrows Hd. apply consistent_step with d; [exact Hd|].
  assert (Hsame : forall t, table_rows d' t = table_rows d t).
  { intros t. unfold table_rows. now rewrite Hrows. }
  intros t r Ht Hr. right. rewrite Hsame in Hr. split; [exact Hr|].
  intros c Hc Hcol. apply column_holds_reference in Hcol.
  revert Hcol. unfold reference_holds.
  destruct (col_references c) as [ref|]; [|reflexivity].
  apply referenced_mono. intros r'. now rewrite Hsame.
Qed.

Lemma exec_update_parts now t set where_ d :
  fst (exec s now (UPDATE t set where_) d) = true ->
  exists tbl,
    find_table s t = Some tbl /\
    let l := map (fun r => if where_ r then updated s now t set r else r)
                 (table_rows d t) in
    let d' := set_rows d t l in
    snd (exec s now (UPDATE t set where_) d) = d' /\
    forallb (fun r => row_holds d' tbl (updated s now t set r))
            (List.filter where_ (table_rows d t)) = true /\
    references_to s d' t = true.
Proof.
  unfold exec. destruct (find_table s t) as [tbl|]; [|discriminate].
  destruct (forallb _ (map fst set)); [|discriminate].
  match goal with
  | |- fst (if ?a && ?b && ?c then _ else _) = _ -> _ =>
      destruct a eqn:Ha; [|discriminate];
      destruct b eqn:Hb; [|discriminate];
      destruct c eqn:Hc; [|discriminate]
  end.
  intros _. exists tbl. cbn zeta.
  repeat split; first [assumption | reflexivity].
Qed.

Lemma references_to_holds d t t' c ref r :
  references_to s d t = true ->
  In t' (tables s) -> In c (tbl_columns t') ->
  col_references c = Some ref -> ref_table ref = t ->
  In r (table_rows d (tbl_name t')) ->
  referenced d ref (cell r (col_name c)) = true.
Proof.
  unfold references_to. rewrite forallb_forall. intros H Ht' Hc Href Ht Hr.
  specialize (H t' Ht'). rewrite forallb_forall in H.
  specialize (H c Hc). rewrite Href in H.
  rewrite Ht, String.eqb_refl in H. simpl in H.
  rewrite forallb_forall in H. auto.
Qed.

(** Every statement keeps the state consistent. *)
Lemma exec_consistent now st d :
  consistent s d -> consistent s (snd (exec s now st d)).
Proof.
  intros Hd.
  destruct (fst (exec s now st d)) eqn:Haccepted;
    [|apply (consistent_rows d); [now apply exec_rejected | exact Hd]].
  destruct st as [t given|t set where_].
  - destruct (exec_insert_rows now t given d Haccepted)
      as (tbl & r & Hfind & Hrow & Hrows).
    apply consistent_step with d; [exact Hd|].
    intros t' r' Ht' Hr'. rewrite Hrows in Hr'.
    assert (Hrefs : forall c, In c (tbl_columns t') ->
              column_holds d c (cell r' (col_name c)) = true ->
              reference_holds (snd (exec s now (INSERT t given) d)) c
                (cell r' (col_name c)) = true).
    { intros c Hc Hcol. apply column_holds_reference in Hcol.
      revert Hcol. unfold reference_holds.
      destruct (col_references c) as [ref|]; [|reflexivity].
      apply referenced_mono. intros r0 Hr0. rewrite Hrows.
      destruct (String.eqb_spec t (ref_table ref)) as [->|_]; [|exact Hr0].
      apply in_or_app. now left. }
    destruct (String.eqb_spec t (tbl_name t')) as [->|Hne]; [|now right].
    apply in_app_or in Hr' as [Hold|[<-|[]]]; [now right|].
    left. now rewrite (find_table_named t' tbl Ht' Hfind) in Hrow.
  - destruct (exec_update_parts now t set where_ d Haccepted)
      as (tbl & Hfind & Hd' & Hnew & Hrefs).
    cbn zeta in Hd', Hnew, Hrefs. rewrite Hd'.
    set (l := map (fun r => if where_ r then updated s now t set r else r)
                  (table_rows d t)) in *.
    apply consistent_step with d; [exact Hd|].
    intros t' r' Ht' Hr'.
    assert (Hkeeps : forall c, In c (tbl_columns t') ->
              column_holds d c (cell r' (col_name c)) = true ->
              reference_holds (set_rows d t l) c (cell r' (col_name c)) = true).
    { intros c Hc Hcol. apply column_holds_reference in Hcol.
      revert Hcol. unfold reference_holds.
      destruct (col_references c) as [ref|] eqn:Href; [|reflexivity].
      destruct (String.eqb_spec (ref_table ref) t) as [Heq|Hne].
      - intros _. now apply (references_to_holds _ t t' c ref r').
      - apply referenced_mono. intros r0.
        rewrite table_rows_set_rows_ne; auto. }
    destruct (String.eqb_spec t (tbl_name t')) as [Heq|Hne].
    + rewrite <- Heq, table_rows_set_rows_eq in Hr'.
      subst l. apply in_map_iff in Hr' as (r0 & Hr0 & Hin).
      destruct (where_ r0) eqn:Hwhere.
      * left. subst r'. subst t.
        rewrite (find_table_named t' tbl Ht' Hfind) in Hnew.
        rewrite forallb_forall in Hnew. apply Hnew.
        apply filter_In. now split.
      * right. subst r0. rewrite <- Heq. split; [exact Hin|].
        intros c Hc. apply Hkeeps. exact Hc.
    + right. rewrite table_rows_set_rows_ne in Hr' by exact Hne.
      split; [exact Hr'|]. exact Hkeeps.
Qed.

Lemma empty_consistent : consistent s empty.
Proof. intros t r _ Hr. destruct Hr. Qed.

Lemma run_consistent l : forall d, consistent s d -> consistent s (run s l d).
Proof.
  unfold run. induction l as [|[now st] l IH]; intros d Hd; simpl; [exact Hd|].
  apply IH. now apply exec_consistent.
Qed.

End Statements.

(** ** What the column constraints say of a value *)

Lemma value_eqb_eq a b : value_eqb a b = true -> a = b.
Proof.
  destruct a, b; simpl; try discriminate; try reflexivity; intros H; f_equal;
    first [ now apply Z.eqb_eq | now apply String.eqb_eq
          | now apply Bool.eqb_prop ].
Qed.

Section Columns.
Variables (d : db) (c : column) (v : value).
Hypothesis holds : column_holds d c v = true.
Hypothesis is_required : required c = true.

Lemma holds_parts :
  has_type (col_type c) v = true /\ is_null v = false /\
  check_holds c v = true /\ reference_holds d c v = true.
Proof.
  unfold column_holds in holds. rewrite is_required in holds.
  apply andb_prop in holds as [H Href]. apply andb_prop in H as [H Hcheck].
  apply andb_prop in H as [Htype Hnull].
  destruct (is_null v); [discriminate|]. auto.
Qed.

Lemma positive_decimal p sc :
  col_type c = DECIMAL p sc -> col_check c = Some (GT 0) ->
  exists u, v = Decimal u /\ (0 < u)%Z.
Proof.
  destruct holds_parts as (Htype & Hnull & Hcheck & _). intros Hc Hk.
  unfold check_holds in Hcheck. rewrite Hc in Htype. rewrite Hk in Hcheck.
  destruct v as [| | | |u| |]; try discriminate.
  exists u. split; [reflexivity|]. apply Z.ltb_lt in Hcheck. lia.
Qed.

Lemma text_among n l :
  col_type c = VARCHAR n -> col_check c = Some (IN l) ->
  exists t, v = Text t /\ In t l.
Proof.
  destruct holds_parts as (Htype & Hnull & Hcheck & _). intros Hc Hk.
  unfold check_holds in Hcheck. rewrite Hc in Htype. rewrite Hk in Hcheck.
  destruct v as [| |t| | | |]; try discriminate.
  exists t. split; [reflexivity|].
  apply existsb_exists in Hcheck as (t' & Hin & Heq).
  apply String.eqb_eq in Heq. now subst.
Qed.

Lemma integer_key ref :
  col_type c = INTEGER -> col_references c = Some ref ->
  exists id r, v = Int id /\ In r (table_rows d (ref_table ref)) /\
               cell r (ref_column ref) = Int id.
Proof.
  destruct holds_parts as (Htype & Hnull & _ & Href). intros Hc Hr.
  unfold reference_holds, referenced in Href.
  rewrite Hc in Htype. rewrite Hr, Hnull in Href.
  destruct v as [|id| | | | |]; try discriminate.
  apply existsb_exists in Href as (r & Hin & Heq).
  apply value_eqb_eq in Heq. eauto.
Qed.

Lemma date_present : col_type c = DATE -> exists day, v = Date day.
Proof.
  destruct holds_parts as (Htype & Hnull & _ & _). intros Hc.
  rewrite Hc in Htype. destruct v as [| | | | |day|]; try discriminate.
  eauto.
Qed.

End Columns.

Lemma finance_names_distinct : List.NoDup (map tbl_name (tables finance)).
Proof. repeat constructor; simpl; intuition discriminate. Qed.

(** C9. After any sequence of inserts and updates, every row of
    transactions has a strictly positive amount, the type 'income' or
    'expense', a user_id that is the id of a row of users, and a
    transaction date; and a statement that is rejected, as one that breaks
    a constraint is, leaves the rows of every table as they were. *)
Theorem transactions_rows_valid (l : list (Z * statement)) :
  let d := run finance l empty in
  (forall r, In r (table_rows d "transactions") ->
     (exists u, cell r "amount" = Decimal u /\ (0 < u)%Z) /\
     (cell r "type" = Text "income" \/ cell r "type" = Text "expense") /\
     (exists id usr, cell r "user_id" = Int id /\
                     In usr (table_rows d "users") /\
                     cell usr "id" = Int id) /\
     (exists day, cell r "transaction_date" = Date day)) /\
  (forall now st d0,
     fst (exec finance now st d0) = false ->
     rows (snd (exec finance now st d0)) = rows d0).
Proof.
  intros d. split; [|intros now st d0; apply exec_rejected].
  intros r Hr.
  assert (Hd : consistent finance d).
  { apply run_consistent; [apply finance_names_distinct|].
    apply empty_consistent. }
  assert (Hrow : row_holds d transactions r = true).
  { apply Hd; [simpl; auto | exact Hr]. }
  assert (Hcol : forall c, In c (tbl_columns transactions) ->
                           column_holds d c (cell r (col_name c)) = true).
  { intros c. now apply row_holds_column. }
  pose (user_id :=
          REFERENCES "users" "id" CASCADE (NOT_NULL (col "user_id" INTEGER))).
  pose (type :=
          CHECK (IN ["income"; "expense"]) (NOT_NULL (col "type" (VARCHAR 20)))).
  pose (amount := CHECK (GT 0) (NOT_NULL (col "amount" (DECIMAL 12 2)))).
  pose (transaction_date := NOT_NULL (col "transaction_date" DATE)).
  split; [|split; [|split]].
  - apply (positive_decimal d amount _
             (Hcol amount ltac:(simpl; auto 10)) eq_refl 12%nat 2%nat
             eq_refl eq_refl).
  - destruct (text_among d type _ (Hcol type ltac:(simpl; auto 10)) eq_refl
                20%nat ["income"; "expense"] eq_refl eq_refl)
      as (t & Ht & [<-|[<-|[]]]); auto.
  - apply (integer_key d user_id _ (Hcol user_id ltac:(simpl; auto 10))
             eq_refl
             {| ref_table := "users"; ref_column := "id";
                on_delete := CASCADE |} eq_refl eq_refl).
  - apply (date_present d transaction_date _
             (Hcol transaction_date ltac:(simpl; auto 10)) eq_refl eq_refl).
Qed.

(** Statements that keep and that break the constraints of transactions,
    on a ledger with one user and one expense. *)
Example ledger_statements :
  fst (exec finance 102 (INSERT "transactions" (Examples.expense_of 1 990))
            Examples.ledger) = true /\
  fst (exec finance 102 (INSERT "transactions" (Examples.expense_of 1 0))
            Examples.ledger) = false /\
  fst (exec finance 102 (INSERT "transactions" (Examples.expense_of 2 990))
            Examples.ledger) = false /\
  fst (exec finance 102 Examples.describe Examples.ledger) = true /\
  fst (exec finance 102 Examples.negate Examples.ledger) = false /\
  length (table_rows Examples.ledger "transactions") = 1%nat.
Proof. vm_compute. repeat split. Qed.

Lemma update_sets_updated_at_witness :
  let d' := snd (exec finance 102 Examples.describe Examples.ledger) in
  Forall2 (fun old new : row =>
             new !! "updated_at" = Some (Timestamp 102) /\
             new !! "description" = Some (Text "обед") /\
             new !! "amount" = old !! "amount")
          (table_rows Examples.ledger "transactions")
          (table_rows d' "transactions").
Proof.
  intros d'.
  destruct (update_sets_updated_at 102 "transactions"
              [("description", fun _ => Text "обед")] (fun _ => true)
              Examples.ledger d' (or_intror eq_refl))
    as [Hrows _]; [vm_compute; reflexivity|].
  eapply Forall2_impl; [exact Hrows|]. cbv beta.
  intros old new [Hstamp Hother]. split; [exact Hstamp|].
  split; rewrite Hother by discriminate; unfold assign; cbn [fold_left].
  - apply lookup_insert_eq.
  - apply lookup_insert_ne. discriminate.
Defined.

End SchemaProofs.

(* ===================================================================== *)
(** * More on statements: keys and defaults                              *)
(* ===================================================================== *)

Module DatabaseExtras.
Import Schema Database Migrations SchemaProofs.

(** ** What an accepted statement has checked *)

Lemma exec_insert_inv s now t given d d' :
  exec s now (INSERT t given) d = (true, d') ->
  exists tbl r seqs,
    find_table s t = Some tbl /\
    forallb (has_column tbl) (map fst (map_to_list given)) = true /\
    fold_left (fill now t given) (tbl_columns tbl) (∅, sequences d) = (r, seqs) /\
    d' = set_rows {| rows := rows d; sequences := seqs |} t
                  (table_rows d t ++ [r])%list /\
    row_holds d' tbl r = true /\
    unique_holds tbl (table_rows d t ++ [r])%list = true.
Proof.
  unfold exec. destruct (find_table s t) as [tbl|]; [|discriminate].
  destruct (forallb _ (map fst (map_to_list given))) eqn:Hcols; [|discriminate].
  destruct (fold_left _ _ _) as [r seqs] eqn:Hfill.
  destruct (row_holds _ tbl r) eqn:Hrow; [|discriminate].
  destruct (unique_holds _ _) eqn:Huniq; [|discriminate].
  cbn [andb]. intros [= <-]. exists tbl, r, seqs. repeat split; assumption.
Qed.

Lemma exec_update_inv s now t set where_ d d' :
  exec s now (UPDATE t set where_) d = (true, d') ->
  exists tbl,
    find_table s t = Some tbl /\
    d' = set_rows d t (map (fun r => if where_ r then updated s now t set r
                                     else r) (table_rows d t)) /\
    unique_holds tbl (table_rows d' t) = true.
Proof.
  unfold exec. destruct (find_table s t) as [tbl|]; [|discriminate].
  destruct (forallb _ (map fst set)); [|discriminate].
  match goal with
  | |- (if ?a && ?b && ?c then _ else _) = _ -> _ =>
      destruct a; [|discriminate];
      destruct b eqn:Hb; [|discriminate];
      destruct c; [|discriminate]
  end.
  intros [= <-]. exists tbl. split; [reflexivity|]. split; [reflexivity|].
  rewrite table_rows_set_rows_eq. exact Hb.
Qed.

Lemma table_rows_drawn d seqs t :
  table_rows {| rows := rows d; sequences := seqs |} t = table_rows d t.
Proof. reflexivity. Qed.

(** ** Keys stay distinct *)

Section Keys.
Variable s : schema.
Hypothesis names_distinct : List.NoDup (map tbl_name (tables s)).

Lemma exec_keys_distinct now st d :
  keys_distinct s d -> keys_distinct s (snd (exec s now st d)).
Proof.
  intros Hd. destruct (exec s now st d) as [accepted d'] eqn:Hexec.
  cbn [snd]. destruct accepted.
  - destruct st as [t given|t set where_].
    + apply exec_insert_inv in Hexec
        as (tbl & r & seqs & Hfind & _ & _ & -> & _ & Huniq).
      intros t' Ht'. destruct (String.eqb_spec t (tbl_name t')) as [->|Hne].
      * rewrite table_rows_set_rows_eq.
        rewrite (find_table_named s names_distinct t' tbl Ht' Hfind) in Huniq.
        exact Huniq.
      * rewrite table_rows_set_rows_ne by exact Hne. apply Hd, Ht'.
    + apply exec_update_inv in Hexec as (tbl & Hfind & Hd' & Huniq).
      intros t' Ht'. destruct (String.eqb_spec t (tbl_name t')) as [->|Hne].
      * rewrite (find_table_named s names_distinct t' tbl Ht' Hfind) in Huniq.
        exact Huniq.
      * rewrite Hd', table_rows_set_rows_ne by exact Hne. apply Hd, Ht'.
  - pose proof (exec_rejected s now st d) as Hrows.
    rewrite Hexec in Hrows. specialize (Hrows eq_refl). cbn [snd] in Hrows.
    intros t' Ht'. unfold table_rows. rewrite Hrows. apply Hd, Ht'.
Qed.

Lemma run_keys_distinct l : forall d,
  keys_distinct s d -> keys_distinct s (run s l d).
Proof.
  unfold run. induction l as [|[now st] l IH]; intros d Hd; simpl; [exact Hd|].
  apply IH. apply exec_keys_distinct. exact Hd.
Qed.

End Keys.

Lemma empty_keys_distinct s : keys_distinct s empty.
Proof.
  intros t _. unfold unique_holds, table_rows. simpl.
  apply forallb_forall. intros c _. apply orb_true_r.
Qed.

(** Two positions of a list of distinct values hold different values,
    unless they hold [NULL]. *)
Lemma distinct_lookup (l : list value) :
  distinct l = true ->
  forall i j x, (i < j)%nat -> nth_error l i = Some x ->
                nth_error l j = Some x -> x = NULL.
Proof.
  induction l as [|v l IH]; simpl; intros Hd i j x Hij Hi Hj.
  - destruct i; discriminate.
  - apply andb_prop in Hd as [Hv Hd].
    destruct j as [|j]; [lia|]. destruct i as [|i]; simpl in *.
    + injection Hi as ->. apply orb_true_iff in Hv as [Hnull|Hnot].
      * destruct x; try discriminate. reflexivity.
      * exfalso. apply negb_true_iff in Hnot.
        assert (Hex : existsb (value_eqb x) l = true); [|congruence].
        apply existsb_exists. exists x. split.
        -- eapply nth_error_In. exact Hj.
        -- destruct x; simpl;
             auto using Z.eqb_refl, String.eqb_refl, Bool.eqb_reflx.
    + apply (IH Hd i j); auto. lia.
Qed.

(** X2. After any sequence of inserts and updates, no two rows of a table
    agree on a primary key or on a column declared UNIQUE: users on id and
    telegram_user_id, categories on id and name, transactions on id. *)
Theorem keys_stay_distinct (l : list (Z * statement)) (t : table) (c : column)
    (i j : nat) (ri rj : row) :
  let d := run finance l empty in
  In t (tables finance) -> In c (tbl_columns t) ->
  col_primary_key c || col_unique c = true ->
  i <> j ->
  nth_error (table_rows d (tbl_name t)) i = Some ri ->
  nth_error (table_rows d (tbl_name t)) j = Some rj ->
  cell ri (col_name c) <> cell rj (col_name c).
Proof.
  intros d Ht Hc Hkey Hij Hi Hj Heq.
  assert (Hcons : consistent finance d).
  { apply run_consistent; [apply finance_names_distinct|].
    apply empty_consistent. }
  assert (Hkeys : keys_distinct finance d).
  { apply run_keys_distinct; [apply finance_names_distinct|].
    apply empty_keys_distinct. }
  assert (Hreq : required c = true).
  { assert (Hall : forallb (fun t => forallb (fun c =>
               implb (col_primary_key c || col_unique c) (required c))
               (tbl_columns t)) (tables finance) = true) by reflexivity.
    rewrite forallb_forall in Hall. specialize (Hall t Ht).
    rewrite forallb_forall in Hall. specialize (Hall c Hc).
    rewrite Hkey in Hall. exact Hall. }
  assert (Hnull : is_null (cell ri (col_name c)) = false).
  { apply nth_error_In in Hi.
    pose proof (row_holds_column _ _ _ _ (Hcons t ri Ht Hi) Hc) as Hcol.
    apply (holds_parts d c _ Hcol Hreq). }
  specialize (Hkeys t Ht). unfold unique_holds in Hkeys.
  rewrite forallb_forall in Hkeys. specialize (Hkeys c Hc).
  rewrite (orb_comm (col_unique c)), Hkey in Hkeys. cbn [negb orb] in Hkeys.
  set (vs := map (fun r => cell r (col_name c)) (table_rows d (tbl_name t))) in *.
  assert (Hvi : nth_error vs i = Some (cell ri (col_name c))).
  { unfold vs. rewrite nth_error_map, Hi. reflexivity. }
  assert (Hvj : nth_error vs j = Some (cell ri (col_name c))).
  { unfold vs. rewrite nth_error_map, Hj, Heq. reflexivity. }
  assert (Hx : cell ri (col_name c) = NULL).
  { destruct (Nat.lt_total i j) as [Hlt|[Heq'|Hgt]]; [|contradiction|].
    - apply (distinct_lookup vs Hkeys i j); assumption.
    - apply (distinct_lookup vs Hkeys j i); assumption. }
  rewrite Hx in Hnull. discriminate.
Qed.

Lemma keys_stay_distinct_witness :
  exists ri rj,
    nth_error (table_rows (run finance two_users empty) "users") 0 = Some ri /\
    nth_error (table_rows (run finance two_users empty) "users") 1 = Some rj /\
    cell ri "telegram_user_id" <> cell rj "telegram_user_id".
Proof.
  eexists. eexists.
  split; [vm_compute; reflexivity|]. split; [vm_compute; reflexivity|].
  apply (keys_stay_distinct two_users users
           (NOT_NULL (UNIQUE (col "telegram_user_id" BIGINT))) 0 1).
  - simpl. auto.
  - simpl. auto.
  - reflexivity.
  - discriminate.
  - vm_compute. reflexivity.
  - vm_compute. reflexivity.
Defined.

(** ** The row an INSERT stores *)

Lemma length_append (a b : string) :
  String.length (String.append a b) = (String.length a + String.length b)%nat.
Proof.
  induction a as [|x a IH]; [reflexivity|].
  change (S (String.length (String.append a b))
          = S (String.length a + String.length b)).
  now rewrite IH.
Qed.

Lemma append_inj_l (a x y : string) :
  String.append a x = String.append a y -> x = y.
Proof.
  induction a as [|c a IH]; [auto|].
  change (String c (String.append a x) = String c (String.append a y) -> x = y).
  intros [= H]. auto.
Qed.

Lemma append_inj_r (s x : string) : forall y,
  String.append x s = String.append y s -> x = y.
Proof.
  induction x as [|a x IH]; intros [|b y] H.
  - reflexivity.
  - apply (f_equal String.length) in H. rewrite !length_append in H.
    cbn [String.length] in H. lia.
  - apply (f_equal String.length) in H. rewrite !length_append in H.
    cbn [String.length] in H. lia.
  - change (String a (String.append x s) = String b (String.append y s)) in H.
    injection H as -> H. f_equal. auto.
Qed.

(** Different columns of a table draw from different sequences. *)
Lemma sequence_name_inj t c c' :
  sequence_name t c = sequence_name t c' -> c = c'.
Proof.
  unfold sequence_name. intros H.
  apply append_inj_l, append_inj_l in H. now apply append_inj_r in H.
Qed.

Section Fill.
Variables (now : Z) (t : string) (given : row).

Lemma fill_row acc c :
  fst (fill now t given acc c)
  = <[col_name c := filled now t given (snd acc) c]> (fst acc).
Proof.
  destruct acc as [r seqs]. unfold fill, filled. cbn [fst snd].
  destruct (given !! col_name c); [reflexivity|].
  destruct (is_serial (col_type c)); [reflexivity|].
  destruct (col_default c); reflexivity.
Qed.

Lemma fill_sequences acc c name :
  sequence_name t (col_name c) <> name ->
  snd (fill now t given acc c) !! name = snd acc !! name.
Proof.
  destruct acc as [r seqs]. unfold fill. cbn [snd]. intros Hne.
  destruct (given !! col_name c); [reflexivity|].
  destruct (is_serial (col_type c)).
  - cbn [snd]. now rewrite lookup_insert_ne.
  - destruct (col_default c); reflexivity.
Qed.

Lemma fill_fold_other cols : forall acc k,
  ~ In k (map col_name cols) ->
  fst (fold_left (fill now t given) cols acc) !! k = fst acc !! k.
Proof.
  induction cols as [|c cols IH]; intros acc k Hk; simpl; [reflexivity|].
  rewrite IH by (simpl in Hk; tauto).
  rewrite fill_row, lookup_insert_ne; [reflexivity|].
  simpl in Hk. tauto.
Qed.

Lemma fill_fold_lookup cols : forall acc c,
  List.NoDup (map col_name cols) -> In c cols ->
  fst (fold_left (fill now t given) cols acc) !! col_name c
  = Some (filled now t given (snd acc) c).
Proof.
  induction cols as [|c0 cols IH]; intros acc c Hnd Hin; [destruct Hin|].
  simpl in Hnd. apply List.NoDup_cons_iff in Hnd as [Hnot Hnd].
  simpl. destruct Hin as [->|Hin].
  - rewrite fill_fold_other by exact Hnot.
    rewrite fill_row. apply lookup_insert_eq.
  - rewrite (IH _ c Hnd Hin). f_equal. unfold filled.
    rewrite fill_sequences; [reflexivity|].
    intros Heq. apply sequence_name_inj in Heq.
    apply Hnot. rewrite Heq. now apply in_map.
Qed.

End Fill.

Lemma finance_columns_distinct tbl :
  In tbl (tables finance) -> List.NoDup (map col_name (tbl_columns tbl)).
Proof.
  intros Hin.
  assert (Hall : forallb (fun t => bool_decide
                   (NoDup (map col_name (tbl_columns t)))) (tables finance)
                 = true) by (vm_compute; reflexivity).
  rewrite forallb_forall in Hall. specialize (Hall tbl Hin).
  apply bool_decide_eq_true in Hall. apply NoDup_ListNoDup. exact Hall.
Qed.

(** ** The rows of users and categories *)

Section MoreColumns.
Variables (d : db) (c : column) (v : value).
Hypothesis holds : column_holds d c v = true.

Lemma integer_present :
  required c = true -> is_serial (col_type c) = true \/ col_type c = BIGINT ->
  exists z, v = Int z.
Proof.
  intros Hreq Htype.
  destruct (holds_parts d c v holds Hreq) as (Hty & Hnull & _ & _).
  destruct v as [|z| | | | |]; try discriminate; [eauto| | | | |];
    destruct Htype as [Hs|Hb];
    first [ rewrite Hb in Hty; discriminate
          | destruct (col_type c); discriminate ].
Qed.

Lemma text_present n :
  required c = true -> col_type c = VARCHAR n ->
  exists t, v = Text t /\ (characters t <= n)%nat.
Proof.
  intros Hreq Htype.
  destruct (holds_parts d c v holds Hreq) as (Hty & Hnull & _ & _).
  rewrite Htype in Hty. destruct v as [| |t| | | |]; try discriminate.
  exists t. split; [reflexivity|]. now apply Nat.leb_le.
Qed.

Lemma optional_key ref :
  col_type c = INTEGER -> col_references c = Some ref ->
  v = NULL \/
  exists id r, v = Int id /\ In r (table_rows d (ref_table ref)) /\
               cell r (ref_column ref) = Int id.
Proof.
  intros Htype Href. unfold column_holds in holds.
  apply andb_prop in holds as [H Hr]. apply andb_prop in H as [H _].
  apply andb_prop in H as [Hty _].
  unfold reference_holds, referenced in Hr. rewrite Href in Hr.
  rewrite Htype in Hty. destruct v as [|id| | | | |]; try discriminate.
  - now left.
  - right. cbn [is_null orb] in Hr.
    apply existsb_exists in Hr as (r & Hin & Heq).
    apply value_eqb_eq in Heq. eauto.
Qed.

End MoreColumns.

(** X4. After any sequence of inserts and updates: every row of users has
    an integer id and an integer telegram_user_id; every row of categories
    has an integer id, a name, an icon of at most 10 characters and the type
    'income' or 'expense'; and the category_id of every row of transactions
    is NULL or the id of a row of categories. *)
Theorem users_and_categories_rows_valid (l : list (Z * statement)) :
  let d := run finance l empty in
  (forall r, In r (table_rows d "users") ->
     (exists id, cell r "id" = Int id) /\
     (exists tg, cell r "telegram_user_id" = Int tg)) /\
  (forall r, In r (table_rows d "categories") ->
     (exists id, cell r "id" = Int id) /\
     (exists n, cell r "name" = Text n /\ (characters n <= 100)%nat) /\
     (exists i, cell r "icon" = Text i /\ (characters i <= 10)%nat) /\
     (cell r "type" = Text "income" \/ cell r "type" = Text "expense")) /\
  (forall r, In r (table_rows d "transactions") ->
     cell r "category_id" = NULL \/
     exists id cat, cell r "category_id" = Int id /\
                    In cat (table_rows d "categories") /\
                    cell cat "id" = Int id).
Proof.
  intros d.
  assert (Hd : consistent finance d).
  { apply run_consistent; [apply finance_names_distinct|].
    apply empty_consistent. }
  assert (Hcol : forall t r c, In t (tables finance) ->
            In r (table_rows d (tbl_name t)) -> In c (tbl_columns t) ->
            column_holds d c (cell r (col_name c)) = true).
  { intros t r c Ht Hr Hc. apply (row_holds_column d t r c); auto. }
  pose (id := PRIMARY_KEY (col "id" SERIAL)).
  pose (telegram_user_id := NOT_NULL (UNIQUE (col "telegram_user_id" BIGINT))).
  pose (name := UNIQUE (NOT_NULL (col "name" (VARCHAR 100)))).
  pose (icon := NOT_NULL (col "icon" (VARCHAR 10))).
  pose (type := CHECK (IN ["income"; "expense"])
                      (NOT_NULL (col "type" (VARCHAR 20)))).
  pose (category_id :=
          REFERENCES "categories" "id" SET_NULL (col "category_id" INTEGER)).
  split; [|split].
  - intros r Hr. split.
    + apply (integer_present d id _
               (Hcol users r id ltac:(simpl; auto) Hr ltac:(simpl; auto))
               eq_refl). now left.
    + apply (integer_present d telegram_user_id _
               (Hcol users r telegram_user_id ltac:(simpl; auto) Hr
                     ltac:(simpl; auto))
               eq_refl). now right.
  - intros r Hr. split; [|split; [|split]].
    + apply (integer_present d id _
               (Hcol categories r id ltac:(simpl; auto) Hr ltac:(simpl; auto))
               eq_refl). now left.
    + apply (text_present d name _
               (Hcol categories r name ltac:(simpl; auto) Hr
                     ltac:(simpl; auto))
               100%nat eq_refl eq_refl).
    + apply (text_present d icon _
               (Hcol categories r icon ltac:(simpl; auto) Hr
                     ltac:(simpl; auto))
               10%nat eq_refl eq_refl).
    + destruct (text_among d type _
                  (Hcol categories r type ltac:(simpl; auto) Hr
                        ltac:(simpl; auto 10))
                  eq_refl 20%nat ["income"; "expense"] eq_refl eq_refl)
        as (t & Ht & [<-|[<-|[]]]); auto.
  - intros r Hr.
    apply (optional_key d category_id _
             (Hcol transactions r category_id ltac:(simpl; auto) Hr
                   ltac:(simpl; auto 10))
             {| ref_table := "categories"; ref_column := "id";
                on_delete := SET_NULL |} eq_refl eq_refl).
Qed.

End DatabaseExtras.

(* ===================================================================== *)
(** * The seed migration                                                 *)
(* ===================================================================== *)

Module SeedProofs.
Import Schema Database Migrations SchemaProofs DatabaseExtras.

Lemma find_categories : find_table finance "categories" = Some categories.
Proof. reflexivity. Qed.

Lemma value_eqb_refl v : value_eqb v v = true.
Proof.
  destruct v; simpl;
    auto using Z.eqb_refl, String.eqb_refl, Bool.eqb_reflx.
Qed.

Lemma conflicts_rows d d' t c v :
  rows d' = rows d -> conflicts d' t c v = conflicts d t c v.
Proof. intros H. unfold conflicts, table_rows. now rewrite H. Qed.

Lemma conflicts_In d t c v r :
  is_null v = false -> In r (table_rows d t) -> cell r c = v ->
  conflicts d t c v = true.
Proof.
  intros Hnull Hin Hv. unfold conflicts. rewrite Hnull. simpl.
  apply existsb_exists. exists r. split; [exact Hin|].
  rewrite Hv. apply value_eqb_refl.
Qed.

Lemma conflicts_grow d d' t c v :
  (forall r, In r (table_rows d t) -> In r (table_rows d' t)) ->
  conflicts d t c v = true -> conflicts d' t c v = true.
Proof.
  unfold conflicts. intros Hsub H. apply andb_prop in H as [Hnull H].
  rewrite Hnull. simpl. apply existsb_exists in H as (r & Hr & Hv).
  apply existsb_exists. exists r. auto.
Qed.

(** The row built for categories holds, column by column, the value given
    or the default. *)
Lemma built_categories now given d r seqs :
  built finance now "categories" given d = Some (r, seqs) ->
  forall c, In c (tbl_columns categories) ->
    cell r (col_name c)
    = filled now "categories" given (sequences d) c.
Proof.
  unfold built. rewrite find_categories. intros Hbuilt c Hc.
  pose proof (fill_fold_lookup now "categories" given _ (∅, sequences d) c
                (finance_columns_distinct categories ltac:(simpl; auto)) Hc)
    as H.
  assert (Hfill : fold_left (fill now "categories" given)
                    (tbl_columns categories) (∅, sequences d) = (r, seqs))
    by congruence.
  rewrite Hfill in H. unfold cell. cbn [fst snd] in H. rewrite H. reflexivity.
Qed.

(** One row of the statement: the rows of categories only grow, and the
    name given is taken afterwards. *)
Lemma insert_do_nothing_step now d given d' :
  insert_do_nothing finance now "categories" "name" (Some d) given = Some d' ->
  (forall t r, In r (table_rows d t) -> In r (table_rows d' t)) /\
  (forall v, given !! "name" = Some v -> is_null v = false ->
             conflicts d' "categories" "name" v = true).
Proof.
  unfold insert_do_nothing. rewrite find_categories.
  destruct (built finance now "categories" given d) as [[r seqs]|] eqn:Hbuilt;
    [|discriminate].
  destruct (_ && _); [|discriminate].
  pose proof (built_categories now given d r seqs Hbuilt
                (UNIQUE (NOT_NULL (col "name" (VARCHAR 100))))
                ltac:(simpl; auto)) as Hname.
  cbn [col_name UNIQUE NOT_NULL col] in Hname.
  destruct (conflicts d "categories" "name" (cell r "name")) eqn:Hconf.
  - intros [= <-]. split; [auto|].
    intros v Hv Hnull. rewrite (conflicts_rows d) by reflexivity.
    rewrite Hname in Hconf. unfold filled in Hconf.
    cbn [col_name UNIQUE NOT_NULL col] in Hconf. rewrite Hv in Hconf.
    exact Hconf.
  - destruct (exec finance now (INSERT "categories" given) d)
      as [[|] d''] eqn:Hexec; [|discriminate].
    intros [= <-].
    apply exec_insert_inv in Hexec
      as (tbl & r' & seqs' & Hfind & _ & Hfill & -> & _ & _).
    rewrite find_categories in Hfind. injection Hfind as <-.
    unfold built in Hbuilt. rewrite find_categories, Hfill in Hbuilt.
    injection Hbuilt as -> ->. split.
    + intros t r0 Hr0. destruct (String.eqb_spec "categories" t) as [<-|Hne].
      * rewrite table_rows_set_rows_eq. apply in_or_app. now left.
      * rewrite table_rows_set_rows_ne by exact Hne. exact Hr0.
    + intros v Hv Hnull. apply (conflicts_In _ _ _ _ r); [exact Hnull| |].
      * rewrite table_rows_set_rows_eq. apply in_or_app. right. now left.
      * rewrite Hname. unfold filled.
        cbn [col_name UNIQUE NOT_NULL col]. rewrite Hv. reflexivity.
Qed.

Lemma insert_all_aborted now values :
  fold_left (insert_do_nothing finance now "categories" "name") values None
  = None.
Proof. induction values as [|g l IH]; simpl; auto. Qed.

Lemma insert_all_present now values : forall d d',
  insert_all_do_nothing finance now "categories" "name" values d = Some d' ->
  (forall t r, In r (table_rows d t) -> In r (table_rows d' t)) /\
  (forall g v, In g values -> g !! "name" = Some v -> is_null v = false ->
               conflicts d' "categories" "name" v = true).
Proof.
  unfold insert_all_do_nothing.
  induction values as [|g l IH]; intros d d' Hrun; cbn [fold_left] in Hrun.
  - injection Hrun as <-. split; [auto | intros g v []].
  - destruct (insert_do_nothing finance now "categories" "name" (Some d) g)
      as [d1|] eqn:Hstep; rewrite ?Hstep in Hrun;
      [|rewrite insert_all_aborted in Hrun; discriminate].
    apply insert_do_nothing_step in Hstep as [Hgrow1 Hname1].
    apply IH in Hrun as [Hgrow Hnames]. split; [auto|].
    intros g' v [<-|Hin] Hv Hnull; [|eauto].
    apply (conflicts_grow d1); [apply Hgrow|]. now apply Hname1.
Qed.

Lemma fallback_names_seeded :
  forallb (fun f =>
     existsb (fun g => value_eqb (cell g "name") (Text (name f)))
             (expense_categories ++ income_categories)%list)
    getFallbackCategories = true.
Proof. vm_compute. reflexivity. Qed.

(** X5. Once the seed migration has run on a database, whatever it held,
    the table categories has a row for every name among the categories the
    client falls back to. *)
Theorem seeded_names_cover_fallback (now : Z) (d d' : db) (f : category) :
  seed_categories now d = Some d' ->
  In f getFallbackCategories ->
  exists r, In r (table_rows d' "categories") /\ cell r "name" = Text (name f).
Proof.
  unfold seed_categories. intros Hrun Hf.
  destruct (insert_all_do_nothing finance now "categories" "name"
              expense_categories d) as [d1|] eqn:Hexpense; [|discriminate].
  apply insert_all_present in Hexpense as [_ Hexp].
  apply insert_all_present in Hrun as [Hgrow Hinc].
  pose proof fallback_names_seeded as Hall.
  rewrite forallb_forall in Hall. specialize (Hall f Hf).
  apply existsb_exists in Hall as (g & Hg & Hname).
  apply value_eqb_eq in Hname.
  assert (Hgname : g !! "name" = Some (Text (name f))).
  { unfold cell in Hname. destruct (g !! "name") as [v|]; simpl in Hname.
    - now subst.
    - discriminate. }
  assert (Hconf : conflicts d' "categories" "name" (Text (name f)) = true).
  { apply in_app_or in Hg as [Hg|Hg].
    - apply (conflicts_grow d1); [apply Hgrow|]. apply (Hexp g); auto.
    - apply (Hinc g); auto. }
  unfold conflicts in Hconf. simpl in Hconf.
  apply existsb_exists in Hconf as (r & Hr & Heq).
  apply value_eqb_eq in Heq. eauto.
Qed.

Lemma seeded_names_cover_fallback_witness :
  exists d',
    seed_categories 50 empty = Some d' /\
    map as_category (table_rows d' "categories")
    = map Some getFallbackCategories /\
    exists r, In r (table_rows d' "categories") /\ cell r "name" = Text "Прочее".
Proof.
  destruct (seed_categories 50 empty) as [d'|] eqn:Hrun;
    [|vm_compute in Hrun; discriminate Hrun].
  exists d'. split; [reflexivity|]. split.
  - assert (H : option_map (fun d => map as_category (table_rows d "categories"))
                  (seed_categories 50 empty)
                = Some (map Some getFallbackCategories))
      by (vm_compute; reflexivity).
    rewrite Hrun in H. cbn [option_map] in H. injection H as H. exact H.
  - apply (seeded_names_cover_fallback 50 empty d'
             {| id := 15; name := "Прочее"; icon := "❓"; type := "expense" |}
             Hrun).
    simpl. auto 20.
Defined.

(** ** Running the migration again *)

Section Drawn.
Variables (now : Z) (t : string) (given : row).

Lemma fill_fold_sequences_other cols : forall acc name,
  (forall c, In c cols -> sequence_name t (col_name c) <> name) ->
  snd (fold_left (fill now t given) cols acc) !! name = snd acc !! name.
Proof.
  induction cols as [|c cols IH]; intros acc name Hne; simpl; [reflexivity|].
  rewrite IH by (intros c' Hc'; apply Hne; now right).
  apply fill_sequences. apply Hne. now left.
Qed.

Lemma fill_sequence_drawn acc c :
  given !! col_name c = None -> is_serial (col_type c) = true ->
  snd (fill now t given acc c) !! sequence_name t (col_name c)
  = Some (default 0 (snd acc !! sequence_name t (col_name c)) + 1)%Z.
Proof.
  destruct acc as [r seqs]. unfold fill. intros -> ->. cbn [snd].
  apply lookup_insert_eq.
Qed.

Lemma fill_fold_drawn cols : forall acc c,
  List.NoDup (map col_name cols) -> In c cols ->
  given !! col_name c = None -> is_serial (col_type c) = true ->
  snd (fold_left (fill now t given) cols acc) !! sequence_name t (col_name c)
  = Some (default 0 (snd acc !! sequence_name t (col_name c)) + 1)%Z.
Proof.
  induction cols as [|c0 cols IH]; intros acc c Hnd Hin Hnone Hserial;
    [destruct Hin|].
  simpl in Hnd. apply List.NoDup_cons_iff in Hnd as [Hnot Hnd].
  assert (Hother : forall c', In c' cols -> col_name c' <> col_name c0).
  { intros c' Hc' Heq. apply Hnot. rewrite <- Heq. now apply in_map. }
  simpl. destruct Hin as [->|Hin].
  - rewrite fill_fold_sequences_other.
    + now apply fill_sequence_drawn.
    + intros c' Hc' Heq. apply sequence_name_inj in Heq.
      now apply (Hother c').
  - rewrite (IH _ c Hnd Hin Hnone Hserial). do 3 f_equal.
    apply fill_sequences. intros Heq. apply sequence_name_inj in Heq.
    apply (Hother c Hin). congruence.
Qed.

End Drawn.

Lemma seed_lookups n i ty :
  seed n i ty !! "id" = None /\
  seed n i ty !! "name" = Some (Text n) /\
  seed n i ty !! "icon" = Some (Text i) /\
  seed n i ty !! "type" = Some (Text ty) /\
  seed n i ty !! "is_active" = None /\
  forallb (has_column categories) (map fst (map_to_list (seed n i ty))) = true.
Proof. repeat split; vm_compute; reflexivity. Qed.

(** A row of the migration whose name is taken is skipped: only the
    sequence moves. *)
Lemma skip_step now d g :
  seedlike g ->
  (forall v, g !! "name" = Some v -> conflicts d "categories" "name" v = true) ->
  (0 <= categories_id_seq d)%Z -> (categories_id_seq d + 1 < 2 ^ 31)%Z ->
  exists d',
    insert_do_nothing finance now "categories" "name" (Some d) g = Some d' /\
    rows d' = rows d /\
    categories_id_seq d' = (categories_id_seq d + 1)%Z.
Proof.
  intros (n & i & ty & -> & Hfits) Htaken Hlo Hhi.
  destruct (seed_lookups n i ty) as (Hid & Hname & Hicon & Htype & Hactive & Hcols).
  unfold seed_fits in Hfits.
  apply andb_prop in Hfits as [Hfits Hty]. apply andb_prop in Hfits as [Hfits Hl3].
  apply andb_prop in Hfits as [Hl1 Hl2].
  unfold insert_do_nothing. rewrite find_categories.
  destruct (built finance now "categories" (seed n i ty) d)
    as [[r seqs]|] eqn:Hbuilt;
    [|unfold built in Hbuilt; rewrite find_categories in Hbuilt; discriminate].
  pose proof (built_categories now _ d r seqs Hbuilt) as Hcell.
  rewrite Hcols. cbn [andb].
  assert (Hlocal : row_local categories r = true).
  { unfold row_local. apply forallb_forall. intros c Hc.
    rewrite (Hcell c Hc). unfold filled, column_local.
    simpl in Hc. destruct Hc as [<-|[<-|[<-|[<-|[<-|[]]]]]];
      cbn [col_name col_type PRIMARY_KEY UNIQUE NOT_NULL CHECK DEFAULT col
           is_serial col_default eval];
      rewrite ?Hid, ?Hname, ?Hicon, ?Htype, ?Hactive.
    - unfold categories_id_seq in Hlo, Hhi.
      unfold has_type, within, required, check_holds. simpl.
      apply andb_true_intro. split; [|reflexivity].
      apply andb_true_intro. split; [|reflexivity].
      apply andb_true_intro. split; [apply Z.leb_le | apply Z.ltb_lt]; lia.
    - unfold has_type, required, check_holds. simpl. rewrite Hl1. reflexivity.
    - unfold has_type, required, check_holds. simpl. rewrite Hl2. reflexivity.
    - unfold has_type, required, check_holds. simpl. simpl in Hty.
      rewrite Hl3, Hty. reflexivity.
    - reflexivity. }
  rewrite Hlocal.
  assert (Hrname : cell r "name" = Text n).
  { pose proof (Hcell (UNIQUE (NOT_NULL (col "name" (VARCHAR 100))))
                  ltac:(simpl; auto)) as Hn.
    unfold filled in Hn. cbn [col_name UNIQUE NOT_NULL col] in Hn.
    rewrite Hname in Hn. exact Hn. }
  rewrite Hrname, (Htaken _ Hname).
  eexists. split; [reflexivity|]. split; [reflexivity|].
  unfold categories_id_seq. cbn [sequences].
  unfold built in Hbuilt. rewrite find_categories in Hbuilt.
  pose proof (fill_fold_drawn now "categories" (seed n i ty)
                (tbl_columns categories) (∅, sequences d)
                (PRIMARY_KEY (col "id" SERIAL))
                (finance_columns_distinct categories ltac:(simpl; auto))
                ltac:(simpl; auto) Hid eq_refl) as Hseq.
  assert (Hfill : fold_left (fill now "categories" (seed n i ty))
                    (tbl_columns categories) (∅, sequences d) = (r, seqs))
    by congruence.
  rewrite Hfill in Hseq. cbn [snd col_name PRIMARY_KEY col] in Hseq.
  rewrite Hseq. reflexivity.
Qed.

Lemma skip_all now values : forall d,
  Forall seedlike values ->
  (forall g v, In g values -> g !! "name" = Some v ->
               conflicts d "categories" "name" v = true) ->
  (0 <= categories_id_seq d)%Z ->
  (categories_id_seq d + Z.of_nat (length values) < 2 ^ 31)%Z ->
  exists d',
    insert_all_do_nothing finance now "categories" "name" values d = Some d' /\
    rows d' = rows d /\
    categories_id_seq d'
    = (categories_id_seq d + Z.of_nat (length values))%Z.
Proof.
  unfold insert_all_do_nothing.
  induction values as [|g l IH]; intros d Hseed Htaken Hlo Hhi.
  - exists d. cbn [fold_left length Z.of_nat]. repeat split. lia.
  - apply Forall_cons_iff in Hseed as [Hg Hl].
    cbn [length] in Hhi. rewrite Nat2Z.inj_succ in Hhi.
    destruct (skip_step now d g Hg) as (d1 & Hstep & Hrows & Hseq);
      [intros v; apply Htaken; now left | exact Hlo | lia |].
    destruct (IH d1 Hl) as (d' & Hrun & Hrows' & Hseq').
    + intros g' v Hin Hv. rewrite (conflicts_rows d) by exact Hrows.
      apply (Htaken g'); [now right | exact Hv].
    + lia.
    + lia.
    + exists d'. cbn [fold_left]. rewrite Hstep.
      split; [exact Hrun|]. split; [congruence|].
      cbn [length]. rewrite Nat2Z.inj_succ. lia.
Qed.

Lemma seeds_seedlike :
  Forall seedlike expense_categories /\ Forall seedlike income_categories.
Proof.
  split; repeat apply List.Forall_cons; try apply List.Forall_nil;
    (eexists _, _, _; split; [reflexivity | vm_compute; reflexivity]).
Qed.

Lemma seedlike_named g v :
  seedlike g -> g !! "name" = Some v -> is_null v = false.
Proof.
  intros (n & i & ty & -> & _) Hv.
  destruct (seed_lookups n i ty) as (_ & Hname & _). rewrite Hname in Hv.
  injection Hv as <-. reflexivity.
Qed.

(** X6. The seed migration can be run again: when it has been carried out
    once and the id sequence of categories has room for the twenty values
    the second run draws, the second run is carried out too and leaves the
    rows of every table as they are. *)
Theorem seed_categories_again (now now' : Z) (d d1 : db) :
  seed_categories now d = Some d1 ->
  (0 <= categories_id_seq d1)%Z ->
  (categories_id_seq d1 + 20 < 2 ^ 31)%Z ->
  exists d2, seed_categories now' d1 = Some d2 /\ rows d2 = rows d1.
Proof.
  unfold seed_categories. intros Hrun Hlo Hhi.
  destruct seeds_seedlike as [Hexp Hinc].
  destruct (insert_all_do_nothing finance now "categories" "name"
              expense_categories d) as [d0|] eqn:Hexpense; [|discriminate].
  apply insert_all_present in Hexpense as [_ Htaken0].
  apply insert_all_present in Hrun as [Hgrow Htaken1].
  destruct (skip_all now' expense_categories d1 Hexp)
    as (d1' & Hrun1 & Hrows1 & Hseq1).
  - intros g v Hg Hv. apply (conflicts_grow d0); [apply Hgrow|].
    apply (Htaken0 g); auto. apply (seedlike_named g); [|exact Hv].
    rewrite List.Forall_forall in Hexp. auto.
  - exact Hlo.
  - change (Z.of_nat (length expense_categories)) with 15%Z. lia.
  - change (Z.of_nat (length expense_categories)) with 15%Z in Hseq1.
    destruct (skip_all now' income_categories d1' Hinc)
      as (d2 & Hrun2 & Hrows2 & _).
    + intros g v Hg Hv. rewrite (conflicts_rows d1) by exact Hrows1.
      apply (Htaken1 g); auto. apply (seedlike_named g); [|exact Hv].
      rewrite List.Forall_forall in Hinc. auto.
    + lia.
    + change (Z.of_nat (length income_categories)) with 5%Z. lia.
    + exists d2. rewrite Hrun1. split; [exact Hrun2 | congruence].
Qed.

Lemma seed_categories_again_witness :
  exists d1 d2,
    seed_categories 50 empty = Some d1 /\
    seed_categories 60 d1 = Some d2 /\ rows d2 = rows d1.
Proof.
  destruct (seed_categories 50 empty) as [d1|] eqn:Hrun;
    [|vm_compute in Hrun; discriminate Hrun].
  assert (Hseq : option_map categories_id_seq (seed_categories 50 empty)
                 = Some 20%Z) by (vm_compute; reflexivity).
  rewrite Hrun in Hseq. cbn [option_map] in Hseq. injection Hseq as Hseq.
  destruct (seed_categories_again 50 60 empty d1 Hrun) as (d2 & Hagain & Hrows).
  - rewrite Hseq. lia.
  - rewrite Hseq. lia.
  - exists d1, d2. repeat split; assumption.
Defined.

End SeedProofs.

(* ===================================================================== *)
(** * More on the API client                                             *)
(* ===================================================================== *)

Module APIClientProofs.
Import JS API APIClient APIProofs.

(** ** Waiting *)

Lemma waited_backoff k : forall delay,
  waited (backoff delay (S k)) = (delay * (2 ^ Z.of_nat k - 1))%Z.
Proof.
  induction k as [|k IH]; intros delay.
  - rewrite backoff_one. simpl. lia.
  - rewrite backoff_next. cbn [waited fold_right]. fold (waited (backoff (delay * 2) (S k))).
    rewrite IH, Nat2Z.inj_succ, Z.pow_succ_r by lia. lia.
Qed.

Section Waiting.
Context {W A E : Type}.
Variable requestFn : W -> (E + A) * W.

(** X7. With [maxRetries >= 1] and a delay that is not negative,
    [retryRequest] waits at most [delay * (2^(maxRetries-1) - 1)]
    milliseconds in all (3000 for the defaults), and exactly that long
    before it throws. *)
Theorem retryRequest_total_wait (maxRetries delay : Z) (w : W) :
  (1 <= maxRetries)%Z -> (0 <= delay)%Z ->
  let '(o, trace, _) := retryRequest requestFn maxRetries delay w in
  (0 <= waited trace <= delay * (2 ^ (maxRetries - 1) - 1))%Z /\
  forall e, o = Thrown e ->
            waited trace = (delay * (2 ^ (maxRetries - 1) - 1))%Z.
Proof.
  intros Hmax Hdelay. unfold retryRequest.
  destruct (retry_from_spec requestFn maxRetries (Z.to_nat maxRetries) 0 delay w
              ltac:(lia) ltac:(lia))
    as (k & fs & r & w' & Hk & _ & _ & Hr).
  destruct k as [|k]; [lia|].
  assert (Hpos : (0 < 2 ^ Z.of_nat k)%Z) by (apply Z.pow_pos_nonneg; lia).
  assert (Hpow : (2 ^ Z.of_nat k <= 2 ^ (maxRetries - 1))%Z)
    by (apply Z.pow_le_mono_r; lia).
  destruct r as [e|a].
  - destruct Hr as [Hlast ->]. rewrite waited_backoff.
    replace (Z.of_nat k) with (maxRetries - 1)%Z by lia.
    split; [nia | reflexivity].
  - rewrite Hr, waited_backoff. split; [nia | discriminate].
Qed.

(** X8. With [maxRetries <= 0] the loop body never runs: [retryRequest]
    does not call [requestFn] at all and returns [undefined]. *)
Theorem retryRequest_without_attempts (maxRetries delay : Z) (w : W) :
  (maxRetries <= 0)%Z ->
  retryRequest requestFn maxRetries delay w = (ReturnedUndefined, [], w).
Proof.
  intros Hmax. unfold retryRequest.
  destruct (Z.to_nat maxRetries) as [|fuel] eqn:Hfuel; [reflexivity|].
  cbn [retry_from]. destruct (Z.ltb_spec 0 maxRetries); [lia | reflexivity].
Qed.

End Waiting.

Lemma retryRequest_total_wait_witness :
  let '(o, trace, _) := retryRequest Examples.flaky 3 1000 0%nat in
  (0 <= waited trace <= 3000)%Z.
Proof.
  pose proof (retryRequest_total_wait Examples.flaky 3 1000 0%nat
                ltac:(lia) ltac:(lia)) as H.
  destruct (retryRequest Examples.flaky 3 1000 0%nat) as [[o trace] w].
  exact (proj1 H).
Defined.

Lemma retryRequest_without_attempts_witness :
  retryRequest Examples.flaky 0 1000 0%nat = (ReturnedUndefined, [], 0%nat).
Proof. apply (retryRequest_without_attempts Examples.flaky 0 1000 0%nat). lia. Defined.

(** ** Error responses *)

Lemma or_else_nonempty a b : b <> EmptyString -> or_else a b <> EmptyString.
Proof. destruct a as [[|c s]|]; simpl; auto; try discriminate. Qed.

(** X9. The error that [handleError] builds never has an empty message
    and always carries the status of the response.  For a body that is a
    JSON object its message is the [message] field when that is a
    non-empty string, else the [error] field when that is one, else the
    default text; the status text is used only when the body is not JSON
    or is [null]. *)
Theorem handleError_message (r : response) :
  error_message (handleError r) <> EmptyString /\
  error_status (handleError r) = status r /\
  match json r with
  | JSONObject (Some (String c m)) _ =>
      error_message (handleError r) = String c m
  | JSONObject _ (Some (String c m)) =>
      error_message (handleError r) = String c m
  | JSONObject _ _ | JSONOther =>
      error_message (handleError r) = defaultMessage
  | JSONNull | NotJSON =>
      error_message (handleError r)
      = match statusText r with
        | EmptyString => defaultMessage
        | text => text
        end
  end.
Proof.
  assert (Hdefault : defaultMessage <> EmptyString) by discriminate.
  unfold handleError. cbn [error_message error_status].
  split; [|split; [reflexivity|]].
  - destruct (json r) as [| |message error|].
    + now apply or_else_nonempty.
    + now apply or_else_nonempty.
    + now apply or_else_nonempty, or_else_nonempty.
    + exact Hdefault.
  - destruct (json r) as [| |[[|c m]|] [[|c' m']|]|]; try reflexivity;
      destruct (statusText r); reflexivity.
Qed.

End APIClientProofs.

(* ===================================================================== *)
(** * Saving a transaction                                               *)
(* ===================================================================== *)

Module AppFlowsProofs.
Import JS JSFacts API APIProofs AppFlows.

Section Save.
Context `{N : Number} {L : NumberLaws N}.
Variables (telegramApp : bool) (send : @event N -> option string).

Lemma valid_checks (data : transaction_data) :
  valid (validateTransaction data) = true ->
  negb (string_truthy (type data))
  || negb (includes ["income"; "expense"] (type data)) = false /\
  negb (number_truthy (API.amount data)) || le_zero (API.amount data) = false /\
  negb (number_truthy (category_id data)) = false /\
  negb (string_truthy (date data)) = false.
Proof.
  unfold validateTransaction. cbn zeta. cbn [valid].
  match goal with
  | |- context [push_if ?b4 ?m4 (push_if ?b3 ?m3 (push_if ?b2 ?m2
                  (push_if ?b1 ?m1 []))) ] =>
      destruct (pushes b1 b2 b3 b4 m1 m2 m3 m4) as [Hvalid _]
  end.
  apply Hvalid.
Qed.

Lemma In_when (e e0 : @event N) : In e (when telegramApp e0) -> e = e0.
Proof.
  unfold when. destruct telegramApp; simpl; [|tauto].
  intros [H|[]]. now symmetry.
Qed.

Lemma requests_when (e : @event N) :
  is_request e = false -> List.filter is_request (when telegramApp e) = [].
Proof. intros He. unfold when. destruct telegramApp; simpl; now rewrite ?He. Qed.

(** X10. [saveTransaction] sends at most one request, and none for a form
    that [validateTransaction] rejects.  A request that is sent carries a
    type 'income' or 'expense', an amount above zero, a category and a
    date; it updates the transaction being edited and creates one
    otherwise.  The modal is closed only after a request has succeeded. *)
Theorem saveTransaction_requests (f : form) :
  let trace := saveTransaction telegramApp send f in
  (length (List.filter is_request trace) <= 1)%nat /\
  (forall e, In e trace -> is_request e = true ->
     e = match transactionId f with
         | EmptyString => CreateTransaction f
         | id => UpdateTransaction id f
         end /\
     (transactionType f = "income" \/ transactionType f = "expense") /\
     (exists a, amount f = Some a /\ ltb zero a = true) /\
     (exists c, categoryId f = Some c /\ truthy c = true) /\
     transactionDate f <> EmptyString) /\
  (In CloseModal trace ->
   exists e, In e trace /\ is_request e = true /\ send e = None).
Proof.
  cbn zeta. unfold saveTransaction.
  set (request := match transactionId f with
                  | EmptyString => CreateTransaction f
                  | id => UpdateTransaction id f
                  end).
  assert (Hrequest : is_request request = true)
    by (unfold request; destruct (transactionId f); reflexivity).
  destruct (valid (validateTransaction (formData f))) eqn:Hv; cbn [negb].
  - destruct (valid_checks _ Hv) as (Htype & Hamount & Hcategory & Hdate).
    apply type_accepted in Htype. apply amount_accepted in Hamount.
    apply category_accepted in Hcategory.
    apply negb_false_iff, string_truthy_iff in Hdate.
    assert (Hfacts :
      (transactionType f = "income" \/ transactionType f = "expense") /\
      (exists a, amount f = Some a /\ ltb zero a = true) /\
      (exists c, categoryId f = Some c /\ truthy c = true) /\
      transactionDate f <> EmptyString).
    { cbn [formData type API.amount category_id date] in *.
      split; [destruct Htype as [[= ->]|[= ->]]; auto|].
      split; [destruct Hamount as (a & Ha & _ & Hpos); eauto|].
      split; [exact Hcategory|].
      destruct Hdate as (v & [= <-] & Hne). exact Hne. }
    destruct (send request) eqn:Hsend.
    + split; [|split].
      * rewrite !List.filter_app, requests_when by reflexivity.
        cbn [List.filter app]. rewrite Hrequest, requests_when by reflexivity.
        simpl. lia.
      * intros e He Hreq. split; [|exact Hfacts].
        apply in_app_or in He as [He|He];
          [apply In_when in He as ->; discriminate|].
        apply in_app_or in He as [He|He].
        -- simpl in He. destruct He as [<-|[<-|[]]]; [reflexivity|discriminate].
        -- apply In_when in He as ->. discriminate.
      * intros Hclose. exfalso.
        apply in_app_or in Hclose as [He|He];
          [apply In_when in He; discriminate|].
        apply in_app_or in He as [He|He].
        -- simpl in He. destruct He as [He|[He|[]]];
             [|discriminate].
           unfold request in He. destruct (transactionId f); discriminate.
        -- apply In_when in He. discriminate.
    + split; [|split].
      * rewrite !List.filter_app, requests_when by reflexivity.
        cbn [List.filter app]. rewrite Hrequest, requests_when by reflexivity.
        simpl. lia.
      * intros e He Hreq. split; [|exact Hfacts].
        apply in_app_or in He as [He|He];
          [apply In_when in He as ->; discriminate|].
        apply in_app_or in He as [He|He].
        -- simpl in He.
           destruct He as [<-|[<-|[<-|[<-|[]]]]];
             [reflexivity|discriminate..].
        -- apply In_when in He as ->. discriminate.
      * intros _. exists request. split; [|split; assumption].
        apply in_or_app. right. apply in_or_app. left. now left.
  - split; [|split].
    + rewrite List.filter_app, requests_when by reflexivity. simpl. lia.
    + intros e He Hreq. exfalso.
      apply in_app_or in He as [He|He].
      * apply In_when in He as ->. discriminate.
      * simpl in He. destruct He as [<-|[]]. discriminate.
    + intros Hclose. exfalso.
      apply in_app_or in Hclose as [He|He].
      * apply In_when in He. discriminate.
      * simpl in He. destruct He as [He|[]]. discriminate.
Qed.

End Save.

Lemma saveTransaction_requests_witness :
  NumberLaws Z_Number /\
  List.filter is_request (saveTransaction true (fun _ => None) new_expense)
  = [CreateTransaction new_expense] /\
  (length (List.filter is_request
             (saveTransaction true (fun _ => None) new_expense)) <= 1)%nat.
Proof.
  split; [exact Z_NumberLaws|]. split; [reflexivity|].
  exact (proj1 (saveTransaction_requests true (fun _ => None) new_expense)).
Defined.

End AppFlowsProofs.

(* ===================================================================== *)
(** * The query string of a GET request                                  *)
(* ===================================================================== *)

Module QueryProofs.
Import JS API APIClient.

Lemma append_cons a (p q : string) :
  String.append (String a p) q = String a (String.append p q).
Proof. reflexivity. Qed.

Lemma append_nil (q : string) : String.append EmptyString q = q.
Proof. reflexivity. Qed.

Lemma contains_append c (p q : string) :
  contains c (String.append p q) = contains c p || contains c q.
Proof.
  induction p as [|a p IH]; [reflexivity|].
  rewrite append_cons. cbn [contains]. now rewrite IH, orb_assoc.
Qed.

(** ** Encoding and decoding a string *)

Lemma urldecode_encoded_byte (a : ascii) (s : string) :
  urldecode (urlencode (String a s)) = String a (urldecode (urlencode s)).
Proof.
  destruct a as [[] [] [] [] [] [] [] []]; reflexivity.
Qed.

Lemma urldecode_urlencode (s : string) : urldecode (urlencode s) = s.
Proof.
  induction s as [|a s IH]; [reflexivity|].
  rewrite urldecode_encoded_byte. now rewrite IH.
Qed.

(** An encoded string holds only letters, digits and [*-._+%]. *)
Lemma urlencode_cons (a : ascii) (s : string) :
  exists prefix : string,
    urlencode (String a s) = String.append prefix (urlencode s) /\
    forall c, contains c prefix = true ->
      unreserved (N_of_ascii c) = true \/ c = "+"%char \/ c = "%"%char.
Proof.
  cbn [urlencode]. generalize (urlencode s) as rest. intros rest.
  destruct a as [[] [] [] [] [] [] [] []];
    lazymatch goal with
    | |- exists _, ?encoded = _ /\ _ =>
        let v := eval cbv in encoded in
        change encoded with v;
        lazymatch v with
        | String ?x (String ?y (String ?z rest)) =>
            exists (String x (String y (String z EmptyString)))
        | String ?x rest => exists (String x EmptyString)
        end
    end;
    (split; [reflexivity|]);
    intros c; cbn [contains]; rewrite ?orb_false_r; intros Hc;
    repeat match type of Hc with
    | (_ || _)%bool = true => apply orb_true_iff in Hc as [Hc|Hc]
    end; apply Ascii.eqb_eq in Hc as <-; cbv; auto.
Qed.

Lemma urlencode_avoids (c : ascii) (s : string) :
  unreserved (N_of_ascii c) = false -> c <> "+"%char -> c <> "%"%char ->
  contains c (urlencode s) = false.
Proof.
  intros Hc Hplus Hpercent. induction s as [|a s IH]; [reflexivity|].
  destruct (urlencode_cons a s) as (prefix & -> & Hprefix).
  rewrite contains_append, IH, orb_false_r.
  destruct (contains c prefix) eqn:Hin; [|reflexivity].
  destruct (Hprefix c Hin) as [H|[H|H]]; congruence.
Qed.

Lemma encoded_without_ampersand s : contains "&" (urlencode s) = false.
Proof. apply urlencode_avoids; [reflexivity | discriminate..]. Qed.

Lemma encoded_without_equals s : contains "=" (urlencode s) = false.
Proof. apply urlencode_avoids; [reflexivity | discriminate..]. Qed.

(** ** Splitting *)

Lemma split_on_whole sep (p : string) :
  contains sep p = false -> split_on sep p = [p].
Proof.
  induction p as [|a p IH]; [reflexivity|].
  cbn [contains split_on]. intros H. apply orb_false_iff in H as [Ha Hp].
  now rewrite Ha, (IH Hp).
Qed.

Lemma split_on_append sep (p rest : string) :
  contains sep p = false ->
  split_on sep (String.append p (String sep rest)) = p :: split_on sep rest.
Proof.
  induction p as [|a p IH]; intros H.
  - rewrite append_nil. cbn [split_on]. now rewrite Ascii.eqb_refl.
  - cbn [contains] in H. apply orb_false_iff in H as [Ha Hp].
    rewrite append_cons. cbn [split_on]. now rewrite Ha, (IH Hp).
Qed.

Lemma cut_append sep (p rest : string) :
  contains sep p = false ->
  cut sep (String.append p (String sep rest)) = (p, rest).
Proof.
  induction p as [|a p IH]; intros H.
  - rewrite append_nil. cbn [cut]. now rewrite Ascii.eqb_refl.
  - cbn [contains] in H. apply orb_false_iff in H as [Ha Hp].
    rewrite append_cons. cbn [cut]. now rewrite Ha, (IH Hp).
Qed.

Lemma cut_whole sep (p : string) :
  contains sep p = false -> cut sep p = (p, EmptyString).
Proof.
  induction p as [|a p IH]; [reflexivity|].
  cbn [contains cut]. intros H. apply orb_false_iff in H as [Ha Hp].
  now rewrite Ha, (IH Hp).
Qed.

Lemma split_on_join sep (pieces : list string) :
  pieces <> [] ->
  Forall (fun p => contains sep p = false) pieces ->
  split_on sep (join (String sep EmptyString) pieces) = pieces.
Proof.
  induction pieces as [|p l IH]; [congruence|]. intros _ Hall.
  apply Forall_cons_iff in Hall as [Hp Hl]. destruct l as [|q l].
  - cbn [join]. now apply split_on_whole.
  - change (join (String sep EmptyString) (p :: q :: l))
      with (String.append p (String.append (String sep EmptyString)
                               (join (String sep EmptyString) (q :: l)))).
    rewrite append_cons, append_nil, split_on_append by exact Hp.
    now rewrite IH.
Qed.

(** ** The query string *)

Lemma encoded_pair_facts p :
  contains "&" (encoded_pair p) = false /\
  negb (String.eqb (encoded_pair p) EmptyString) = true /\
  cut "=" (encoded_pair p) = (urlencode (fst p), urlencode (snd p)).
Proof.
  unfold encoded_pair. rewrite append_cons, append_nil. split; [|split].
  - rewrite contains_append. cbn [contains].
    now rewrite !encoded_without_ampersand.
  - destruct (urlencode (fst p)); reflexivity.
  - apply cut_append, encoded_without_equals.
Qed.

Lemma parse_query_serialize (pairs : list (string * string)) :
  parse_query (serialize pairs) = pairs.
Proof.
  unfold parse_query, serialize.
  destruct pairs as [|p l]; [reflexivity|].
  rewrite (split_on_join "&").
  - induction (p :: l) as [|[k v] l' IH]; [reflexivity|].
    cbn [map List.filter].
    destruct (encoded_pair_facts (k, v)) as (_ & -> & Hcut).
    cbn [map]. rewrite Hcut, IH. cbn [fst snd].
    now rewrite !urldecode_urlencode.
  - discriminate.
  - apply List.Forall_forall. intros x Hx.
    apply in_map_iff in Hx as (q & <- & _). apply encoded_pair_facts.
Qed.

(** X11. The URL that [get] requests reads back as the endpoint and
    exactly the parameters given, names and values as strings, in the
    order of the object; without parameters it is the endpoint itself. *)
Theorem get_url_reads_back (endpoint : string) (params : object param) :
  contains "?" endpoint = false ->
  let url := get_url endpoint params in
  fst (cut "?" url) = endpoint /\
  parse_query (snd (cut "?" url)) = pairs_of params /\
  (params = [] -> url = endpoint).
Proof.
  intros Hendpoint. cbn zeta. unfold get_url.
  pose proof (parse_query_serialize (pairs_of params)) as Hparse.
  split; [|split].
  - destruct (serialize (pairs_of params)) as [|a q].
    + now rewrite cut_whole.
    + now rewrite append_cons, append_nil, cut_append.
  - destruct (serialize (pairs_of params)) as [|a q].
    + now rewrite cut_whole.
    + now rewrite append_cons, append_nil, cut_append.
  - intros ->. reflexivity.
Qed.

Lemma get_url_reads_back_witness :
  get_url "/api/transactions" day_filter
  = "/api/transactions?start_date=2025-03-14&end_date=2025-03-14&limit=100" /\
  parse_query (snd (cut "?" (get_url "/api/transactions" day_filter)))
  = [("start_date", "2025-03-14"); ("end_date", "2025-03-14");
     ("limit", "100")].
Proof.
  split; [reflexivity|].
  exact (proj1 (proj2 (get_url_reads_back "/api/transactions" day_filter
                         eq_refl))).
Defined.

End QueryProofs.

(* ===================================================================== *)
(** * The top category and the expense chart                             *)
(* ===================================================================== *)

Module ChartProofs.
Import JS JSFacts FinanceApp Specification FinanceAppProofs.

Section Leading.
Context `{N : Number} {L : NumberLaws N}.

(** The first element after sorting by descending total: the new element,
    unless the one that led before has a strictly greater total. *)
Lemma sort_head (x : string * total) (l : list (string * total)) :
  hd_error (sort by_total_desc (x :: l))
  = Some match hd_error (sort by_total_desc l) with
         | Some y => if positive (by_total_desc x y) then y else x
         | None => x
         end.
Proof.
  unfold sort. cbn [fold_right].
  destruct (fold_right (sort_insert by_total_desc) [] l) as [|y s];
    [reflexivity|].
  cbn [sort_insert hd_error].
  destruct (positive (by_total_desc x y)); reflexivity.
Qed.

Lemma sort_head_In (l : list (string * total)) y :
  hd_error (sort by_total_desc l) = Some y -> In y l.
Proof.
  intros H. apply (Permutation_in _ (sort_perm by_total_desc l)).
  destruct (sort by_total_desc l) as [|z s]; [discriminate|].
  injection H as ->. now left.
Qed.

(** The search of [calculateStats] ends at the element that the sort of
    [updateExpenseChart] puts first, when its total exceeds the starting
    value. *)
Lemma pick_head (o : object total) (es : list (string * total)) :
  (forall k v, In (k, v) es -> get o k = Some v) ->
  Forall (fun e => exists n, snd e = Amount n) es ->
  forall acc,
    fold_left (pick o) (map fst es) acc
    = match hd_error (sort by_total_desc es) with
      | Some (name, Amount v) => if ltb (fst acc) v then (v, name) else acc
      | Some (_, Text) | None => acc
      end.
Proof.
  induction es as [|[k v] es IH]; intros Hget Hknown acc; [reflexivity|].
  apply List.Forall_cons_iff in Hknown as [[n Hn] Hknown].
  cbn [snd] in Hn. subst v.
  cbn [map fold_left fst].
  rewrite IH by (auto; intros; apply Hget; now right).
  assert (Hpick : pick o acc k = if ltb (fst acc) n then (n, k) else acc)
    by (unfold pick; now rewrite (Hget k (Amount n)) by now left).
  rewrite sort_head, Hpick.
  destruct (hd_error (sort by_total_desc es)) as [[k' v']|] eqn:Hhead.
  - apply sort_head_In in Hhead. rewrite List.Forall_forall in Hknown.
    destruct (Hknown _ Hhead) as [n' Hn']. cbn [snd] in Hn'. subst v'.
    unfold by_total_desc, positive. cbn [snd]. rewrite sub_positive.
    destruct (ltb (fst acc) n) eqn:Hv, (ltb n n') eqn:Hvv'; cbn [fst snd];
      rewrite ?Hv, ?Hvv'; try reflexivity.
    + now rewrite (ltb_trans _ _ _ Hv Hvv').
    + now rewrite (ltb_negtrans _ _ _ Hv Hvv').
  - destruct (ltb (fst acc) n); reflexivity.
Qed.

Lemma expenses_are_the_rest (transactions : list transaction) :
  Forall (fun t => type t = "income" \/ type t = "expense") transactions ->
  List.filter other transactions = List.filter expense transactions.
Proof.
  intros Hall. apply List.filter_ext_in. intros t Ht.
  rewrite List.Forall_forall in Hall. specialize (Hall t Ht).
  unfold other, income, expense.
  destruct Hall as [-> | ->]; reflexivity.
Qed.

(** Every group of expenses with names that are not inherited holds a
    number. *)
Lemma expenses_hold_numbers (transactions : list transaction) :
  Forall (fun t => expense t = true -> plain (category t) = true)
         transactions ->
  Forall (fun e : string * total => exists n, snd e = Amount n)
         (fold_left accumulate (List.filter expense transactions) []).
Proof.
  intros Hplain. apply List.Forall_forall. intros [name v] Hin. cbn [snd].
  assert (Hname : In name (categories_of expense transactions)).
  { apply (in_map fst) in Hin. apply grouped_keys in Hin. tauto. }
  assert (Hn : plain name = true).
  { apply in_map_iff in Hname as (t & <- & Ht).
    apply filter_In in Ht as [Ht He].
    rewrite List.Forall_forall in Hplain. now apply Hplain. }
  apply In_get in Hin; [|apply accumulate_NoDup; constructor].
  rewrite (grouped_get expense transactions _ Hname Hn) in Hin.
  injection Hin as <-. eauto.
Qed.


End Leading.


End ChartProofs.

(* ===================================================================== *)
(** * The Telegram adapter: start-up and dialogs                         *)
(* ===================================================================== *)

Module TelegramInitProofs.
Import JS TelegramWebApp TelegramInit.

Lemma showAlert_without_callback {callback}
    (invoke : callback -> option bool -> completion) tg message :
  snd (showAlert invoke tg message None) = Normal.
Proof.
  unfold showAlert. destruct (method tg tg_showAlert) as [f|].
  - destruct (f message); reflexivity.
  - reflexivity.
Qed.

(** The fields after an [init] that does not throw, whatever the host
    name is. *)
Lemma init_fields (w : window) a shown :
  init w constructed = Some (a, shown) ->
  tg a = Telegram_WebApp w /\
  isReady a = true /\
  user a = (if in_session w
            then match Telegram_WebApp w with
                 | Some sdk => SDK.initDataUnsafe_user sdk
                 | None => None
                 end
            else Some mock_user) /\
  initData a = (if in_session w
                then match Telegram_WebApp w with
                     | Some sdk => Some (or_string (SDK.initData sdk) EmptyString)
                     | None => None
                     end
                else Some "mock_init_data_for_development").
Proof.
  destruct w as [[sdk|] host]; unfold init, in_session, recover;
    cbn [Telegram_WebApp].
  - destruct (SDK.expand sdk) as [|[]];
      [|discriminate|destruct (isDevelopment _); intros [= <- <-]; cbn; auto].
    destruct (SDK.enableClosingConfirmation sdk) as [|[]];
      [|discriminate|destruct (isDevelopment _); intros [= <- <-]; cbn; auto].
    cbn [user tg initData isReady].
    destruct (has_id (SDK.initDataUnsafe_user sdk)) eqn:Hid; cbn [negb].
    + destruct (SDK.ready sdk) as [|[]];
        [intros [= <- <-]; cbn; auto | discriminate |].
      destruct (isDevelopment _); intros [= <- <-]; cbn; auto.
    + assert (Hmock :
                (match SDK.ready sdk with Done => false | Raised _ => false end)
                = false) by (destruct (SDK.ready sdk); reflexivity).
      rewrite Hmock.
      destruct (isDevelopment _); [intros [= <- <-]; cbn; auto|].
      destruct (showAlert _ _ _ _) as [events []];
        intros [= <- <-]; cbn; auto.
  - destruct (isDevelopment _); intros [= <- <-]; cbn; auto.
Qed.

(** [init] throws exactly when the SDK call that fails throws [null] or
    [undefined]. *)
Lemma init_fails (w : window) : init w constructed = None <-> fails w = true.
Proof.
  destruct w as [[sdk|] host]; unfold init, fails, recover;
    cbn [Telegram_WebApp].
  - destruct (SDK.expand sdk) as [|[]]; cbn [option_map];
      [|tauto|destruct (isDevelopment _); split; discriminate].
    destruct (SDK.enableClosingConfirmation sdk) as [|[]]; cbn [option_map];
      [|tauto|destruct (isDevelopment _); split; discriminate].
    cbn [user tg initData isReady].
    destruct (has_id (SDK.initDataUnsafe_user sdk)); cbn [negb andb].
    + destruct (SDK.ready sdk) as [|[]]; cbn [option_map];
        [split; discriminate | tauto |].
      destruct (isDevelopment _); split; discriminate.
    + destruct (isDevelopment _); [split; discriminate|].
      pose proof (showAlert_without_callback no_callback
                    (Some (SDK.dialogs sdk))
                    "Ошибка: откройте приложение через бота Telegram") as Hc.
      destruct (showAlert _ _ _ _) as [events c]. cbn [snd] in Hc. subst c.
      split; discriminate.
  - destruct (isDevelopment _); split; discriminate.
Qed.

Lemma new_TelegramWebApp_Some (w : window) a :
  new_TelegramWebApp w = Some a ->
  exists shown, init w constructed = Some (a, shown).
Proof.
  unfold new_TelegramWebApp.
  destruct (init w constructed) as [[a' shown]|]; [|discriminate].
  intros [= <-]. now exists shown.
Qed.

Lemma new_TelegramWebApp_None (w : window) :
  new_TelegramWebApp w = None <-> fails w = true.
Proof.
  rewrite <- init_fails. unfold new_TelegramWebApp.
  destruct (init w constructed); split; discriminate || reflexivity.
Qed.

(** An adapter that has started is ready, and its user is Telegram's or
    the mock user. *)
Lemma adapter_started (w : window) a :
  new_TelegramWebApp w = Some a ->
  isAppReady a = true /\
  (exists userId, getUserId a = Some userId /\ userId <> 0%Z) /\
  tg a = Telegram_WebApp w /\
  (if in_session w
   then exists sdk,
          Telegram_WebApp w = Some sdk /\
          user a = SDK.initDataUnsafe_user sdk /\
          initData a = Some (or_string (SDK.initData sdk) EmptyString)
   else user a = Some mock_user /\
        initData a = Some "mock_init_data_for_development").
Proof.
  intros Ha. destruct (new_TelegramWebApp_Some w a Ha) as [shown Hinit].
  destruct (init_fields w a shown Hinit) as (Htg & Hready & Huser & Hdata).
  assert (Hid : has_id (user a) = true).
  { rewrite Huser. unfold in_session.
    destruct (Telegram_WebApp w) as [sdk|]; [|reflexivity].
    destruct (SDK.expand sdk), (SDK.enableClosingConfirmation sdk),
      (SDK.ready sdk); try reflexivity.
    destruct (has_id (SDK.initDataUnsafe_user sdk)) eqn:E;
      [exact E|reflexivity]. }
  split; [unfold isAppReady; now rewrite Hready, Hid|].
  split.
  { unfold getUserId, has_id in *.
    destruct (user a) as [u|]; [|discriminate].
    destruct (id u) as [n|]; [|discriminate].
    destruct (Z.eqb_spec n 0); [discriminate|]. now exists n. }
  split; [exact Htg|].
  destruct (in_session w) eqn:Hs; [|now split].
  unfold in_session in Hs.
  destruct (Telegram_WebApp w) as [sdk|]; [|discriminate].
  exists sdk. now repeat split.
Qed.

(** X13. [init] throws, and no adapter comes to be, exactly when the call
    of [expand], [enableClosingConfirmation] or [ready] that fails throws
    [null] or [undefined]: the handler reads [error.stack].  In every
    other case, however the application is opened, [init] leaves the
    adapter ready with a user that has an id.  The user and the init data
    are then Telegram's only when the SDK is loaded, names a user with an
    id, and none of the three calls throws; otherwise, on any host, they
    are the mock user 123456789 and the mock init data.  The host name
    changes none of this. *)
Theorem init_ready_or_fails (w : window) :
  (new_TelegramWebApp w = None <-> fails w = true) /\
  (forall a, new_TelegramWebApp w = Some a ->
     isAppReady a = true /\
     (exists userId, getUserId a = Some userId /\ userId <> 0%Z) /\
     tg a = Telegram_WebApp w /\
     (if in_session w
      then exists sdk,
             Telegram_WebApp w = Some sdk /\
             user a = SDK.initDataUnsafe_user sdk /\
             initData a = Some (or_string (SDK.initData sdk) EmptyString)
      else user a = Some mock_user /\
           initData a = Some "mock_init_data_for_development")) /\
  (forall host,
     new_TelegramWebApp {| Telegram_WebApp := Telegram_WebApp w;
                           hostname := host |}
     = new_TelegramWebApp w).
Proof.
  split; [apply new_TelegramWebApp_None|]. split; [apply adapter_started|].
  intros host.
  set (w' := {| Telegram_WebApp := Telegram_WebApp w; hostname := host |}).
  assert (Hfails : fails w' = fails w) by reflexivity.
  assert (Hsession : in_session w' = in_session w) by reflexivity.
  destruct (new_TelegramWebApp w') as [a'|] eqn:Ha';
    destruct (new_TelegramWebApp w) as [a|] eqn:Ha.
  - destruct (new_TelegramWebApp_Some _ _ Ha') as [shown' Hinit'].
    destruct (new_TelegramWebApp_Some _ _ Ha) as [shown Hinit].
    destruct (init_fields _ _ _ Hinit') as (Htg' & Hready' & Huser' & Hdata').
    destruct (init_fields _ _ _ Hinit) as (Htg & Hready & Huser & Hdata).
    rewrite Hsession in *. cbn [Telegram_WebApp w'] in *.
    destruct a' as [t1 u1 d1 r1], a as [t2 u2 d2 r2].
    cbn [tg user initData isReady] in *. congruence.
  - apply new_TelegramWebApp_None in Ha. rewrite <- Hfails in Ha.
    apply new_TelegramWebApp_None in Ha. congruence.
  - apply new_TelegramWebApp_None in Ha'. rewrite Hfails in Ha'.
    apply new_TelegramWebApp_None in Ha'. congruence.
  - reflexivity.
Qed.

(** With the user 42: a session on a client whose calls return, one on a
    client whose [expand] throws an [Error], and one on a client whose
    [expand] throws [null]. *)
Example init_sessions :
  option_map getUserId (new_TelegramWebApp (session Done)) = Some (Some 42%Z) /\
  option_map getUserId (new_TelegramWebApp (session (Raised Value)))
  = Some (Some 123456789%Z) /\
  new_TelegramWebApp (session (Raised Nullish)) = None.
Proof. repeat split. Qed.

Section Dialogs.
Context {callback : Type}.
Variable invoke : callback -> option bool -> completion.
Variable confirm : string -> bool.

(** X14. [showAlert] and [showConfirm] throw nothing of their own: with a
    callback that does not throw, or none, they end normally, whatever the
    bridge does, and they call the callback at most once themselves.  The
    message is always shown, by the bridge or by the browser. *)
Theorem dialogs_end_normally (tg : option WebApp) (message : string)
    (cb : option callback) :
  (forall f argument, cb = Some f -> invoke f argument = Normal) ->
  exists alerted confirmed,
    showAlert invoke tg message cb = (alerted, Normal) /\
    showConfirm invoke confirm tg message cb = (confirmed, Normal) /\
    (length (List.filter is_call alerted) <= 1)%nat /\
    (length (List.filter is_call confirmed) <= 1)%nat /\
    (In (BridgeShowAlert message cb) alerted \/
     In (BrowserAlert message) alerted) /\
    (In (BridgeShowConfirm message cb) confirmed \/
     In (BrowserConfirm message) confirmed).
Proof.
  intros Hcb. unfold showAlert, showConfirm, alertFallback, confirmFallback.
  destruct cb as [f|].
  - pose proof (Hcb f None eq_refl) as Halert.
    pose proof (Hcb f (Some (confirm message)) eq_refl) as Hconfirm.
    unfold tryCatch, andThen, emit, callIf. cbn [fst snd app].
    rewrite Halert, Hconfirm.
    destruct (method tg tg_showAlert) as [fa|];
      destruct (method tg tg_showConfirm) as [fc|];
      try destruct (fa message); try destruct (fc message);
      eexists _, _; (split; [reflexivity|]); (split; [reflexivity|]);
      cbn; intuition lia.
  - unfold tryCatch, andThen, emit, callIf, skip. cbn [fst snd app].
    destruct (method tg tg_showAlert) as [fa|];
      destruct (method tg tg_showConfirm) as [fc|];
      try destruct (fa message); try destruct (fc message);
      eexists _, _; (split; [reflexivity|]); (split; [reflexivity|]);
      cbn; intuition lia.
Qed.

End Dialogs.

Lemma dialogs_end_normally_witness :
  exists alerted confirmed,
    showAlert (fun (_ : unit) _ => Normal) None "Сохранено" (Some tt)
    = (alerted, Normal) /\
    showConfirm (fun (_ : unit) _ => Normal) (fun _ => true) None "Сохранено"
      (Some tt) = (confirmed, Normal).
Proof.
  destruct (dialogs_end_normally (fun (_ : unit) _ => Normal) (fun _ => true)
              None "Сохранено" (Some tt) (fun _ _ _ => eq_refl))
    as (alerted & confirmed & Ha & Hc & _).
  exists alerted, confirmed. split; assumption.
Defined.

End TelegramInitProofs.

(* ===================================================================== *)
(** * The headers of a request                                           *)
(* ===================================================================== *)

Module APIHeadersProofs.
Import JS JSFacts API TelegramInit TelegramInitProofs APIHeaders.

Section Spread.
Context {V : Type}.
Implicit Types (o : object V) (l : list (string * V)).

Lemma fold_set_NoDup l : forall o,
  List.NoDup (map fst o) ->
  List.NoDup (map fst (fold_left (fun o e => set o (fst e) (snd e)) l o)).
Proof.
  induction l as [|e l IH]; intros o Ho; [exact Ho|].
  cbn [fold_left]. apply IH. now apply NoDup_set.
Qed.

Lemma fold_set_other l k : forall o,
  ~ In k (map fst l) ->
  get (fold_left (fun o e => set o (fst e) (snd e)) l o) k = get o k.
Proof.
  induction l as [|[k' v'] l IH]; intros o Hk; [reflexivity|].
  cbn [fold_left fst snd]. cbn [map fst In] in Hk.
  rewrite IH by tauto. apply get_set_ne. tauto.
Qed.

Lemma fold_set_In l k v : forall o,
  List.NoDup (map fst l) -> In (k, v) l ->
  get (fold_left (fun o e => set o (fst e) (snd e)) l o) k = Some v.
Proof.
  induction l as [|[k' v'] l IH]; intros o Hnd Hin; [destruct Hin|].
  cbn [fold_left fst snd]. cbn [map fst] in Hnd.
  inversion Hnd as [|? ? Hnot Hnd']; subst.
  destruct Hin as [[= -> ->]|Hin].
  - rewrite fold_set_other by exact Hnot. apply get_set_eq.
  - now apply IH.
Qed.

(** A property of the source wins over one of the target. *)
Lemma get_spread (source target : object V) k :
  List.NoDup (map fst source) ->
  get (spread source target) k
  = match get source k with
    | Some v => Some v
    | None => get target k
    end.
Proof.
  intros Hnd. unfold spread. destruct (get source k) as [v|] eqn:Hk.
  - apply fold_set_In.
    + now apply NoDup_keys.
    + apply In_entries. now apply get_Some_In.
  - apply fold_set_other. fold (keys source). rewrite In_keys.
    now apply get_None_not_In.
Qed.

Lemma spread_NoDup (source target : object V) :
  List.NoDup (map fst target) -> List.NoDup (map fst (spread source target)).
Proof. apply fold_set_NoDup. Qed.

End Spread.

Lemma getAuthHeaders_NoDup hs app :
  List.NoDup (map fst (getAuthHeaders hs app)).
Proof.
  unfold getAuthHeaders.
  assert (H0 : List.NoDup (map fst (spread hs []))).
  { apply spread_NoDup. constructor. }
  destruct app as [a|]; [|exact H0].
  assert (H1 : List.NoDup (map fst
            match getInitData a with
            | Some (String c s) =>
                set (spread hs []) "X-Telegram-Init-Data" (String c s)
            | _ => spread hs []
            end)).
  { destruct (getInitData a) as [[|c s]|]; try exact H0. now apply NoDup_set. }
  destruct (getUserId a); [now apply NoDup_set | exact H1].
Qed.

(** Without [options.headers] the request carries the authentication
    headers as they are. *)
Lemma request_headers_plain hs app k :
  get (request_headers hs app None) k = get (getAuthHeaders hs app) k.
Proof.
  unfold request_headers. change (spread [] ?t) with t.
  rewrite get_spread by apply getAuthHeaders_NoDup.
  now destruct (get (getAuthHeaders hs app) k).
Qed.

(** X15. Once the adapter has started, every request that [get], [post],
    [put] or [delete] sends carries the content type and the header
    X-Telegram-User-Id with the decimal id of the adapter's user.  Outside
    a Telegram session, on any host, that is the mock id 123456789,
    together with the mock init data.  A header that the caller passes in
    [options.headers] replaces the one of the same name. *)
Theorem requests_carry_user_id (w : window) (a : adapter) :
  new_TelegramWebApp w = Some a ->
  let sent := request_headers headers (Some a) None in
  get sent "Content-Type" = Some "application/json" /\
  (exists userId,
     getUserId a = Some userId /\ userId <> 0%Z /\
     get sent "X-Telegram-User-Id" = Some (String_of (Some userId))) /\
  (in_session w = false ->
     get sent "X-Telegram-User-Id" = Some "123456789" /\
     get sent "X-Telegram-Init-Data" = Some "mock_init_data_for_development") /\
  (forall (given : object string) name value,
     List.NoDup (map fst given) -> get given name = Some value ->
     get (request_headers headers (Some a) (Some given)) name = Some value).
Proof.
  intros Ha. cbn zeta.
  destruct (adapter_started w a Ha) as (_ & Hid & _ & Hfields).
  assert (Hspread : spread headers [] = headers) by reflexivity.
  split; [|split; [|split]].
  - rewrite request_headers_plain. unfold getAuthHeaders.
    rewrite Hspread.
    destruct (getUserId a); [rewrite get_set_ne by discriminate|];
      (destruct (getInitData a) as [[|c s]|];
        [| rewrite get_set_ne by discriminate |]; reflexivity).
  - destruct Hid as (userId & Hget & Hne). exists userId.
    split; [exact Hget|]. split; [exact Hne|].
    rewrite request_headers_plain. unfold getAuthHeaders.
    rewrite Hget. apply get_set_eq.
  - intros Hs. rewrite Hs in Hfields. destruct Hfields as [Huser Hdata].
    rewrite !request_headers_plain. unfold getAuthHeaders, getUserId, getInitData.
    rewrite Huser, Hdata, Hspread. split; reflexivity.
  - intros given name value Hnd Hget. unfold request_headers.
    rewrite get_spread by exact Hnd. now rewrite Hget.
Qed.

Lemma requests_carry_user_id_witness :
  new_TelegramWebApp browser_tab
  = Some (initDevelopmentMode constructed) /\
  request_headers headers (Some (initDevelopmentMode constructed)) None
  = [("Content-Type", "application/json");
     ("X-Telegram-Init-Data", "mock_init_data_for_development");
     ("X-Telegram-User-Id", "123456789")] /\
  get (request_headers headers (Some (initDevelopmentMode constructed)) None)
      "X-Telegram-User-Id" = Some "123456789".
Proof.
  split; [reflexivity|]. split; [reflexivity|].
  exact (proj1 (proj1 (proj2 (proj2
           (requests_carry_user_id browser_tab
              (initDevelopmentMode constructed) eq_refl))) eq_refl)).
Defined.

End APIHeadersProofs.

(* ===================================================================== *)
(** * Deleting a transaction                                             *)
(* ===================================================================== *)

Module DeleteFlowsProofs.
Import JS DeleteFlows.

Section Delete.
Variables (telegramApp : bool) (answer : option bool)
          (send : string -> option string).

Lemma delete_and_report_requests id closes :
  List.filter is_request (delete_and_report telegramApp send id closes)
  = [DeleteTransaction id] /\
  List.filter is_confirmation (delete_and_report telegramApp send id closes)
  = [] /\
  (In CloseModal (delete_and_report telegramApp send id closes) <->
   closes = true /\ send id = None).
Proof.
  unfold delete_and_report, when.
  destruct telegramApp, (send id), closes; cbn;
    (split; [reflexivity|]); (split; [reflexivity|]);
    intuition (discriminate || auto).
Qed.

(** X16. [deleteTransaction] asks before it deletes: it sends a request
    only for a non-empty id and an answer that is true, then exactly one
    and after the question, and it closes the modal only when that request
    succeeded.  [deleteTransactionById] never asks, always sends exactly
    one request for the id it is given, and leaves the modal alone. *)
Theorem delete_asks_first (transactionId : string) :
  let asked := deleteTransaction telegramApp answer send transactionId in
  let swiped := deleteTransactionById telegramApp send transactionId in
  (List.filter is_request asked
   = match transactionId, answer with
     | String _ _, Some true => [DeleteTransaction transactionId]
     | _, _ => []
     end) /\
  (forall id, In (DeleteTransaction id) asked ->
     exists rest, asked = ShowConfirm "Удалить транзакцию?" :: rest) /\
  (In CloseModal asked <->
   transactionId <> EmptyString /\ answer = Some true /\
   send transactionId = None) /\
  List.filter is_request swiped = [DeleteTransaction transactionId] /\
  List.filter is_confirmation swiped = [] /\
  ~ In CloseModal swiped.
Proof.
  cbn zeta. unfold deleteTransaction, deleteTransactionById.
  destruct (delete_and_report_requests transactionId true)
    as (Hreq & _ & Hclose).
  destruct (delete_and_report_requests transactionId false)
    as (Hreq' & Hconf' & Hclose').
  split; [|split; [|split; [|split; [|split]]]].
  - destruct transactionId as [|c s]; [reflexivity|].
    destruct answer as [[]|]; cbn [List.filter is_request];
      [exact Hreq | reflexivity..].
  - intros id Hin. destruct transactionId as [|c s]; [destruct Hin|].
    eexists. reflexivity.
  - destruct transactionId as [|c s].
    + cbn. intuition congruence.
    + destruct answer as [[]|]; cbn [In].
      * rewrite Hclose. intuition (discriminate || auto).
      * intuition discriminate.
      * intuition discriminate.
  - exact Hreq'.
  - exact Hconf'.
  - rewrite Hclose'. intros [H _]. discriminate.
Qed.

End Delete.

End DeleteFlowsProofs.

(* ===================================================================== *)
(** * Deleting rows                                                      *)
(* ===================================================================== *)

Module DeletionProofs.
Import Schema Database Migrations Deletion SchemaProofs DatabaseExtras.

(** ** Values that stay distinct *)

Lemma distinct_filter {A} (f : A -> value) (p : A -> bool) (l : list A) :
  distinct (map f l) = true -> distinct (map f (List.filter p l)) = true.
Proof.
  induction l as [|x l IH]; [reflexivity|].
  cbn [map distinct List.filter]. intros H.
  apply andb_prop in H as [Hx Hl]. destruct (p x); [|auto].
  cbn [map distinct]. rewrite (IH Hl), andb_true_r.
  apply orb_true_iff in Hx as [Hx|Hx]; [now rewrite Hx|].
  apply orb_true_iff. right. apply negb_true_iff.
  apply negb_true_iff in Hx.
  destruct (existsb (value_eqb (f x)) (map f (List.filter p l))) eqn:E;
    [|reflexivity].
  rewrite <- Hx. symmetry. apply existsb_exists.
  apply existsb_exists in E as (v & Hv & Heq). exists v. split; [|exact Heq].
  apply in_map_iff in Hv as (y & <- & Hy). apply in_map.
  apply filter_In in Hy. tauto.
Qed.

Lemma unique_holds_filter t (p : row -> bool) (l : list row) :
  unique_holds t l = true -> unique_holds t (List.filter p l) = true.
Proof.
  unfold unique_holds. rewrite !forallb_forall. intros H c Hc.
  specialize (H c Hc). apply orb_true_iff in H as [H|H];
    apply orb_true_iff; [now left|right].
  now apply distinct_filter.
Qed.

(** A referring row that no deleted row answers to finds its row among
    those kept. *)
Lemma survivor_referenced (where_ : row -> bool) (key : string)
    (l : list row) (v : value) :
  is_null v || existsb (fun r => value_eqb (cell r key) v) l = true ->
  negb (is_null v)
  && existsb (fun old => value_eqb (cell old key) v) (List.filter where_ l)
  = false ->
  is_null v
  || existsb (fun r => value_eqb (cell r key) v)
             (List.filter (fun r => negb (where_ r)) l) = true.
Proof.
  destruct (is_null v); [reflexivity|]. cbn [orb negb andb].
  intros Hin Hout. apply existsb_exists in Hin as (r & Hr & Heq).
  apply existsb_exists. exists r. split; [|exact Heq].
  apply filter_In. split; [exact Hr|].
  destruct (where_ r) eqn:Hw; [exfalso|reflexivity].
  assert (Hgone : existsb (fun old => value_eqb (cell old key) v)
                          (List.filter where_ l) = true); [|congruence].
  apply existsb_exists. exists r.
  split; [|exact Heq]. apply filter_In. now split.
Qed.

Lemma no_reference d c v :
  col_references c = None -> reference_holds d c v = true.
Proof. unfold reference_holds. now intros ->. Qed.

Lemma reference_kept d d' c ref v :
  col_references c = Some ref ->
  table_rows d' (ref_table ref) = table_rows d (ref_table ref) ->
  column_holds d c v = true -> reference_holds d' c v = true.
Proof.
  intros Href Hsame Hcol. apply column_holds_reference in Hcol.
  revert Hcol. unfold reference_holds. rewrite Href.
  apply referenced_mono. intros r. now rewrite Hsame.
Qed.

(** ** The three tables *)

Section Delete.
Variables (now : Z) (where_ : row -> bool) (d : db).
Hypothesis valid : consistent finance d.
Hypothesis keyed : keys_distinct finance d.

Lemma tables_finance t :
  In t (tables finance) -> t = users \/ t = categories \/ t = transactions.
Proof. cbn. intuition. Qed.

Lemma users_refer_to_nothing c :
  In c (tbl_columns users) -> col_references c = None.
Proof. cbn. intuition (subst; reflexivity). Qed.

Lemma categories_refer_to_nothing c :
  In c (tbl_columns categories) -> col_references c = None.
Proof. cbn. intuition (subst; reflexivity). Qed.

Lemma transactions_references c :
  In c (tbl_columns transactions) ->
  c = user_id \/ c = category_id \/ col_references c = None.
Proof. cbn. intuition (subst; auto). Qed.

Lemma transaction_column r c :
  In r (table_rows d "transactions") -> In c (tbl_columns transactions) ->
  column_holds d c (cell r (col_name c)) = true.
Proof.
  intros Hr Hc. apply (row_holds_column d transactions); [|exact Hc].
  apply valid; [cbn; auto | exact Hr].
Qed.

(** A transaction that stays still finds the row it refers to. *)
Lemma survivor_holds (t : table) (c : column) (ref : reference) d' r :
  In t (tables finance) -> In c (tbl_columns transactions) ->
  col_references c = Some ref -> ref_table ref = tbl_name t ->
  In r (table_rows d "transactions") ->
  table_rows d' (tbl_name t)
  = List.filter (fun r => negb (where_ r)) (table_rows d (tbl_name t)) ->
  refers ref c (List.filter where_ (table_rows d (tbl_name t))) r = false ->
  reference_holds d' c (cell r (col_name c)) = true.
Proof.
  intros Ht Hc Href Htable Hr Hkept Hrefers.
  pose proof (column_holds_reference _ _ _ (transaction_column r c Hr Hc))
    as Hold.
  unfold reference_holds in *. rewrite Href in *.
  unfold referenced in *. rewrite Htable in *. rewrite Hkept.
  now apply survivor_referenced.
Qed.

Lemma set_null_stamps r :
  set_null finance now transactions category_id r
  = <["updated_at" := Timestamp now]> (<["category_id" := NULL]> r).
Proof. reflexivity. Qed.

Lemma set_null_cell r name :
  name <> "updated_at" -> name <> "category_id" ->
  cell (set_null finance now transactions category_id r) name = cell r name.
Proof.
  intros H1 H2. rewrite set_null_stamps. unfold cell.
  now rewrite !lookup_insert_ne by congruence.
Qed.

(** *** [DELETE FROM users] *)

Lemma delete_users :
  delete finance now "users" where_ d
  = (true,
     set_rows
       (set_rows d "users"
          (List.filter (fun r => negb (where_ r)) (table_rows d "users")))
       "transactions"
       (List.filter
          (fun r => negb (refers to_users user_id
                            (List.filter where_ (table_rows d "users")) r))
          (table_rows d "transactions"))).
Proof.
  rewrite <- (table_rows_set_rows_ne d "users" "transactions"
                (List.filter (fun r => negb (where_ r)) (table_rows d "users")))
    by discriminate.
  reflexivity.
Qed.

Lemma delete_users_rows :
  let d' := snd (delete finance now "users" where_ d) in
  table_rows d' "users"
  = List.filter (fun r => negb (where_ r)) (table_rows d "users") /\
  table_rows d' "categories" = table_rows d "categories" /\
  table_rows d' "transactions"
  = List.filter
      (fun r => negb (refers to_users user_id
                        (List.filter where_ (table_rows d "users")) r))
      (table_rows d "transactions").
Proof.
  rewrite delete_users. cbn [snd]. split; [|split].
  - rewrite table_rows_set_rows_ne by discriminate.
    apply table_rows_set_rows_eq.
  - now rewrite !table_rows_set_rows_ne by discriminate.
  - apply table_rows_set_rows_eq.
Qed.

Lemma delete_users_consistent :
  consistent finance (snd (delete finance now "users" where_ d)).
Proof.
  destruct delete_users_rows as (Husers & Hcategories & Htransactions).
  set (d' := snd (delete finance now "users" where_ d)) in *.
  apply (consistent_step finance d d' valid). intros t r Ht Hr. right.
  destruct (tables_finance t Ht) as [->|[->| ->]]; cbn [tbl_name users
    categories transactions] in Hr.
  - rewrite Husers in Hr. apply filter_In in Hr as [Hr _].
    split; [exact Hr|]. intros c Hc _.
    apply no_reference, users_refer_to_nothing, Hc.
  - rewrite Hcategories in Hr. split; [exact Hr|]. intros c Hc _.
    apply no_reference, categories_refer_to_nothing, Hc.
  - rewrite Htransactions in Hr. apply filter_In in Hr as [Hr Hstays].
    apply negb_true_iff in Hstays.
    split; [exact Hr|]. intros c Hc Hcol.
    destruct (transactions_references c Hc) as [->|[->|Hnone]].
    + apply (survivor_holds users user_id to_users d' r); auto;
        cbn; auto.
    + now apply (reference_kept d d' category_id to_categories).
    + now apply no_reference.
Qed.

Lemma delete_users_keyed :
  keys_distinct finance (snd (delete finance now "users" where_ d)).
Proof.
  destruct delete_users_rows as (Husers & Hcategories & Htransactions).
  intros t Ht. pose proof (keyed t Ht) as Hold.
  destruct (tables_finance t Ht) as [->|[->| ->]];
    cbn [tbl_name users categories transactions] in *.
  - rewrite Husers. now apply unique_holds_filter.
  - now rewrite Hcategories.
  - rewrite Htransactions. now apply unique_holds_filter.
Qed.

(** *** [DELETE FROM transactions] *)

Lemma delete_transactions :
  delete finance now "transactions" where_ d
  = (true,
     set_rows d "transactions"
       (List.filter (fun r => negb (where_ r))
                    (table_rows d "transactions"))).
Proof. reflexivity. Qed.

Lemma delete_transactions_rows :
  let d' := snd (delete finance now "transactions" where_ d) in
  table_rows d' "users" = table_rows d "users" /\
  table_rows d' "categories" = table_rows d "categories" /\
  table_rows d' "transactions"
  = List.filter (fun r => negb (where_ r)) (table_rows d "transactions").
Proof.
  rewrite delete_transactions. cbn [snd]. split; [|split].
  - now rewrite table_rows_set_rows_ne by discriminate.
  - now rewrite table_rows_set_rows_ne by discriminate.
  - apply table_rows_set_rows_eq.
Qed.

Lemma delete_transactions_consistent :
  consistent finance (snd (delete finance now "transactions" where_ d)).
Proof.
  destruct delete_transactions_rows as (Husers & Hcategories & Htransactions).
  set (d' := snd (delete finance now "transactions" where_ d)) in *.
  apply (consistent_step finance d d' valid). intros t r Ht Hr. right.
  destruct (tables_finance t Ht) as [->|[->| ->]]; cbn [tbl_name users
    categories transactions] in Hr.
  - rewrite Husers in Hr. split; [exact Hr|]. intros c Hc _.
    apply no_reference, users_refer_to_nothing, Hc.
  - rewrite Hcategories in Hr. split; [exact Hr|]. intros c Hc _.
    apply no_reference, categories_refer_to_nothing, Hc.
  - rewrite Htransactions in Hr. apply filter_In in Hr as [Hr _].
    split; [exact Hr|]. intros c Hc Hcol.
    destruct (transactions_references c Hc) as [->|[->|Hnone]].
    + now apply (reference_kept d d' user_id to_users).
    + now apply (reference_kept d d' category_id to_categories).
    + now apply no_reference.
Qed.

Lemma delete_transactions_keyed :
  keys_distinct finance (snd (delete finance now "transactions" where_ d)).
Proof.
  destruct delete_transactions_rows as (Husers & Hcategories & Htransactions).
  intros t Ht. pose proof (keyed t Ht) as Hold.
  destruct (tables_finance t Ht) as [->|[->| ->]];
    cbn [tbl_name users categories transactions] in *.
  - now rewrite Husers.
  - now rewrite Hcategories.
  - rewrite Htransactions. now apply unique_holds_filter.
Qed.

(** *** [DELETE FROM categories] *)

Local Abbreviation gone_categories :=
  (List.filter where_ (table_rows d "categories")).

Local Abbreviation uncategorised :=
  (map (fun r => if refers to_categories category_id gone_categories r
                 then set_null finance now transactions category_id r else r)
       (table_rows d "transactions")).

Local Abbreviation without_categories :=
  (set_rows
     (set_rows d "categories"
        (List.filter (fun r => negb (where_ r)) (table_rows d "categories")))
     "transactions" uncategorised).

Lemma without_categories_rows :
  table_rows without_categories "users" = table_rows d "users" /\
  table_rows without_categories "categories"
  = List.filter (fun r => negb (where_ r)) (table_rows d "categories") /\
  table_rows without_categories "transactions" = uncategorised.
Proof.
  split; [|split].
  - now rewrite !table_rows_set_rows_ne by discriminate.
  - rewrite table_rows_set_rows_ne by discriminate.
    apply table_rows_set_rows_eq.
  - apply table_rows_set_rows_eq.
Qed.

(** The rows that lose their category pass the checks of the update. *)
Lemma set_null_holds r :
  In r (table_rows d "transactions") ->
  row_holds without_categories transactions
    (set_null finance now transactions category_id r) = true.
Proof.
  intros Hr. destruct without_categories_rows as (Husers & _ & _).
  assert (Hkeeps : forall c,
            In c (tbl_columns transactions) ->
            col_name c <> "updated_at" -> col_name c <> "category_id" ->
            col_references c = None \/ c = user_id ->
            column_holds without_categories c
              (cell (set_null finance now transactions category_id r)
                    (col_name c)) = true).
  { intros c Hc H1 H2 Href. rewrite set_null_cell by assumption.
    apply (column_holds_transfer d); [now apply transaction_column|].
    destruct Href as [Hnone| ->]; [now apply no_reference|].
    apply (reference_kept d _ user_id to_users); auto.
    now apply transaction_column. }
  assert (Hcategory :
            cell (set_null finance now transactions category_id r)
                 "category_id" = NULL).
  { rewrite set_null_stamps. unfold cell.
    rewrite lookup_insert_ne by discriminate. now rewrite lookup_insert_eq. }
  assert (Hstamp :
            cell (set_null finance now transactions category_id r)
                 "updated_at" = Timestamp now).
  { rewrite set_null_stamps. unfold cell. now rewrite lookup_insert_eq. }
  unfold row_holds. apply forallb_forall. intros c Hc.
  pose proof (Hkeeps c Hc) as Hrest. cbn in Hc.
  destruct Hc as [<-|[<-|[<-|[<-|[<-|[<-|[<-|[<-|[<-|[]]]]]]]]]];
    try (apply Hrest; [discriminate | discriminate | auto]);
    cbn [col_name col REFERENCES DEFAULT];
    rewrite ?Hcategory, ?Hstamp; reflexivity.
Qed.

Lemma uncategorised_keep_id :
  map (fun r : row => cell r "id") uncategorised
  = map (fun r : row => cell r "id") (table_rows d "transactions").
Proof.
  rewrite map_map. apply map_ext. intros r.
  destruct (refers _ _ _ r); [|reflexivity].
  now apply set_null_cell.
Qed.

Lemma uncategorised_keyed : unique_holds transactions uncategorised = true.
Proof.
  pose proof (keyed transactions ltac:(cbn; auto)) as Hold.
  unfold unique_holds in *. rewrite forallb_forall in Hold.
  apply forallb_forall. intros c Hc. specialize (Hold c Hc).
  cbn in Hc.
  destruct Hc as [<-|[<-|[<-|[<-|[<-|[<-|[<-|[<-|[<-|[]]]]]]]]]];
    try reflexivity.
  cbn [col_name col PRIMARY_KEY col_unique col_primary_key negb orb] in *.
  rewrite uncategorised_keep_id. exact Hold.
Qed.

Lemma delete_categories :
  delete finance now "categories" where_ d = (true, without_categories).
Proof.
  assert (Hchecks :
    forallb (fun r => row_holds without_categories transactions
                        (set_null finance now transactions category_id r))
            (List.filter (refers to_categories category_id gone_categories)
                         (table_rows d "transactions"))
    && unique_holds transactions uncategorised = true).
  { rewrite uncategorised_keyed, andb_true_r. apply forallb_forall.
    intros r Hr. apply filter_In in Hr as [Hr _]. now apply set_null_holds. }
  transitivity
    (match (if forallb (fun r => row_holds without_categories transactions
                          (set_null finance now transactions category_id r))
                 (List.filter (refers to_categories category_id gone_categories)
                              (table_rows d "transactions"))
               && unique_holds transactions uncategorised
            then Some without_categories else None) with
     | Some d' => (true, d')
     | None => (false, d)
     end); [|now rewrite Hchecks].
  rewrite <- (table_rows_set_rows_ne d "categories" "transactions"
                (List.filter (fun r => negb (where_ r))
                             (table_rows d "categories")))
    by discriminate.
  reflexivity.
Qed.

Lemma delete_categories_consistent :
  consistent finance (snd (delete finance now "categories" where_ d)).
Proof.
  rewrite delete_categories. cbn [snd].
  destruct without_categories_rows as (Husers & Hcategories & Htransactions).
  apply (consistent_step finance d _ valid). intros t r Ht Hr.
  destruct (tables_finance t Ht) as [->|[->| ->]]; cbn [tbl_name users
    categories transactions] in Hr.
  - right. rewrite Husers in Hr. split; [exact Hr|]. intros c Hc _.
    apply no_reference, users_refer_to_nothing, Hc.
  - right. rewrite Hcategories in Hr. apply filter_In in Hr as [Hr _].
    split; [exact Hr|]. intros c Hc _.
    apply no_reference, categories_refer_to_nothing, Hc.
  - rewrite Htransactions in Hr. apply in_map_iff in Hr as (r0 & Hr0 & Hin).
    destruct (refers to_categories category_id gone_categories r0) eqn:Hrefers.
    + left. subst r. now apply set_null_holds.
    + right. subst r0. split; [exact Hin|]. intros c Hc Hcol.
      destruct (transactions_references c Hc) as [->|[->|Hnone]].
      * now apply (reference_kept d _ user_id to_users).
      * apply (survivor_holds categories category_id to_categories _ r);
          auto; cbn; auto.
      * now apply no_reference.
Qed.

Lemma delete_categories_keyed :
  keys_distinct finance (snd (delete finance now "categories" where_ d)).
Proof.
  rewrite delete_categories. cbn [snd].
  destruct without_categories_rows as (Husers & Hcategories & Htransactions).
  intros t Ht. pose proof (keyed t Ht) as Hold.
  destruct (tables_finance t Ht) as [->|[->| ->]];
    cbn [tbl_name users categories transactions] in *.
  - now rewrite Husers.
  - rewrite Hcategories. now apply unique_holds_filter.
  - rewrite Htransactions. apply uncategorised_keyed.
Qed.

(** X17. On a database whose rows satisfy the constraints, a [DELETE] on
    any of the three tables is carried out and leaves such a database: no
    row refers to a row that is gone, and keys stay distinct.  Deleting
    users deletes the transactions that refer to them and no others;
    deleting categories keeps every transaction and, in those that
    referred to them, sets category_id to [NULL] and, by the trigger,
    updated_at to the time of the statement. *)
Theorem delete_keeps_constraints (t : string) :
  In t ["users"; "categories"; "transactions"] ->
  let deleted := List.filter where_ (table_rows d t) in
  let d' := snd (delete finance now t where_ d) in
  fst (delete finance now t where_ d) = true /\
  consistent finance d' /\
  keys_distinct finance d' /\
  table_rows d' t = List.filter (fun r => negb (where_ r)) (table_rows d t) /\
  (t = "users" ->
   table_rows d' "categories" = table_rows d "categories" /\
   table_rows d' "transactions"
   = List.filter (fun r => negb (refers to_users user_id deleted r))
                 (table_rows d "transactions")) /\
  (t = "categories" ->
   table_rows d' "users" = table_rows d "users" /\
   table_rows d' "transactions"
   = map (fun r => if refers to_categories category_id deleted r
                   then <["updated_at" := Timestamp now]>
                          (<["category_id" := NULL]> r)
                   else r)
         (table_rows d "transactions")) /\
  (t = "transactions" ->
   table_rows d' "users" = table_rows d "users" /\
   table_rows d' "categories" = table_rows d "categories").
Proof.
  intros [<-|[<-|[<-|[]]]]; cbn zeta.
  - destruct delete_users_rows as (Husers & Hcategories & Htransactions).
    split; [now rewrite delete_users|].
    split; [apply delete_users_consistent|].
    split; [apply delete_users_keyed|].
    split; [exact Husers|].
    split; [intros _; now split|]. split; discriminate.
  - split; [now rewrite delete_categories|].
    split; [apply delete_categories_consistent|].
    split; [apply delete_categories_keyed|].
    rewrite delete_categories. cbn [snd].
    destruct without_categories_rows as (Husers & Hcategories & Htransactions).
    split; [exact Hcategories|].
    split; [discriminate|]. split; [|discriminate].
    intros _. split; [exact Husers|]. exact Htransactions.
  - destruct delete_transactions_rows as (Husers & Hcategories & Htransactions).
    split; [now rewrite delete_transactions|].
    split; [apply delete_transactions_consistent|].
    split; [apply delete_transactions_keyed|].
    split; [exact Htransactions|].
    split; [discriminate|]. split; [discriminate|]. intros _. now split.
Qed.

End Delete.

(** Deleting the only user of the sample ledger deletes her expense. *)
Lemma delete_keeps_constraints_witness :
  let d' := snd (delete finance 103 "users" (fun _ => true) Examples.ledger) in
  length (table_rows Examples.ledger "transactions") = 1%nat /\
  consistent finance d' /\
  table_rows d' "transactions" = [].
Proof.
  intros d'.
  assert (Hvalid : consistent finance Examples.ledger).
  { apply run_consistent; [apply finance_names_distinct|].
    apply empty_consistent. }
  assert (Hkeyed : keys_distinct finance Examples.ledger).
  { apply run_keys_distinct; [apply finance_names_distinct|].
    apply empty_keys_distinct. }
  destruct (delete_keeps_constraints 103 (fun _ => true) Examples.ledger
              Hvalid Hkeyed "users" (or_introl eq_refl))
    as (_ & Hconsistent & _ & _ & Hcascade & _).
  split; [vm_compute; reflexivity|]. split; [exact Hconsistent|].
  destruct (Hcascade eq_refl) as [_ Hrows]. fold d' in Hrows.
  rewrite Hrows. vm_compute. reflexivity.
Defined.

End DeletionProofs.

(* ===================================================================== *)
(** * Calls through the adapter never fail on their own                  *)
(* ===================================================================== *)

Module TelegramCallsProofs.
Import TelegramWebApp TelegramCalls.

Section Calls.
Context {callback : Type}.
Variable refuse : callback -> completion.

(** X18. The haptic calls and [sendData] never throw, whatever the bridge
    provides and however its methods end; each forwards at most one call
    and calls no callback.  [requestWriteAccess] and [requestContact] hand
    the callback to the bridge when it has the method; they answer
    themselves, and then with [false], exactly when the method is missing
    or throws, and with a callback that does not throw they end
    normally. *)
Theorem calls_are_guarded (tg : option Bridge) (text : string)
    (jsonData : option string) (cb : option callback) :
  (forall f, cb = Some f -> refuse f = Normal) ->
  Forall (fun b : block callback =>
            snd b = Normal /\
            (length (List.filter is_forwarded (fst b)) <= 1)%nat /\
            List.filter is_refusal (fst b) = [])
         [hapticImpact callback tg text; hapticNotification callback tg text;
          hapticSelection callback tg; sendData callback tg jsonData] /\
  Forall (fun '(b, m, name) =>
            snd b = Normal /\
            List.filter is_refusal (fst b)
            = match m, cb with
              | Some Normal, _ | _, None => []
              | _, Some f => [Refused f]
              end /\
            List.filter is_forwarded (fst b)
            = match m with
              | Some _ => [Forwarded name None cb]
              | None => []
              end)
         [(requestWriteAccess callback refuse tg cb,
           method tg tg_requestWriteAccess, "requestWriteAccess");
          (requestContact callback refuse tg cb,
           method tg tg_requestContact, "requestContact")].
Proof.
  intros Hcb. split.
  - unfold hapticImpact, hapticNotification, hapticSelection, sendData.
    repeat apply List.Forall_cons; try apply List.Forall_nil.
    + destruct (method tg tg_impactOccurred) as [f|]; [|cbn; auto].
      cbn. destruct (f text); cbn; auto.
    + destruct (method tg tg_notificationOccurred) as [f|]; [|cbn; auto].
      cbn. destruct (f text); cbn; auto.
    + destruct (method tg tg_selectionChanged) as [[]|]; cbn; auto.
    + destruct (method tg tg_sendData) as [f|]; [|cbn; auto].
      destruct jsonData as [json|]; [|cbn; auto].
      cbn. destruct (f json); cbn; auto.
  - unfold requestWriteAccess, requestContact, refuseIf.
    repeat apply List.Forall_cons; try apply List.Forall_nil.
    + destruct cb as [f|]; [rewrite (Hcb f eq_refl)|];
        destruct (method tg tg_requestWriteAccess) as [[]|]; cbn;
        repeat split; reflexivity.
    + destruct cb as [f|]; [rewrite (Hcb f eq_refl)|];
        destruct (method tg tg_requestContact) as [[]|]; cbn;
        repeat split; reflexivity.
Qed.

End Calls.

Lemma calls_are_guarded_witness :
  requestWriteAccess unit (fun _ => Normal) (Some old_client) (Some tt)
  = ([Forwarded "requestWriteAccess" None (Some tt); ConsoleError; Refused tt],
     Normal) /\
  snd (hapticImpact unit (Some old_client) "medium") = Normal.
Proof.
  split; [reflexivity|].
  pose proof (proj1 (calls_are_guarded (fun _ : unit => Normal)
                       (Some old_client) "medium" None (Some tt)
                       (fun _ _ => eq_refl))) as H.
  apply List.Forall_inv in H. exact (proj1 H).
Defined.

End TelegramCallsProofs.
